(** * csi-driver-nfs: get_supported_version_csi-sidecar.py

    A shallow embedding of the release-support utility that the repository
    carries twice,

      - [src/release-tools/contrib/get_supported_version_csi-sidecar.py]
        (module [ReleaseTools]) and
      - [src/contrib/get_supported_version_csi-sidecar.py]
        (module [Contrib]),

    together with the part of the Python runtime the two files lean on
    (module [Py]): exceptions, [str], [int], the [re] patterns that occur in
    the sources, [datetime] and [timedelta], [dateutil]'s [relativedelta],
    [sorted] over the items of a [dict], and [argparse].

    The first half of the file holds the definitions, the second half the
    properties proved about them. *)

From Stdlib Require Import ZArith List Lia Bool String Ascii DecimalString.
From stdpp Require Import base option list sorting strings gmap.

Open Scope Z_scope.

(* ===================================================================== *)
(** * Part I. Definitions                                                  *)
(* ===================================================================== *)

Module Py.

(** ** Exceptions and fallible computations *)

(** A Python [str] is a sequence of Unicode code points. *)
Definition char := N.
Bind Scope N_scope with char.
Definition str := list char.

(** The code points of an ASCII literal of the source, and of one of its
    characters. *)
Definition chr (a : ascii) : char := N_of_ascii a.
Definition py (s : string) : str := map chr (list_ascii_of_string s).

(** [str(n)] for an integer. *)
Definition str_of_int (n : Z) : str := py (NilZero.string_of_int (Z.to_int n)).

(** The exceptions the two scripts can run into.  [IndexError] carries
    the message Python gives it, [AttributeError] the attribute that was
    not found; [SystemExit] is what [exit(n)] and [argparse]'s error path
    raise. *)
Inductive exn :=
| IndexError (message : string)
| ValueError
| TypeError
| AttributeError (attribute : string)
| CalledProcessError
| OverflowError
| SystemExit (code : Z).

(** The outcome of evaluating a Python expression: a value, a raised
    exception (the scripts catch none), or, for code with a [while] loop
    run on bounded fuel, the fuel running out before the loop ends. *)
Inductive result (A : Type) :=
| Ok (a : A)
| Raise (e : exn)
| Unfinished.
Arguments Ok {A} a.
Arguments Raise {A} e.
Arguments Unfinished {A}.

#[global] Instance result_ret : MRet result := fun A a => Ok a.

#[global] Instance result_bind : MBind result := fun A B k r =>
  match r with
  | Ok a => k a
  | Raise e => Raise e
  | Unfinished => Unfinished
  end.

(** [map f xs] forced to a list, stopping at the first exception. *)
Fixpoint map_result {A B} (f : A -> result B) (xs : list A) : result (list B) :=
  match xs with
  | [] => Ok []
  | x :: xs' => y ← f x; ys ← map_result f xs'; Ok (y :: ys)
  end.

(** ** Unicode character classes *)

(** What the Unicode database says about the code points beyond ASCII:
    the value of a decimal digit (category Nd), whether a code point is
    alphanumeric, and whether it is white space.  The ASCII half of the
    three tables is fixed below; the scripts only ever compare against
    ASCII literals, so every property holds whatever the rest of the
    database says. *)
Class Unicode := {
  uni_decimal : char -> option Z;
  uni_alnum : char -> bool;
  uni_space : char -> bool
}.

(** The database restricted to ASCII: nothing beyond code point 127 is a
    digit or a letter. *)
Definition ascii_only : Unicode :=
  {| uni_decimal := fun _ => None; uni_alnum := fun _ => false;
     uni_space := fun _ => false |}.

Section Chars.
Context {U : Unicode}.

(** The decimal value of a code point, as [int] and [\d] read it. *)
Definition decimal_value (c : char) : option Z :=
  if (c <? 128)%N then
    if ((48 <=? c) && (c <=? 57))%N then Some (Z.of_N c - 48) else None
  else uni_decimal c.

Definition is_decimal (c : char) : bool :=
  match decimal_value c with Some _ => true | None => false end.

(** [str.isalnum] on one code point, and [\w]: alphanumeric or underscore. *)
Definition is_alnum (c : char) : bool :=
  if (c <? 128)%N then
    ((48 <=? c) && (c <=? 57) || (65 <=? c) && (c <=? 90)
     || (97 <=? c) && (c <=? 122))%N
  else uni_alnum c.

Definition is_word (c : char) : bool := is_alnum c || (c =? 95)%N.

(** [str.isspace] on one code point: in ASCII, tab to carriage return, the
    four separators 28 to 31, and the space. *)
Definition is_space (c : char) : bool :=
  if (c <? 128)%N then
    ((9 <=? c) && (c <=? 13) || (28 <=? c) && (c <=? 31) || (c =? 32))%N
  else uni_space c.

(** [s.strip()] *)
Fixpoint lstrip (s : str) : str :=
  match s with
  | c :: s' => if is_space c then lstrip s' else s
  | [] => []
  end.

Definition strip (s : str) : str := reverse (lstrip (reverse (lstrip s))).

(** [sys.get_int_max_str_digits()]: the number of digits beyond which
    [int] refuses a string.  The scripts leave it at its default. *)
Definition int_max_str_digits : Z := 4300.

(** [int(s)] on the strings the scripts pass to it, the text of a [\d+]
    group: a non-empty run of decimal digits is read most significant digit
    first, unless it has more than [int_max_str_digits] digits, which
    raises [ValueError].  The other spellings that Python accepts (a sign,
    surrounding blanks, underscores) do not occur in such a group; on them
    the model raises [ValueError]. *)
Fixpoint int_digits (acc : Z) (s : str) : result Z :=
  match s with
  | [] => Ok acc
  | c :: s' =>
      match decimal_value c with
      | Some d => int_digits (10 * acc + d) s'
      | None => Raise ValueError
      end
  end.

Definition int (s : str) : result Z :=
  match s with
  | [] => Raise ValueError
  | _ =>
      if int_max_str_digits <? Z.of_nat (length s) then Raise ValueError
      else int_digits 0 s
  end.

(** ** Regular expressions

    The patterns of the sources are sequences of single-character atoms,
    greedy repetitions of such atoms, and capture groups.  The matcher is
    the backtracking one of [re]: a repetition takes as many characters as
    it can and gives them back one at a time while the rest of the pattern
    fails. *)

Inductive atom :=
| Chr (c : char)   (* a literal character *)
| Digit            (* \d *)
| Word             (* \w *)
| AnyChar.         (* .  : anything but a newline *)

Definition accepts (a : atom) (c : char) : bool :=
  match a with
  | Chr c' => (c =? c')%N
  | Digit => is_decimal c
  | Word => is_word c
  | AnyChar => negb (c =? 10)%N
  end.

(** A character set [[...]] accepts what one of its members accepts. *)
Definition accepts_any (alts : list atom) (c : char) : bool :=
  existsb (fun a => accepts a c) alts.

Inductive item :=
| One (a : atom)              (* a      *)
| Plus (a : atom)             (* a+     *)
| Star (a : atom)             (* a*     *)
| StarOf (alts : list atom)   (* [...]* *)
| GroupOpen                   (* (      *)
| GroupClose.                 (* )      *)

Definition pattern := list item.

(** The literal text [s] as a pattern. *)
Definition text (s : string) : pattern := map (fun c => One (Chr c)) (py s).

(** A match object: the subject string, the span of the whole match and
    the spans of the groups in the order of their parentheses (the groups
    of the sources are never nested). *)
Record match_object := {
  m_string : str;
  m_start : nat;
  m_end : nat;
  m_spans : list (nat * nat)
}.

(** [s[i:j]] *)
Definition slice (s : str) (i j : nat) : str := take (j - i) (drop i s).

(** [m.groups()] and [m.group(n)] for [n >= 1]. *)
Definition groups (m : match_object) : list str :=
  map (fun '(i, j) => slice (m_string m) i j) (m_spans m).

Definition group (m : match_object) (n : nat) : result str :=
  match n with
  | O => Ok (slice (m_string m) (m_start m) (m_end m))
  | S n' =>
      match groups m !! n' with
      | Some g => Ok g
      | None => Raise (IndexError "no such group")
      end
  end.

(** Greedy repetition of one atom: take a character and go on, and fall
    back to the continuation [k] where that fails. *)
Fixpoint greedy {R} (ok : char -> bool) (k : nat -> str -> option R)
    (pos : nat) (s : str) : option R :=
  match s with
  | c :: s' =>
      if ok c then
        match greedy ok k (S pos) s' with
        | Some r => Some r
        | None => k pos s
        end
      else k pos s
  | [] => k pos s
  end.

(** Match [p] against [s], which starts at index [pos] of the subject;
    [opens] holds the start of every group still open, [spans] the groups
    closed so far.  The result is the end of the match and its groups. *)
Fixpoint match_here (p : pattern) (pos : nat) (s : str)
    (opens : list nat) (spans : list (nat * nat))
    : option (nat * list (nat * nat)) :=
  match p with
  | [] => Some (pos, spans)
  | One a :: p' =>
      match s with
      | c :: s' =>
          if accepts a c then match_here p' (S pos) s' opens spans else None
      | [] => None
      end
  | Star a :: p' =>
      greedy (accepts a) (fun pos' s' => match_here p' pos' s' opens spans) pos s
  | StarOf alts :: p' =>
      greedy (accepts_any alts)
        (fun pos' s' => match_here p' pos' s' opens spans) pos s
  | Plus a :: p' =>
      match s with
      | c :: s' =>
          if accepts a c then
            greedy (accepts a)
              (fun pos' s' => match_here p' pos' s' opens spans) (S pos) s'
          else None
      | [] => None
      end
  | GroupOpen :: p' => match_here p' pos s (pos :: opens) spans
  | GroupClose :: p' =>
      match opens with
      | start :: opens' => match_here p' pos s opens' (spans ++ [(start, pos)])
      | [] => None
      end
  end.

Definition match_at (p : pattern) (subject : str) (pos : nat)
    : option match_object :=
  match match_here p pos (drop pos subject) [] [] with
  | Some (e, spans) =>
      Some {| m_string := subject; m_start := pos; m_end := e; m_spans := spans |}
  | None => None
  end.

(** [re.match(p, subject)]: the pattern must match at the start. *)
Definition re_match (p : pattern) (subject : str) : option match_object :=
  match_at p subject 0.

(** [re.search(p, subject)]: the leftmost position where it matches, out
    of [pos] and the [more] positions after it. *)
Fixpoint search_from (p : pattern) (subject : str) (pos more : nat)
    : option match_object :=
  match match_at p subject pos with
  | Some m => Some m
  | None =>
      match more with
      | O => None
      | S more' => search_from p subject (S pos) more'
      end
  end.

Definition re_search (p : pattern) (subject : str) : option match_object :=
  search_from p subject 0 (length subject).

End Chars.

(** ** datetime and timedelta

    A naive [datetime] is its seven fields.  A [timedelta] is kept as its
    total number of microseconds: Python normalises it to (days, seconds,
    microseconds) and orders it lexicographically on those, which is the
    order of the totals. *)

Record datetime := mk_datetime {
  year : Z; month : Z; day : Z;
  hour : Z; minute : Z; second : Z; microsecond : Z
}.

Definition timedelta := Z.

Definition microseconds_per_day : Z := 86400 * 1000000.

(** [timedelta(days=n)] *)
Definition timedelta_days (n : Z) : timedelta := n * microseconds_per_day.

Definition MAXORDINAL : Z := 3652059.

Definition is_leap (y : Z) : bool :=
  (y mod 4 =? 0) && (negb (y mod 100 =? 0) || (y mod 400 =? 0)).

(** [_DAYS_IN_MONTH] and [_DAYS_BEFORE_MONTH] *)
Definition DAYS_IN_MONTH (m : Z) : Z :=
  match m with
  | 1 => 31 | 2 => 28 | 3 => 31 | 4 => 30 | 5 => 31 | 6 => 30
  | 7 => 31 | 8 => 31 | 9 => 30 | 10 => 31 | 11 => 30 | 12 => 31
  | _ => -1
  end.

Definition DAYS_BEFORE_MONTH (m : Z) : Z :=
  match m with
  | 1 => 0 | 2 => 31 | 3 => 59 | 4 => 90 | 5 => 120 | 6 => 151
  | 7 => 181 | 8 => 212 | 9 => 243 | 10 => 273 | 11 => 304 | 12 => 334
  | _ => -1
  end.

Definition days_before_year (y : Z) : Z :=
  let y := y - 1 in y * 365 + y / 4 - y / 100 + y / 400.

Definition days_in_month (y m : Z) : Z :=
  if (m =? 2) && is_leap y then 29 else DAYS_IN_MONTH m.

Definition days_before_month (y m : Z) : Z :=
  DAYS_BEFORE_MONTH m + (if (2 <? m) && is_leap y then 1 else 0).

(** [_ymd2ord]: 0001-01-01 is day 1. *)
Definition ymd2ord (y m d : Z) : Z :=
  days_before_year y + days_before_month y m + d.

(** The end of [_ord2ymd]: the month and the day of day [n] of a year,
    counted from 0; the month is estimated, and corrected when the
    estimate is too large. *)
Definition month_and_day (leapyear : bool) (n : Z) : Z * Z :=
  let m := Z.shiftr (n + 50) 5 in
  let preceding :=
    DAYS_BEFORE_MONTH m + (if (2 <? m) && leapyear then 1 else 0) in
  if n <? preceding then
    let m := m - 1 in
    let preceding :=
      preceding - (DAYS_IN_MONTH m + (if (m =? 2) && leapyear then 1 else 0)) in
    (m, n - preceding + 1)
  else (m, n - preceding + 1).

(** [_ord2ymd] *)
Definition ord2ymd (n : Z) : Z * Z * Z :=
  let n := n - 1 in
  let n400 := n / 146097 in
  let n := n mod 146097 in
  let y := n400 * 400 + 1 in
  let n100 := n / 36524 in
  let n := n mod 36524 in
  let n4 := n / 1461 in
  let n := n mod 1461 in
  let n1 := n / 365 in
  let n := n mod 365 in
  let y := y + n100 * 100 + n4 * 4 + n1 in
  if (n1 =? 4) || (n100 =? 4) then (y - 1, 12, 31)
  else
    let leapyear := (n1 =? 3) && (negb (n4 =? 24) || (n100 =? 3)) in
    let '(m, d) := month_and_day leapyear n in
    (y, m, d).

Definition toordinal (dt : datetime) : Z :=
  ymd2ord (year dt) (month dt) (day dt).

(** Seconds since midnight, and microseconds since the start of day 0. *)
Definition seconds_of_day (dt : datetime) : Z :=
  second dt + minute dt * 60 + hour dt * 3600.

Definition to_microseconds (dt : datetime) : Z :=
  (toordinal dt * 86400 + seconds_of_day dt) * 1000000 + microsecond dt.

(** [dt1 - dt2] *)
Definition datetime_sub (dt1 dt2 : datetime) : timedelta :=
  to_microseconds dt1 - to_microseconds dt2.

(** [dt + td]: [OverflowError] outside years 1 to 9999. *)
Definition datetime_add (dt : datetime) (td : timedelta) : result datetime :=
  let total := to_microseconds dt + td in
  let days := total / microseconds_per_day in
  let rest := total mod microseconds_per_day in
  let secs := rest / 1000000 in
  if (0 <? days) && (days <=? MAXORDINAL) then
    let '(y, m, d) := ord2ymd days in
    Ok {| year := y; month := m; day := d;
          hour := secs / 3600; minute := secs mod 3600 / 60;
          second := secs mod 3600 mod 60; microsecond := rest mod 1000000 |}
  else Raise OverflowError.

(** [dt1 < dt2]: the fields are compared in order. *)
Definition fields (dt : datetime) : list Z :=
  [year dt; month dt; day dt; hour dt; minute dt; second dt; microsecond dt].

Fixpoint list_lt (xs ys : list Z) : bool :=
  match xs, ys with
  | x :: xs', y :: ys' => (x <? y) || ((x =? y) && list_lt xs' ys')
  | [], _ :: _ => true
  | _, [] => false
  end.

Definition datetime_lt (dt1 dt2 : datetime) : bool :=
  list_lt (fields dt1) (fields dt2).

(** The datetimes Python can build. *)
Definition valid_datetime (dt : datetime) : Prop :=
  1 <= year dt <= 9999 /\ 1 <= month dt <= 12
  /\ 1 <= day dt <= days_in_month (year dt) (month dt)
  /\ 0 <= hour dt < 24 /\ 0 <= minute dt < 60 /\ 0 <= second dt < 60
  /\ 0 <= microsecond dt < 1000000.

(** ** Lists and dicts *)

(** [l[0]] and [l[-1]] *)
Definition first_item {A} (l : list A) : result A :=
  match l with
  | x :: _ => Ok x
  | [] => Raise (IndexError "list index out of range")
  end.

Definition last_item {A} (l : list A) : result A :=
  match last l with
  | Some x => Ok x
  | None => Raise (IndexError "list index out of range")
  end.

(** Tuples of two integers compare lexicographically. *)
Definition tuple_le (a b : Z * Z) : Prop :=
  a.1 < b.1 \/ (a.1 = b.1 /\ a.2 <= b.2).

#[global] Instance tuple_le_dec : RelDecision tuple_le.
Proof. intros a b. unfold tuple_le. apply _. Defined.

(** [sorted(d.items(), key=lambda x: x[0], reverse=True)]: the items by
    descending key.  The keys of a dict are distinct, so there is one such
    list whatever the sorting algorithm and the insertion order. *)
Definition key_ge {V} (x y : Z * Z * V) : Prop := tuple_le y.1 x.1.

#[global] Instance key_ge_dec {V} : RelDecision (@key_ge V).
Proof. intros x y. unfold key_ge. apply _. Defined.

Definition sorted_items_desc {V} (d : gmap (Z * Z) V) : list (Z * Z * V) :=
  merge_sort key_ge (map_to_list d).

(** [s.split(sep)] for a separator of one character: never empty. *)
Fixpoint split_on (sep : char) (s : str) : list str :=
  match s with
  | [] => [[]]
  | c :: s' =>
      if (c =? sep)%N then [] :: split_on sep s'
      else
        match split_on sep s' with
        | part :: parts => (c :: part) :: parts
        | [] => [[c]]
        end
  end.

(** [l[i]] *)
Definition item_at {A} (l : list A) (i : nat) : result A :=
  match l !! i with
  | Some x => Ok x
  | None => Raise (IndexError "list index out of range")
  end.

(** ** Formatting and parsing times

    [strptime] and [strftime] go through the platform's C library; the
    model takes both as given, with the one law that a datetime parsed
    from text is a datetime Python can build. *)
Class TimeFormat := {
  strptime : str -> string -> result datetime;
  strftime : datetime -> string -> str;
  strptime_valid : forall s format dt,
    strptime s format = Ok dt -> valid_datetime dt
}.

(** ** dateutil.relativedelta *)

Record relativedelta := mk_relativedelta {
  years : Z; months : Z; days : Z;
  hours : Z; minutes : Z; seconds : Z; microseconds : Z
}.

(** [_sign]: [copysign(1, x)], which is 1 at zero. *)
Definition sign (x : Z) : Z := if x <? 0 then -1 else 1.

(** One step of [_fix] and of [_set_months]: a field whose magnitude
    reaches [unit] keeps the remainder and carries the quotient, both with
    the sign of the field. *)
Definition carry (value unit : Z) : Z * Z :=
  if unit - 1 <? Z.abs value then
    let s := sign value in
    ((value * s) mod unit * s, (value * s) / unit * s)
  else (value, 0).

(** [_set_months] on a delta whose other fields are still zero. *)
Definition set_months (total : Z) : relativedelta :=
  let '(m, y) := carry total 12 in
  {| years := y; months := m; days := 0; hours := 0; minutes := 0;
     seconds := 0; microseconds := 0 |}.

(** [dt.replace(year=y, month=m, day=d)] *)
Definition replace_date (dt : datetime) (y m d : Z) : result datetime :=
  if (1 <=? y) && (y <=? 9999) && (1 <=? m) && (m <=? 12)
     && (1 <=? d) && (d <=? days_in_month y m)
  then Ok {| year := y; month := m; day := d; hour := hour dt;
             minute := minute dt; second := second dt;
             microsecond := microsecond dt |}
  else Raise ValueError.

(** [delta + other] for a datetime [other] ([__radd__]): move by the years
    and months, clip the day to the month reached, then add the rest as
    a timedelta. *)
Definition relativedelta_radd (delta : relativedelta) (other : datetime)
    : result datetime :=
  let y := year other + years delta in
  let m := month other in
  let '(y, m) :=
    if months delta =? 0 then (y, m)
    else
      let m := m + months delta in
      if 12 <? m then (y + 1, m - 12)
      else if m <? 1 then (y - 1, m + 12)
      else (y, m) in
  if (1 <=? m) && (m <=? 12) then
    let d := Z.min (days_in_month y m) (day other) in
    replaced ← replace_date other y m d;
    datetime_add replaced
      ((((days delta * 24 + hours delta) * 60 + minutes delta) * 60
        + seconds delta) * 1000000 + microseconds delta)
  else Raise ValueError.

(** The [while compare(dt1, dtm)] loop of the constructor. *)
Fixpoint adjust_months (fuel : nat) (compare : datetime -> datetime -> bool)
    (increment : Z) (dt1 dt2 : datetime) (total : Z) (dtm : datetime)
    : result (Z * datetime) :=
  if compare dt1 dtm then
    match fuel with
    | O => Unfinished
    | S fuel' =>
        let total := total + increment in
        dtm ← relativedelta_radd (set_months total) dt2;
        adjust_months fuel' compare increment dt1 dt2 total dtm
    end
  else Ok (total, dtm).

(** [_fix] *)
Definition fix_fields (delta : relativedelta) : relativedelta :=
  let '(us, c) := carry (microseconds delta) 1000000 in
  let '(s, c) := carry (seconds delta + c) 60 in
  let '(mi, c) := carry (minutes delta + c) 60 in
  let '(h, c) := carry (hours delta + c) 24 in
  let d := days delta + c in
  let '(mo, c) := carry (months delta) 12 in
  {| years := years delta + c; months := mo; days := d; hours := h;
     minutes := mi; seconds := s; microseconds := us |}.

(** [relativedelta(dt1, dt2)] *)
Definition relativedelta_between (fuel : nat) (dt1 dt2 : datetime)
    : result relativedelta :=
  let total := (year dt1 - year dt2) * 12 + (month dt1 - month dt2) in
  dtm ← relativedelta_radd (set_months total) dt2;
  let '(compare, increment) :=
    if datetime_lt dt1 dt2 then (fun a b => datetime_lt b a, 1)
    else (datetime_lt, -1) in
  '(total, dtm) ← adjust_months fuel compare increment dt1 dt2 total dtm;
  let delta := datetime_sub dt1 dtm in
  let base := set_months total in
  Ok (fix_fields {| years := years base; months := months base; days := 0;
                    hours := 0; minutes := 0;
                    seconds := delta / 1000000;
                    microseconds := delta mod 1000000 |}).

(** ** argparse: what a parser is made of *)

(** The values an attribute of the parsed arguments can hold. *)
Inductive value :=
| VNone
| VBool (b : bool)
| VStr (s : str)
| VList (items : list str).

Definition truthy (v : value) : bool :=
  match v with
  | VNone => false
  | VBool b => b
  | VStr s => negb (bool_decide (s = []))
  | VList l => negb (bool_decide (l = []))
  end.

(** Iterating over a value: its items, or [TypeError]. *)
Definition iterate (v : value) : result (list str) :=
  match v with
  | VList l => Ok l
  | VStr s => Ok (map (fun c => [c]) s)
  | _ => Raise TypeError
  end.

(** A namespace: the attributes that were set, by name. *)
Definition getattr (ns : gmap string value) (name : string) : result value :=
  match ns !! name with
  | Some v => Ok v
  | None => Raise (AttributeError name)
  end.

Inductive action := append | store_true | help.

(** One [add_argument]. *)
Record argument := {
  option_strings : list str;
  act : action;
  dest : string;
  default_value : value;
  required : bool;
  help_text : str
}.

(** The [-h]/[--help] every parser gets; it sets no attribute. *)
Definition help_argument : argument :=
  {| option_strings := [py "-h"; py "--help"]; act := help; dest := "help";
     default_value := VNone; required := false;
     help_text := py "show this help message and exit" |}.

(** The two formatters of help messages that the scripts use: the default
    one, and the one that keeps the description as it is written. *)
Inductive formatter := HelpFormatter | RawDescriptionHelpFormatter.

(** A parser: how its help is formatted, its description, and its
    arguments in the order they were added. *)
Record argument_parser := {
  formatter_class : formatter;
  description : str;
  arguments : list argument
}.

Coercion arguments : argument_parser >-> list.

(** [argparse.ArgumentParser(formatter_class=f, description=d)], and
    [parser.add_argument(...)]. *)
Definition ArgumentParser (f : formatter) (d : str) : argument_parser :=
  {| formatter_class := f; description := d; arguments := [help_argument] |}.

Definition add_argument (p : argument_parser) (a : argument) : argument_parser :=
  {| formatter_class := formatter_class p; description := description p;
     arguments := arguments p ++ [a] |}.

(** ** The world outside the script, and what a run does to it *)

Record world := {
  (** [shutil.which('gh')] finds the tool *)
  gh_on_path : bool;
  (** [subprocess.check_output(args, text=True)] *)
  check_output : list str -> result str;
  (** the successive readings of [datetime.datetime.now()] *)
  clock : nat -> datetime
}.

(** What a run writes on standard output: the text of each [print], and
    the help message of a parser, which [argparse] lays out from the
    formatter, the description and the arguments of the parser (to the
    width of the terminal; the layout itself is not modelled). *)
Inductive output :=
| Line (s : str)
| HelpMessage (p : argument_parser).

Record state := {
  readings : nat;        (* how often the clock has been read *)
  stdout : list output
}.

(** A step of a run: it changes the state and ends in a result; what was
    printed before an exception stays printed. *)
Definition run (A : Type) : Type := world -> state -> state * result A.

#[global] Instance run_ret : MRet run := fun A a _ st => (st, Ok a).

#[global] Instance run_bind : MBind run := fun A B k m w st =>
  match m w st with
  | (st', Ok a) => k a w st'
  | (st', Raise e) => (st', Raise e)
  | (st', Unfinished) => (st', Unfinished)
  end.

Definition lift {A} (r : result A) : run A := fun _ st => (st, r).

Definition ask {A} (f : world -> A) : run A := fun w st => (st, Ok (f w)).

Definition print (s : str) : run unit := fun _ st =>
  ({| readings := readings st; stdout := stdout st ++ [Line s] |}, Ok tt).

Definition print_help (p : argument_parser) : run unit := fun _ st =>
  ({| readings := readings st; stdout := stdout st ++ [HelpMessage p] |}, Ok tt).

(** [datetime.datetime.now()] *)
Definition datetime_now : run datetime := fun w st =>
  ({| readings := S (readings st); stdout := stdout st |},
   Ok (clock w (readings st))).

(** [for x in xs: body(x)] *)
Fixpoint for_each {A} (xs : list A) (body : A -> run unit) : run unit :=
  match xs with
  | [] => mret tt
  | x :: xs' => body x ≫= fun _ => for_each xs' body
  end.

Definition initial : state := {| readings := 0; stdout := [] |}.

(** ** argparse: reading the command line *)

(** The command line as [argparse] reads it: a sequence of occurrences of
    options, each under the option string it was recognised as and with
    the argument it came with, if any, and of strings that are no option.
    How [sys.argv] is cut into occurrences (abbreviated long options,
    [-Rvalue], [--repo=value], clustered flags) is not modelled. *)
Inductive occurrence :=
| Option (option_string : str) (arg : option str)
| Extra (s : str).

Definition find_argument (parser : list argument) (option_string : str)
    : option argument :=
  find (fun a => bool_decide (option_string ∈ option_strings a)) parser.

(** The namespace before any option is read: every default. *)
Definition defaults (parser : list argument) : gmap string value :=
  foldr (fun a ns =>
           match act a with
           | help => ns
           | _ => <[dest a := default_value a]> ns
           end) ∅ parser.

(** [append]: copy the list under [dest], or start one, and add the item. *)
Definition append_item (v : option value) (x : str) : value :=
  match v with
  | Some (VList l) => VList (l ++ [x])
  | _ => VList [x]
  end.

(** Read the occurrences from left to right.  [seen] holds the options
    met, [extras] the strings no option took.  An option used against its
    arity ends the run with status 2, [-h] prints the help and ends it
    with status 0. *)
Fixpoint take_actions (parser : argument_parser) (line : list occurrence)
    (ns : gmap string value) (seen : list string) (extras : list str)
    : run (gmap string value * list string * list str) :=
  match line with
  | [] => mret (ns, seen, extras)
  | Extra s :: line' => take_actions parser line' ns seen (extras ++ [s])
  | Option o arg :: line' =>
      match find_argument parser o with
      | None => take_actions parser line' ns seen (extras ++ [o])
      | Some a =>
          match act a, arg with
          | append, Some x =>
              take_actions parser line'
                (<[dest a := append_item (ns !! dest a) x]> ns)
                (dest a :: seen) extras
          | store_true, None =>
              take_actions parser line' (<[dest a := VBool true]> ns)
                (dest a :: seen) extras
          | help, None =>
              print_help parser ≫= fun _ => lift (Raise (SystemExit 0))
          | _, _ => lift (Raise (SystemExit 2))
          end
      end
  end.

(** [parser.parse_args()]: a required option that was not given, or a
    string that no option took, ends the run with status 2. *)
Definition parse_args (parser : argument_parser) (line : list occurrence)
    : run (gmap string value) :=
  '(ns, seen, extras) ← take_actions parser line (defaults parser) [] [];
  if forallb (fun a => negb (required a) || bool_decide (dest a ∈ seen)) parser
     && bool_decide (extras = [])
  then mret ns
  else lift (Raise (SystemExit 2)).

End Py.

Import Py.

(* --------------------------------------------------------------------- *)
(** ** src/release-tools/contrib/get_supported_version_csi-sidecar.py      *)
(* --------------------------------------------------------------------- *)

Module ReleaseTools.

Section WithUnicode.
Context {U : Unicode}.

(** The pattern [v(\d+)\.(\d+)\.(\d+)]. *)
Definition version_pattern : pattern :=
  text "v" ++ [GroupOpen; Plus Digit; GroupClose] ++ text "."
    ++ [GroupOpen; Plus Digit; GroupClose] ++ text "."
    ++ [GroupOpen; Plus Digit; GroupClose].

(** [parse_version]: [None] when the tag does not start like [v1.2.3].
    Unpacking anything but three values raises [ValueError]. *)
Definition parse_version (version : str) : result (option (Z * Z * Z)) :=
  match re_match version_pattern version with
  | Some m =>
      ints ← map_result int (groups m);
      match ints with
      | [major; minor; patch] => Ok (Some (major, minor, patch))
      | _ => Raise ValueError
      end
  | None => Ok None
  end.

End WithUnicode.

(** A release as listed: its tag and when it was published. *)
Definition release : Type := str * datetime.

(** [end_of_life_grouped_versions], with the value [datetime.datetime.now()]
    returned as [now].  The loop appends to [supported_versions]. *)
Fixpoint eol_loop (now : datetime) (sorted_versions_list : list (Z * Z * list release))
    (supported_versions : list release) : result (list release) :=
  match sorted_versions_list with
  | [] => Ok supported_versions
  | v :: rest =>
      first_release ← last_item v.2;
      last_release ← first_item v.2;
      if datetime_sub now first_release.2 <? timedelta_days 365 then
        eol_loop now rest (supported_versions ++ [last_release])
      else if datetime_sub now last_release.2 <? timedelta_days 90 then
        eol_loop now rest (supported_versions ++ [last_release])
      else eol_loop now rest supported_versions
  end.

Definition end_of_life_grouped_versions (now : datetime)
    (versions : gmap (Z * Z) (list release)) : result (list release) :=
  let supported_versions := [] in
  let sorted_versions_list := sorted_items_desc versions in
  match sorted_versions_list with
  | [] => Raise (IndexError "pop from empty list")
  | latest :: sorted_versions_list =>
      newest ← last_item latest.2;
      let supported_versions := supported_versions ++ [newest] in
      eol_loop now sorted_versions_list supported_versions
  end.

Section WithWorld.
Context {U : Unicode} {T : TimeFormat}.

(** [check_gh_command] *)
Definition check_gh_command : run unit :=
  found ← ask gh_on_path;
  if negb found then
    print (py "Error: The `gh` command is not available in the PATH.");;
    print (py "Please install the GitHub CLI (https://cli.github.com/) and try again.");;
    lift (Raise (SystemExit 1))
  else mret tt.

(** The f-string of [duration_ago]: the number, the unit, an [s] when the
    number is more than one, and [ago]. *)
Definition ago (n : Z) (unit : string) : str :=
  str_of_int n ++ py " " ++ py unit ++ (if 1 <? n then py "s" else [])
    ++ py " ago".

(** [duration_ago], with the reading of the clock as [now]. *)
Definition duration_ago (fuel : nat) (now dt : datetime) : result str :=
  delta ← relativedelta_between fuel now dt;
  if 0 <? years delta then Ok (ago (years delta) "year")
  else if 0 <? months delta then Ok (ago (months delta) "month")
  else if 0 <? days delta then Ok (ago (days delta) "day")
  else if 0 <? hours delta then Ok (ago (hours delta) "hour")
  else if 0 <? minutes delta then Ok (ago (minutes delta) "minute")
  else Ok (py "just now").

(** The pattern: [docker pull ] and then one group, any number of
    characters out of the dot, the slash, the hyphen, the colon, [\w] and
    [\d]. *)
Definition image_pattern : pattern :=
  text "docker pull "
    ++ [GroupOpen;
        StarOf [Chr (chr "."); Chr (chr "/"); Chr (chr "-"); Chr (chr ":");
                Word; Digit];
        GroupClose].

(** [get_release_docker_image] *)
Definition get_release_docker_image (repo version : str) : run (str * str) :=
  output ← (fun w => lift (check_output w
              [py "gh"; py "release"; py "-R"; repo; py "view"; version]) w);
  let m := re_search image_pattern output in
  docker_image ← lift (match m with
                       | Some m => group m 1
                       | None => Ok []
                       end);
  mret (version, docker_image).

(** One round of the loop of [get_versions_from_releases]: [None] stands
    for [continue]. *)
Definition read_line (line : str) : result (option (Z * Z * release)) :=
  let parts := split_on (chr "009") line in
  version ← item_at parts 0;
  parsed_version ← parse_version version;
  match parsed_version with
  | None => Ok None
  | Some (major, minor, patch) =>
      field ← item_at parts 3;
      published ← strptime field "%Y-%m-%dT%H:%M:%SZ";
      Ok (Some (major, minor, (version, published)))
  end.

(** [versions[key].append(x)] on a [defaultdict] of lists. *)
Definition append_to (versions : gmap (Z * Z) (list release)) (key : Z * Z)
    (x : release) : gmap (Z * Z) (list release) :=
  <[key := default [] (versions !! key) ++ [x]]> versions.

Fixpoint group_lines (lines : list str) (versions : gmap (Z * Z) (list release))
    : result (gmap (Z * Z) (list release)) :=
  match lines with
  | [] => Ok versions
  | line :: lines' =>
      entry ← read_line line;
      match entry with
      | None => group_lines lines' versions
      | Some (major, minor, x) =>
          group_lines lines' (append_to versions (major, minor) x)
      end
  end.

(** [get_versions_from_releases] *)
Definition get_versions_from_releases (repo : str)
    : run (gmap (Z * Z) (list release)) :=
  output ← (fun w => lift (check_output w
              [py "gh"; py "release"; py "-R"; repo; py "list"]) w);
  lift (group_lines (split_on (chr "010") (strip output)) ∅).

(** The three [add_argument] calls of [main]. *)
Definition repo_argument : argument :=
  {| option_strings := [py "--repo"; py "-R"]; act := append;
     dest := "repos"; default_value := VNone; required := true;
     help_text :=
       py "The name of the repository in the format owner/repo." |}.

Definition display_argument : argument :=
  {| option_strings := [py "--display"; py "-d"]; act := store_true;
     dest := "display"; default_value := VBool true; required := false;
     help_text := py "(default) Display EOL versions with their dates" |}.

Definition doc_argument : argument :=
  {| option_strings := [py "--doc"; py "-D"]; act := store_true;
     dest := "doc"; default_value := VBool false; required := false;
     help_text :=
       py "Helper to https://kubernetes-csi.github.io/docs/ that prints Docker image for each EOL version" |}.

(** [manual], the description of the parser. *)
Definition manual : str :=
  [chr "010"]
  ++ py "    This script lists the supported versions Github releases according to https://kubernetes-csi.github.io/docs/project-policies.html#support"
  ++ [chr "010"]
  ++ py "    It has been designed to help to update the tables from : https://kubernetes-csi.github.io/docs/sidecar-containers.html"
  ++ [chr "010"; chr "010"; chr "010"]
  ++ py "    It can take multiple repos as argument, for all CSI sidecars details you can run:"
  ++ [chr "010"]
  ++ py "    ./get_supported_version_csi-sidecar.py -R kubernetes-csi/external-attacher -R kubernetes-csi/external-provisioner -R kubernetes-csi/external-resizer -R kubernetes-csi/external-snapshotter -R kubernetes-csi/livenessprobe -R kubernetes-csi/node-driver-registrar -R kubernetes-csi/external-health-monitor"
  ++ [chr "010"; chr "010"]
  ++ py "    With the output you can then update the documentation manually."
  ++ [chr "010"]
  ++ py "    ".

(** The parser of [main], as its four statements build it. *)
Definition parser : argument_parser :=
  add_argument
    (add_argument
       (add_argument (ArgumentParser RawDescriptionHelpFormatter manual) repo_argument)
       display_argument)
    doc_argument.

(** The line printed for one supported release. *)
Definition print_release (fuel : nat) (version : release) : run unit :=
  now ← datetime_now;
  age ← lift (duration_ago fuel now version.2);
  print (version.1 ++ [chr "009"] ++ strftime version.2 "%Y-%m-%d"
           ++ [chr "009"] ++ age).

Definition print_image (repo : str) (version : release) : run unit :=
  '(_, image) ← get_release_docker_image repo version.1;
  print (version.1 ++ [chr "009"] ++ image).

(** The body of [for repo in args.repos]. *)
Definition process_repo (fuel : nat) (args : gmap string value) (repo : str)
    : run unit :=
  versions ← get_versions_from_releases repo;
  now ← datetime_now;
  eol_versions ← lift (end_of_life_grouped_versions now versions);
  display ← lift (getattr args "display");
  (if truthy display then
     print (py "Supported versions with release date and age of `" ++ repo
              ++ py "`:" ++ [chr "010"]);;
     for_each eol_versions (print_release fuel)
   else mret tt);;
  doc ← lift (getattr args "doc");
  (if truthy doc then
     print ([chr "010"]
              ++ py "Supported Versions with docker images for each end of life version:"
              ++ [chr "010"]);;
     for_each eol_versions (print_image repo)
   else mret tt);;
  print [].

(** [main], run on the command line [line]. *)
Definition main (fuel : nat) (line : list occurrence) : run unit :=
  args ← parse_args parser line;
  check_gh_command;;
  repos ← lift (getattr args "repos" ≫= iterate);
  for_each repos (process_repo fuel args).

End WithWorld.

End ReleaseTools.

(* --------------------------------------------------------------------- *)
(** ** src/contrib/get_supported_version_csi-sidecar.py                    *)
(* --------------------------------------------------------------------- *)

Module Contrib.

Section WithUnicode.
Context {U : Unicode}.

(** The pattern [v(\d+)\.(\d+)\.(\d+)]. *)
Definition version_pattern : pattern :=
  text "v" ++ [GroupOpen; Plus Digit; GroupClose] ++ text "."
    ++ [GroupOpen; Plus Digit; GroupClose] ++ text "."
    ++ [GroupOpen; Plus Digit; GroupClose].

(** [parse_version]: [None] when the tag does not start like [v1.2.3].
    Unpacking anything but three values raises [ValueError]. *)
Definition parse_version (version : str) : result (option (Z * Z * Z)) :=
  match re_match version_pattern version with
  | Some m =>
      ints ← map_result int (groups m);
      match ints with
      | [major; minor; patch] => Ok (Some (major, minor, patch))
      | _ => Raise ValueError
      end
  | None => Ok None
  end.

End WithUnicode.

(** A release as listed: its tag and when it was published. *)
Definition release : Type := str * datetime.

(** [end_of_life_grouped_versions], with the value [datetime.datetime.now()]
    returned as [now].  The loop appends to [supported_versions]. *)
Fixpoint eol_loop (now : datetime) (sorted_versions_list : list (Z * Z * list release))
    (supported_versions : list release) : result (list release) :=
  match sorted_versions_list with
  | [] => Ok supported_versions
  | v :: rest =>
      first_release ← last_item v.2;
      last_release ← first_item v.2;
      if datetime_sub now first_release.2 <? timedelta_days 365 then
        eol_loop now rest (supported_versions ++ [last_release])
      else if datetime_sub now last_release.2 <? timedelta_days 90 then
        eol_loop now rest (supported_versions ++ [last_release])
      else eol_loop now rest supported_versions
  end.

Definition end_of_life_grouped_versions (now : datetime)
    (versions : gmap (Z * Z) (list release)) : result (list release) :=
  let supported_versions := [] in
  let sorted_versions_list := sorted_items_desc versions in
  match sorted_versions_list with
  | [] => Raise (IndexError "pop from empty list")
  | latest :: sorted_versions_list =>
      newest ← last_item latest.2;
      let supported_versions := supported_versions ++ [newest] in
      eol_loop now sorted_versions_list supported_versions
  end.

Section WithWorld.
Context {U : Unicode} {T : TimeFormat}.

(** [check_gh_command] *)
Definition check_gh_command : run unit :=
  found ← ask gh_on_path;
  if negb found then
    print (py "Error: The `gh` command is not available in the PATH.");;
    print (py "Please install the GitHub CLI (https://cli.github.com/) and try again.");;
    lift (Raise (SystemExit 1))
  else mret tt.

(** The f-string of [duration_ago]: the number, the unit, an [s] when the
    number is more than one, and [ago]. *)
Definition ago (n : Z) (unit : string) : str :=
  str_of_int n ++ py " " ++ py unit ++ (if 1 <? n then py "s" else [])
    ++ py " ago".

(** [duration_ago], with the reading of the clock as [now]. *)
Definition duration_ago (fuel : nat) (now dt : datetime) : result str :=
  delta ← relativedelta_between fuel now dt;
  if 0 <? years delta then Ok (ago (years delta) "year")
  else if 0 <? months delta then Ok (ago (months delta) "month")
  else if 0 <? days delta then Ok (ago (days delta) "day")
  else if 0 <? hours delta then Ok (ago (hours delta) "hour")
  else if 0 <? minutes delta then Ok (ago (minutes delta) "minute")
  else Ok (py "just now").

(** The pattern: a backquote, [docker pull ], one group of any number of
    characters other than a newline, and a backquote. *)
Definition image_pattern : pattern :=
  text "`docker pull " ++ [GroupOpen; Star AnyChar; GroupClose] ++ text "`".

(** [get_release_docker_image]: [match.group(1)] on [None] raises. *)
Definition get_release_docker_image (repo version : str) : run (str * str) :=
  output ← (fun w => lift (check_output w
              [py "gh"; py "release"; py "-R"; repo; py "view"; version]) w);
  let m := re_search image_pattern output in
  docker_image ← lift (match m with
                       | Some m => group m 1
                       | None => Raise (AttributeError "group")
                       end);
  mret (version, docker_image).

(** One round of the loop of [get_versions_from_releases]: [None] stands
    for [continue]. *)
Definition read_line (line : str) : result (option (Z * Z * release)) :=
  let parts := split_on (chr "009") line in
  version ← item_at parts 0;
  parsed_version ← parse_version version;
  match parsed_version with
  | None => Ok None
  | Some (major, minor, patch) =>
      field ← item_at parts 3;
      published ← strptime field "%Y-%m-%dT%H:%M:%SZ";
      Ok (Some (major, minor, (version, published)))
  end.

(** [versions[key].append(x)] on a [defaultdict] of lists. *)
Definition append_to (versions : gmap (Z * Z) (list release)) (key : Z * Z)
    (x : release) : gmap (Z * Z) (list release) :=
  <[key := default [] (versions !! key) ++ [x]]> versions.

Fixpoint group_lines (lines : list str) (versions : gmap (Z * Z) (list release))
    : result (gmap (Z * Z) (list release)) :=
  match lines with
  | [] => Ok versions
  | line :: lines' =>
      entry ← read_line line;
      match entry with
      | None => group_lines lines' versions
      | Some (major, minor, x) =>
          group_lines lines' (append_to versions (major, minor) x)
      end
  end.

(** [get_versions_from_releases] *)
Definition get_versions_from_releases (repo : str)
    : run (gmap (Z * Z) (list release)) :=
  output ← (fun w => lift (check_output w
              [py "gh"; py "release"; py "-R"; repo; py "list"]) w);
  lift (group_lines (split_on (chr "010") (strip output)) ∅).

(** The three [add_argument] calls of [main]. *)
Definition repo_argument : argument :=
  {| option_strings := [py "--repo"; py "-R"]; act := append;
     dest := "repos"; default_value := VNone; required := true;
     help_text :=
       py "The name of the repository in the format owner/repo. You can specify multiple -R repo to query multiple repositories e.g.:"
       ++ [chr "010"; chr "010"]
       ++ py "                                python -R kubernetes-csi/external-attacher -R kubernetes-csi/external-provisioner -R kubernetes-csi/external-resizer -R kubernetes-csi/external-snapshotter -R kubernetes-csi/livenessprobe -R kubernetes-csi/node-driver-registrar -R kubernetes-csi/external-health-monitor" |}.

Definition display_argument : argument :=
  {| option_strings := [py "--display"; py "-d"]; act := store_true;
     dest := "display"; default_value := VBool true; required := false;
     help_text := py "(default) Display EOL versions with their dates" |}.

Definition doc_argument : argument :=
  {| option_strings := [py "--doc"; py "-D"]; act := store_true;
     dest := "doc"; default_value := VBool false; required := false;
     help_text :=
       py "Helper to https://kubernetes-csi.github.io/docs/ that prints Docker image for each EOL version" |}.

(** The description of the parser. *)
Definition parser_description : str :=
  py "Get the currently supported versions for a GitHub repository.".

(** The parser of [main], as its four statements build it. *)
Definition parser : argument_parser :=
  add_argument
    (add_argument
       (add_argument (ArgumentParser HelpFormatter parser_description) repo_argument)
       display_argument)
    doc_argument.

(** The line printed for one supported release. *)
Definition print_release (fuel : nat) (version : release) : run unit :=
  now ← datetime_now;
  age ← lift (duration_ago fuel now version.2);
  print (version.1 ++ [chr "009"] ++ strftime version.2 "%Y-%m-%d"
           ++ [chr "009"] ++ age).

(** A value passed where the name of a repository is expected. *)
Definition as_str (v : value) : result str :=
  match v with
  | VStr s => Ok s
  | _ => Raise TypeError
  end.

(** The lookup reads [args.repo]. *)
Definition print_image (args : gmap string value) (version : release)
    : run unit :=
  repo ← lift (getattr args "repo" ≫= as_str);
  '(_, image) ← get_release_docker_image repo version.1;
  print (version.1 ++ [chr "009"] ++ image).

(** The body of [for repo in args.repos]. *)
Definition process_repo (fuel : nat) (args : gmap string value) (repo : str)
    : run unit :=
  versions ← get_versions_from_releases repo;
  now ← datetime_now;
  eol_versions ← lift (end_of_life_grouped_versions now versions);
  display ← lift (getattr args "display");
  (if truthy display then
     print (py "Supported versions with release date and age of `" ++ repo
              ++ py "`:" ++ [chr "010"]);;
     for_each eol_versions (print_release fuel)
   else mret tt);;
  doc ← lift (getattr args "doc");
  (if truthy doc then
     print ([chr "010"]
              ++ py "Supported Versions with docker images for each end of life version:"
              ++ [chr "010"]);;
     for_each eol_versions (print_image args)
   else mret tt);;
  print [].

(** [main], run on the command line [line]. *)
Definition main (fuel : nat) (line : list occurrence) : run unit :=
  args ← parse_args parser line;
  check_gh_command;;
  repos ← lift (getattr args "repos" ≫= iterate);
  for_each repos (process_repo fuel args).

End WithWorld.

End Contrib.

(* --------------------------------------------------------------------- *)
(** ** The vocabulary of the specification                                 *)
(* --------------------------------------------------------------------- *)

Module Spec.

Section WithUnicode.
Context {U : Unicode}.

(** The digit values of a run of decimal characters, if it is one. *)
Fixpoint digits_of (s : str) : option (list Z) :=
  match s with
  | [] => Some []
  | c :: s' =>
      match decimal_value c, digits_of s' with
      | Some d, Some ds => Some (d :: ds)
      | _, _ => None
      end
  end.

(** The integer a sequence of digits denotes, most significant first. *)
Fixpoint positional (ds : list Z) : Z :=
  match ds with
  | [] => 0
  | d :: ds' => d * 10 ^ Z.of_nat (length ds') + positional ds'
  end.

(** [<digits>]: the integer written by a non-empty run of decimal digits. *)
Definition number (s : str) : option Z :=
  match s with
  | [] => None
  | _ => positional <$> digits_of s
  end.

(** A run of digits with more digits than [int] converts. *)
Definition too_long (s : str) : bool :=
  int_max_str_digits <? Z.of_nat (length s).

(** A string of the form [v<digits>.<digits>.<digits>] followed by [rest]. *)
Definition version_tag (d1 d2 d3 rest : str) : str :=
  py "v" ++ d1 ++ py "." ++ d2 ++ py "." ++ d3 ++ rest.

Definition starts_with_digit (s : str) : bool :=
  match s with
  | c :: _ => is_decimal c
  | [] => false
  end.

End WithUnicode.

(** How long ago a release was published, and a number of days. *)
Definition age (now : datetime) (r : ReleaseTools.release) : timedelta :=
  datetime_sub now r.2.

Definition days (n : Z) : timedelta := timedelta_days n.

(** The support policy for a minor line that is not the newest one, as the
    specification words it.  [group] lists the releases of the line most
    recent first: its first entry is the newest listed release, its last
    entry the oldest.  [decision now group included]: the entries of
    [group] that the policy puts in the supported set are [included]. *)
Inductive decision (now : datetime) (group : list ReleaseTools.release)
    : list ReleaseTools.release -> Prop :=
| within_first_year newest oldest :
    head group = Some newest -> last group = Some oldest ->
    age now oldest < days 365 ->
    decision now group [newest]
| recently_patched newest oldest :
    head group = Some newest -> last group = Some oldest ->
    days 365 <= age now oldest -> age now newest < days 90 ->
    decision now group [newest]
| out_of_support newest oldest :
    head group = Some newest -> last group = Some oldest ->
    days 365 <= age now oldest -> days 90 <= age now newest ->
    decision now group [].

(** A grouped mapping as the grouper builds it: a group exists because a
    release was appended to it, so no group is empty. *)
Definition grouped (versions : gmap (Z * Z) (list ReleaseTools.release)) : Prop :=
  forall key group, versions !! key = Some group -> group <> [].

(** [main] of the copy under [src/release-tools] as the specification has
    it when the display toggle cannot be turned off: the section with the
    supported versions is printed for every repository, unconditionally. *)
Section Displaying.
Context {U : Unicode} {T : TimeFormat}.

Definition process_repo_displaying (fuel : nat) (args : gmap string value)
    (repo : str) : run unit :=
  versions ← ReleaseTools.get_versions_from_releases repo;
  now ← datetime_now;
  eol_versions ← lift (ReleaseTools.end_of_life_grouped_versions now versions);
  print (py "Supported versions with release date and age of `" ++ repo
           ++ py "`:" ++ [chr "010"]);;
  for_each eol_versions (ReleaseTools.print_release fuel);;
  doc ← lift (getattr args "doc");
  (if truthy doc then
     print ([chr "010"]
              ++ py "Supported Versions with docker images for each end of life version:"
              ++ [chr "010"]);;
     for_each eol_versions (ReleaseTools.print_image repo)
   else mret tt);;
  print [].

Definition main_displaying (fuel : nat) (line : list occurrence) : run unit :=
  args ← parse_args ReleaseTools.parser line;
  ReleaseTools.check_gh_command;;
  repos ← lift (getattr args "repos" ≫= iterate);
  for_each repos (process_repo_displaying fuel args).

End Displaying.

(** An occurrence of the doc flag on the command line. *)
Definition gives_doc (occ : occurrence) : Prop :=
  exists o arg, occ = Option o arg /\ o ∈ [py "--doc"; py "-D"].

(** An occurrence of the help option on the command line. *)
Definition gives_help (occ : occurrence) : Prop :=
  exists o arg, occ = Option o arg /\ o ∈ [py "-h"; py "--help"].

(** What an argument declares to the reader of the command line: all of
    it but the help text. *)
Definition declared (a : argument)
    : list str * action * string * value * bool :=
  (option_strings a, act a, dest a, default_value a, required a).

(** The months of the calendar from a datetime [dt] to a later one [now]:
    the months from the month of [dt] to the month of [now], less one
    while the day of the month of [dt] (or the last day of the current
    month, if that one is shorter) has not come. *)
Definition calendar_months (now dt : datetime) : Z :=
  let months := (12 * year now + month now - 1) - (12 * year dt + month dt - 1) in
  if day now <? Z.min (days_in_month (year now) (month now)) (day dt)
  then months - 1 else months.

(** What the grouper guarantees of its mapping: no group is empty, and
    every timestamp is a datetime that was parsed. *)
Definition well_grouped (versions : gmap (Z * Z) (list ReleaseTools.release))
    : Prop :=
  forall key group,
    versions !! key = Some group ->
    group <> [] /\ Forall (fun r => valid_datetime r.2) group.

(** The headings of the two sections of the report. *)
Definition display_heading (repo : str) : str :=
  py "Supported versions with release date and age of `" ++ repo
    ++ py "`:" ++ [chr "010"].

Definition doc_heading : str :=
  [chr "010"]
    ++ py "Supported Versions with docker images for each end of life version:"
    ++ [chr "010"].

End Spec.

(* --------------------------------------------------------------------- *)
(** ** Predicates on runs                                                  *)
(* --------------------------------------------------------------------- *)

(** What the options of the scripts can make of the namespace: [display]
    stays [True], [doc] is a boolean, [repos] is [None] or a list, and no
    other attribute is set. *)
Definition parsed (ns : gmap string value) : Prop :=
  ns !! "display" = Some (VBool true)
  /\ (exists b, ns !! "doc" = Some (VBool b))
  /\ (ns !! "repos" = Some VNone \/ exists l, ns !! "repos" = Some (VList l))
  /\ forall name, name <> "display" -> name <> "doc" -> name <> "repos" ->
       ns !! name = None.

(** Two runs of the option reader that end alike: the same output, and
    either the same exception or the same namespace and extras, with
    [repos] seen in both or in neither. *)
Definition same_parse
    (x y : state * result (gmap string value * list string * list str)) : Prop :=
  x.1 = y.1
  /\ match x.2, y.2 with
     | Ok (ns, seen, extras), Ok (ns', seen', extras') =>
         ns = ns' /\ extras = extras' /\ ("repos" ∈ seen <-> "repos" ∈ seen')
     | Raise e, Raise e' => e = e'
     | Unfinished, Unfinished => True
     | _, _ => False
     end.

(** A datetime moved to month [m] of year [y], its day clipped to the
    length of that month: what adding whole months to it gives. *)
Definition moved_to (dt : datetime) (y m : Z) : datetime :=
  {| year := y; month := m; day := Z.min (days_in_month y m) (day dt);
     hour := hour dt; minute := minute dt; second := second dt;
     microsecond := microsecond dt |}.

(** The days before the first day of a month, and the same for the
    month of index [i], where month [m] of year [y] has index
    [12 * y + m - 1]. *)
Definition days_before (y m : Z) : Z :=
  days_before_year y + days_before_month y m.

Definition days_before_index (i : Z) : Z :=
  days_before (i / 12) (i mod 12 + 1).

(* --------------------------------------------------------------------- *)
(** ** Concrete inputs                                                     *)
(* --------------------------------------------------------------------- *)

(** The scenario of the specification, with the times of the docstring. *)
Definition at_time (y m d H M S : Z) : datetime :=
  {| year := y; month := m; day := d; hour := H; minute := M; second := S;
     microsecond := 0 |}.

Definition v3_5_0 : ReleaseTools.release := (py "v3.5.0", at_time 2023 4 27 22 28 6).
Definition v3_4_1 : ReleaseTools.release := (py "v3.4.1", at_time 2023 4 5 17 41 15).
Definition v3_4_0 : ReleaseTools.release := (py "v3.4.0", at_time 2022 12 27 23 43 41).

Definition scenario : gmap (Z * Z) (list ReleaseTools.release) :=
  <[(3, 5) := [v3_5_0]]> (<[(3, 4) := [v3_4_1; v3_4_0]]> ∅).

Definition may_2023 : datetime := at_time 2023 5 1 0 0 0.


(** A [strptime] and a [strftime] to run the examples with: the former
    reads the zero-padded form [YYYY-MM-DDTHH:MM:SSZ], the latter writes
    [YYYY-MM-DD]; neither looks at the format it is given. *)
Definition valid_datetime_b (dt : datetime) : bool :=
  (1 <=? year dt) && (year dt <=? 9999) && (1 <=? month dt) && (month dt <=? 12)
  && (1 <=? day dt) && (day dt <=? days_in_month (year dt) (month dt))
  && (0 <=? hour dt) && (hour dt <? 24) && (0 <=? minute dt) && (minute dt <? 60)
  && (0 <=? second dt) && (second dt <? 60)
  && (0 <=? microsecond dt) && (microsecond dt <? 1000000).

Definition iso_pattern : pattern :=
  [GroupOpen; One Digit; One Digit; One Digit; One Digit; GroupClose] ++ text "-"
  ++ [GroupOpen; One Digit; One Digit; GroupClose] ++ text "-"
  ++ [GroupOpen; One Digit; One Digit; GroupClose] ++ text "T"
  ++ [GroupOpen; One Digit; One Digit; GroupClose] ++ text ":"
  ++ [GroupOpen; One Digit; One Digit; GroupClose] ++ text ":"
  ++ [GroupOpen; One Digit; One Digit; GroupClose] ++ text "Z".

Definition iso_strptime (s : str) (format : string) : result datetime :=
  match @re_match ascii_only iso_pattern s with
  | Some m =>
      if (m_end m =? length s)%nat then
        ints ← map_result (@int ascii_only) (groups m);
        match ints with
        | [y; mo; d; h; mi; s] =>
            let dt := {| year := y; month := mo; day := d; hour := h;
                         minute := mi; second := s; microsecond := 0 |} in
            if valid_datetime_b dt then Ok dt else Raise ValueError
        | _ => Raise ValueError
        end
      else Raise ValueError
  | None => Raise ValueError
  end.

Definition padded (width : nat) (n : Z) : str :=
  let digits := str_of_int n in
  replicate (width - length digits) (chr "0") ++ digits.

Definition iso_strftime (dt : datetime) (format : string) : str :=
  padded 4 (year dt) ++ py "-" ++ padded 2 (month dt) ++ py "-"
    ++ padded 2 (day dt).

Definition iso_time_format : TimeFormat.
Proof.
  refine {| strptime := iso_strptime; strftime := iso_strftime |}.
  intros s format dt. unfold iso_strptime.
  destruct (re_match iso_pattern s) as [m|]; [|discriminate].
  destruct (m_end m =? length s)%nat; [|discriminate].
  destruct (map_result int (groups m)) as [ints| |]; try discriminate.
  cbn [mbind result_bind].
  destruct ints as [|y [|mo [|d [|h [|mi [|se [|]]]]]]]; try discriminate.
  destruct (valid_datetime_b _) eqn:Hv; [|discriminate].
  intros [= <-]. revert Hv. unfold valid_datetime_b, valid_datetime. lia.
Defined.

(** A world with [gh] installed, one repository with the releases of the
    scenario and a release page that names an image, and a clock that
    stands at the first of May 2023. *)
Definition tab : str := [chr "009"].
Definition newline : str := [chr "010"].

Definition listing : str :=
  py "v3.5.0" ++ tab ++ py "Latest" ++ tab ++ py "v3.5.0" ++ tab
    ++ py "2023-04-27T22:28:06Z" ++ newline
  ++ py "v3.4.1" ++ tab ++ tab ++ py "v3.4.1" ++ tab
    ++ py "2023-04-05T17:41:15Z" ++ newline
  ++ py "v3.4.0" ++ tab ++ tab ++ py "v3.4.0" ++ tab
    ++ py "2022-12-27T23:43:41Z" ++ newline.

Definition release_page : str :=
  py "## Container" ++ newline
  ++ py "`docker pull registry.k8s.io/sig-storage/csi-attacher:v4.3.0 # or later`"
  ++ newline.

Definition attacher : str := py "kubernetes-csi/external-attacher".

Definition gh_answers (args : list str) : result str :=
  if bool_decide (args = [py "gh"; py "release"; py "-R"; attacher; py "list"])
  then Ok listing
  else if bool_decide (take 5 args = [py "gh"; py "release"; py "-R"; attacher; py "view"])
  then Ok release_page
  else Raise CalledProcessError.

Definition sample_world : world :=
  {| gh_on_path := true; check_output := gh_answers;
     clock := fun _ => may_2023 |}.

(** A release page that names no image. *)
Definition silent_world : world :=
  {| gh_on_path := true; check_output := fun _ => Ok (py "Bug fixes only.");
     clock := fun _ => may_2023 |}.

(** A repository whose only listed tag is no version: the line is dropped
    and no group is made. *)
Definition unparsed_listing : str :=
  py "not-a-version" ++ tab ++ py "a" ++ tab ++ py "b" ++ tab
    ++ py "2020-01-01T00:00:00Z" ++ newline.

Definition unparsed_world : world :=
  {| gh_on_path := true; check_output := fun _ => Ok unparsed_listing;
     clock := fun _ => may_2023 |}.

(** A tag whose major number has one digit more than [int] converts. *)
Definition long_run : str :=
  replicate (Z.to_nat (int_max_str_digits + 1)) (chr "1").

Definition long_tag : str := py "v" ++ long_run ++ py ".0.0".

(** A command line that names the repository and gives the doc flag, and
    the namespace it is parsed to. *)
Definition doc_line : list occurrence :=
  [Option (py "-R") (Some attacher); Option (py "-D") None].

Definition doc_args : gmap string value :=
  <["doc" := VBool true]>
    (<["repos" := VList [attacher]]> (defaults Contrib.parser)).

(* --------------------------------------------------------------------- *)
(** ** Vocabulary of the further properties                                *)
(* --------------------------------------------------------------------- *)

(** The releases that a sequence of lines, each read by [read_line], files
    under [key], in the order of the lines; a skipped line files nothing. *)
Definition filed_under (key : Z * Z)
    (entries : list (option (Z * Z * ReleaseTools.release)))
    : list ReleaseTools.release :=
  omap (fun entry =>
          match entry with
          | Some (major, minor, x) =>
              if bool_decide ((major, minor) = key) then Some x else None
          | None => None
          end) entries.

(** The first and the last entry of a list: all that the evaluator reads
    of a group. *)
Definition ends {A} (group : list A) : list A :=
  match group with
  | [] => []
  | x :: rest => x :: option_list (last rest)
  end.

(** A datetime moved by [n] months, its day clipped to the month reached. *)
Definition moved_by (dt : datetime) (n : Z) : datetime :=
  let i := 12 * year dt + month dt - 1 + n in
  moved_to dt (i / 12) (i mod 12 + 1).

(** The whole months from [dt] to a later [now]: the months from the month
    of the one to the month of the other, less one while [dt], moved to the
    month of [now], is still to come. *)
Definition months_elapsed (now dt : datetime) : Z :=
  let months := (year now - year dt) * 12 + (month now - month dt) in
  if datetime_lt now (moved_to dt (year now) (month now))
  then months - 1 else months.

(** The units that [duration_ago] writes. *)
Definition duration_units : list string :=
  ["year"; "month"; "day"; "hour"; "minute"]%string.

(** The characters that the image pattern of [src/release-tools] takes:
    the dot, the slash, the hyphen, the colon, [\w] and [\d]. *)
Definition image_chars : list atom :=
  [Chr (chr "."); Chr (chr "/"); Chr (chr "-"); Chr (chr ":"); Word; Digit].

(** A string that does not go on with a character that [ok] takes. *)
Definition stops {A} (ok : A -> bool) (s : list A) : Prop :=
  match s with
  | c :: _ => ok c = false
  | [] => True
  end.

(** [needle] does not occur in [subject] at an index below [n]. *)
Definition absent_before (needle subject : str) (n : nat) : Prop :=
  forall i, (i < n)%nat -> ~ (needle `prefix_of` drop i subject).

(** The characters of [s] up to its first newline. *)
Fixpoint first_line (s : str) : str :=
  match s with
  | [] => []
  | c :: s => if (c =? 10)%N then [] else c :: first_line s
  end.

(** No [opening] that stands in [subject] at an index below [n] has a
    backquote after it on its line. *)
Definition unclosed_before (opening subject : str) (n : nat) : Prop :=
  forall i rest, (i < n)%nat -> drop i subject = opening ++ rest ->
    chr "`" ∉ first_line rest.

(** The repository that an occurrence of the repo option names, and
    whether an occurrence is the doc flag. *)
Definition repo_of (occ : occurrence) : option str :=
  match occ with
  | Option o (Some r) =>
      if bool_decide (o ∈ [py "--repo"; py "-R"]) then Some r else None
  | _ => None
  end.

Definition is_doc_flag (occ : occurrence) : bool :=
  match occ with
  | Option o None => bool_decide (o ∈ [py "--doc"; py "-D"])
  | _ => false
  end.

(** An occurrence that uses an option of the scripts as it is declared:
    the repo option with a value, the two flags without one. *)
Definition well_used (occ : occurrence) : Prop :=
  match occ with
  | Option o (Some _) => o ∈ [py "--repo"; py "-R"]
  | Option o None => o ∈ [py "--display"; py "-d"; py "--doc"; py "-D"]
  | Extra _ => False
  end.

(** The items of a value that is a list. *)
Definition listed (v : option value) : list str :=
  match v with
  | Some (VList l) => l
  | _ => []
  end.

(** The two lines that [check_gh_command] prints when [gh] is missing. *)
Definition gh_missing_message : list output :=
  [Line (py "Error: The `gh` command is not available in the PATH.");
   Line (py "Please install the GitHub CLI (https://cli.github.com/) and try again.")].

(* --------------------------------------------------------------------- *)
(** ** Further concrete inputs                                             *)
(* --------------------------------------------------------------------- *)

(** The lines of the listing of the sample world, as the grouper splits
    them, and what [read_line] makes of each. *)
Definition listing_lines : list str :=
  split_on (chr "010") (@strip ascii_only listing).

Definition listing_entries : list (option (Z * Z * ReleaseTools.release)) :=
  [Some (3, 5, v3_5_0); Some (3, 4, v3_4_1); Some (3, 4, v3_4_0)].

(** A listing that is blank, and a world that answers with it. *)
Definition blank_listing : str := newline ++ py "  " ++ newline.

Definition blank_world : world :=
  {| gh_on_path := true; check_output := fun _ => Ok blank_listing;
     clock := fun _ => may_2023 |}.

(** Moments around the first of May 2023: a year after it, four months
    and some days before it, twenty minutes before it, a day after it. *)
Definition may_2024 : datetime := at_time 2024 5 1 0 0 0.
Definition december_2022 : datetime := at_time 2022 12 27 23 43 41.
Definition twenty_minutes_before : datetime := at_time 2023 4 30 23 40 0.
Definition day_after : datetime := at_time 2023 5 2 0 0 0.

(** The release page of the sample world, cut at its image. *)
Definition page_head : str := py "## Container" ++ newline.

Definition page_image : str :=
  py "registry.k8s.io/sig-storage/csi-attacher:v4.3.0".

Definition page_comment : str := py " # or later".

(** A world without [gh], and one whose [gh] fails. *)
Definition bare_world : world :=
  {| gh_on_path := false; check_output := gh_answers; clock := fun _ => may_2023 |}.

Definition failing_world : world :=
  {| gh_on_path := true; check_output := fun _ => Raise CalledProcessError;
     clock := fun _ => may_2023 |}.

(** A command line that names the repository, and the namespace it is
    parsed to. *)
Definition repo_line : list occurrence := [Option (py "-R") (Some attacher)].

Definition repo_args : gmap string value :=
  <["repos" := VList [attacher]]> (defaults ReleaseTools.parser).

(* --------------------------------------------------------------------- *)
(** ** Tactics                                                             *)
(* --------------------------------------------------------------------- *)

(** The cases of an occurrence of an option, by the lemma [cases] on what
    the parser finds for its option string: the argument it names, and
    whether it came with a value. *)
Ltac option_cases cases o arg :=
  destruct (cases o) as [H|[H|[[H ?]|[[H ?]|H]]]];
  rewrite H; destruct arg as [x|]; cbn [act dest help_argument
    ReleaseTools.repo_argument ReleaseTools.display_argument
    ReleaseTools.doc_argument].

(** Sums of two numerals, as the tables of the calendar need them. *)
Ltac add_numerals :=
  repeat match goal with
         | |- context [Zpos ?a + Zpos ?b] =>
             let v := eval vm_compute in (Zpos a + Zpos b) in
             change (Zpos a + Zpos b) with v
         | |- context [0 + Zpos ?b] => change (0 + Zpos b) with (Zpos b)
         end.

(* ===================================================================== *)
(** * Part II. Properties                                                  *)
(* ===================================================================== *)

Example parse_version_v1_2_3 :
  @ReleaseTools.parse_version ascii_only (py "v1.2.34-rc1") = Ok (Some (1, 2, 34)).
Proof. vm_compute. reflexivity. Qed.

(** ** The runtime model *)

Section PyFacts.
Context {U : Unicode}.

Lemma slice_middle (pre mid post : str) :
  slice (pre ++ mid ++ post) (length pre) (length pre + length mid) = mid.
Proof.
  unfold slice. rewrite drop_app_length.
  replace (length pre + length mid - length pre)%nat with (length mid) by lia.
  apply take_app_length.
Qed.

Lemma digits_of_Forall (s : str) :
  is_Some (Spec.digits_of s) <-> Forall (fun c => is_decimal c = true) s.
Proof.
  induction s as [|c s IH]; simpl.
  - split; [constructor | eauto].
  - unfold is_decimal. rewrite Forall_cons, <- IH.
    destruct (decimal_value c), (Spec.digits_of s); split.
    all: try (intros [? [=]]); try (intros [[=] ?]); try (intros [? [? [=]]]).
    all: eauto.
Qed.

Lemma digits_of_length (s : str) (ds : list Z) :
  Spec.digits_of s = Some ds -> length ds = length s.
Proof.
  revert ds. induction s as [|c s IH]; simpl; intros ds H.
  - now inversion H.
  - destruct (decimal_value c), (Spec.digits_of s); inversion H; subst.
    simpl. f_equal. now apply IH.
Qed.

Lemma int_digits_positional (s : str) (ds : list Z) (acc : Z) :
  Spec.digits_of s = Some ds ->
  int_digits acc s = Ok (acc * 10 ^ Z.of_nat (length s) + Spec.positional ds).
Proof.
  revert ds acc. induction s as [|c s IH]; simpl; intros ds acc H.
  - inversion H; subst. simpl. f_equal. lia.
  - destruct (decimal_value c) as [d|] eqn:Hd; [|discriminate].
    destruct (Spec.digits_of s) as [ds'|] eqn:Hs; [|discriminate].
    inversion H; subst. rewrite (IH ds' _ eq_refl). f_equal. simpl Spec.positional.
    rewrite (digits_of_length _ _ Hs).
    rewrite Nat2Z.inj_succ, Z.pow_succ_r by lia. ring.
Qed.

Lemma int_number (s : str) (n : Z) :
  Spec.number s = Some n ->
  int s = if Spec.too_long s then Raise ValueError else Ok n.
Proof.
  unfold Spec.number, int, Spec.too_long. destruct s as [|c s]; [discriminate|].
  destruct (Spec.digits_of (c :: s)) as [ds|] eqn:H; [|discriminate].
  intros [= <-]. destruct (_ <? _); [done|].
  rewrite (int_digits_positional _ _ _ H). f_equal; lia.
Qed.

Lemma number_Some (s : str) :
  s <> [] -> Forall (fun c => is_decimal c = true) s -> is_Some (Spec.number s).
Proof.
  intros Hne Hall. apply digits_of_Forall in Hall as [ds Hds].
  unfold Spec.number. destruct s; [done|]. rewrite Hds. eauto.
Qed.

Lemma number_inv (s : str) (n : Z) :
  Spec.number s = Some n -> s <> [] /\ Forall (fun c => is_decimal c = true) s.
Proof.
  unfold Spec.number. destruct s as [|c s]; [discriminate|]. intros H.
  split; [done|]. apply digits_of_Forall.
  destruct (Spec.digits_of (c :: s)); [eauto | discriminate].
Qed.

(** A greedy repetition whose run ends where the next character is not
    taken stops exactly there when the rest of the pattern matches. *)
Lemma greedy_run {R} (ok : char -> bool) (k : nat -> str -> option R)
    (run rest : str) (pos : nat) (r : R) :
  Forall (fun c => ok c = true) run ->
  k (pos + length run)%nat rest = Some r ->
  match rest with c :: _ => ok c = false | [] => True end ->
  greedy ok k pos (run ++ rest) = Some r.
Proof.
  revert pos. induction run as [|c run IH]; simpl; intros pos Hall Hk Hstop.
  - rewrite Nat.add_0_r in Hk.
    destruct rest as [|c rest]; simpl; [done|]. now rewrite Hstop.
  - inversion Hall as [|? ? Hc Hrun]; subst. rewrite Hc.
    rewrite (IH (S pos)); auto.
    now rewrite <- Hk, Nat.add_succ_r.
Qed.

(** Whatever a greedy repetition ends in, it took a run of characters it
    accepts and the rest of the pattern matched after it. *)
Lemma greedy_inv {R} (ok : char -> bool) (k : nat -> str -> option R)
    (s : str) (pos : nat) (r : R) :
  greedy ok k pos s = Some r ->
  exists run rest, s = run ++ rest /\ Forall (fun c => ok c = true) run
    /\ k (pos + length run)%nat rest = Some r.
Proof.
  revert pos. induction s as [|c s IH]; simpl; intros pos H.
  - exists [], []. rewrite Nat.add_0_r. auto.
  - destruct (ok c) eqn:Hc.
    + destruct (greedy ok k (S pos) s) as [r'|] eqn:Hg.
      * inversion H; subst. destruct (IH _ Hg) as (run & rest & -> & Hall & Hk).
        exists (c :: run), rest. simpl. rewrite Nat.add_succ_r. auto.
      * exists [], (c :: s). rewrite Nat.add_0_r. auto.
    + exists [], (c :: s). rewrite Nat.add_0_r. auto.
Qed.


Lemma match_One_inv (c : char) (p : pattern) (pos : nat) (s : str)
    (opens : list nat) (spans : list (nat * nat)) r :
  match_here (One (Chr c) :: p) pos s opens spans = Some r ->
  exists s', s = c :: s' /\ match_here p (S pos) s' opens spans = Some r.
Proof.
  destruct s as [|c' s']; simpl; [done|].
  destruct (N.eqb_spec c' c); [subst; eauto | done].
Qed.

Lemma match_One_fwd (c : char) (p : pattern) (pos : nat) (s : str)
    (opens : list nat) (spans : list (nat * nat)) :
  match_here (One (Chr c) :: p) pos (c :: s) opens spans
  = match_here p (S pos) s opens spans.
Proof. simpl. now rewrite N.eqb_refl. Qed.

Lemma match_Plus_inv (a : atom) (p : pattern) (pos : nat) (s : str)
    (opens : list nat) (spans : list (nat * nat)) r :
  match_here (Plus a :: p) pos s opens spans = Some r ->
  exists run rest, s = run ++ rest /\ run <> []
    /\ Forall (fun c => accepts a c = true) run
    /\ match_here p (pos + length run) rest opens spans = Some r.
Proof.
  destruct s as [|c s']; simpl; [done|].
  destruct (accepts a c) eqn:Hc; [|done]. intros H.
  apply greedy_inv in H as (run & rest & -> & Hall & Hk).
  exists (c :: run), rest. simpl. rewrite Nat.add_succ_r. auto.
Qed.

Lemma match_Plus_fwd (a : atom) (p : pattern) (pos : nat) (run rest : str)
    (opens : list nat) (spans : list (nat * nat)) r :
  run <> [] ->
  Forall (fun c => accepts a c = true) run ->
  match rest with c :: _ => accepts a c = false | [] => True end ->
  match_here p (pos + length run) rest opens spans = Some r ->
  match_here (Plus a :: p) pos (run ++ rest) opens spans = Some r.
Proof.
  destruct run as [|c run]; [done|]. intros _ Hall Hstop Hk.
  inversion Hall as [|? ? Hc Hrun]; subst. simpl. rewrite Hc.
  apply greedy_run; auto. now rewrite <- Hk; simpl; rewrite Nat.add_succ_r.
Qed.

Lemma match_GroupOpen (p : pattern) (pos : nat) (s : str)
    (opens : list nat) (spans : list (nat * nat)) :
  match_here (GroupOpen :: p) pos s opens spans
  = match_here p pos s (pos :: opens) spans.
Proof. reflexivity. Qed.

Lemma match_GroupClose (p : pattern) (pos start : nat) (s : str)
    (opens : list nat) (spans : list (nat * nat)) :
  match_here (GroupClose :: p) pos s (start :: opens) spans
  = match_here p pos s opens (spans ++ [(start, pos)]).
Proof. reflexivity. Qed.

Lemma version_pattern_items :
  ReleaseTools.version_pattern
  = [One (Chr 118); GroupOpen; Plus Digit; GroupClose;
     One (Chr 46); GroupOpen; Plus Digit; GroupClose;
     One (Chr 46); GroupOpen; Plus Digit; GroupClose].
Proof. reflexivity. Qed.

Lemma version_tag_items (d1 d2 d3 rest : str) :
  Spec.version_tag d1 d2 d3 rest
  = 118%N :: d1 ++ 46%N :: d2 ++ 46%N :: d3 ++ rest.
Proof. reflexivity. Qed.

Lemma version_match_inv (version : str) (e : nat) (spans : list (nat * nat)) :
  match_here ReleaseTools.version_pattern 0 version [] [] = Some (e, spans) ->
  exists d1 d2 d3 rest,
    version = Spec.version_tag d1 d2 d3 rest
    /\ (d1 <> [] /\ d2 <> [] /\ d3 <> [])
    /\ Forall (fun c => is_decimal c = true) (d1 ++ d2 ++ d3)
    /\ spans = [(1, 1 + length d1); (2 + length d1, 2 + length d1 + length d2);
                (3 + length d1 + length d2,
                 3 + length d1 + length d2 + length d3)]%nat.
Proof.
  rewrite version_pattern_items. intros H.
  apply match_One_inv in H as (s1 & -> & H). rewrite match_GroupOpen in H.
  apply match_Plus_inv in H as (d1 & s2 & -> & Hd1 & Hall1 & H).
  rewrite match_GroupClose in H.
  apply match_One_inv in H as (s3 & -> & H). rewrite match_GroupOpen in H.
  apply match_Plus_inv in H as (d2 & s4 & -> & Hd2 & Hall2 & H).
  rewrite match_GroupClose in H.
  apply match_One_inv in H as (s5 & -> & H). rewrite match_GroupOpen in H.
  apply match_Plus_inv in H as (d3 & rest & -> & Hd3 & Hall3 & H).
  rewrite match_GroupClose in H. simpl in H.
  inversion H; subst. exists d1, d2, d3, rest. rewrite version_tag_items.
  split; [done|]. split; [done|]. split.
  - rewrite !Forall_app. auto.
  - simpl. repeat f_equal; lia.
Qed.

Lemma version_match_fwd (d1 d2 d3 rest : str) :
  d1 <> [] -> d2 <> [] -> d3 <> [] ->
  Forall (fun c => is_decimal c = true) (d1 ++ d2 ++ d3) ->
  Spec.starts_with_digit rest = false ->
  match_here ReleaseTools.version_pattern 0 (Spec.version_tag d1 d2 d3 rest) [] []
  = Some ((3 + length d1 + length d2 + length d3)%nat,
          [(1, 1 + length d1); (2 + length d1, 2 + length d1 + length d2);
           (3 + length d1 + length d2,
            3 + length d1 + length d2 + length d3)]%nat).
Proof.
  intros Hd1 Hd2 Hd3 Hall Hrest. rewrite !Forall_app in Hall.
  destruct Hall as (Hall1 & Hall2 & Hall3).
  rewrite version_pattern_items, version_tag_items.
  rewrite match_One_fwd, match_GroupOpen.
  apply match_Plus_fwd; auto. rewrite match_GroupClose, match_One_fwd, match_GroupOpen.
  apply match_Plus_fwd; auto. rewrite match_GroupClose, match_One_fwd, match_GroupOpen.
  apply match_Plus_fwd; auto.
  destruct rest; [done | exact Hrest].
Qed.

Lemma version_groups (d1 d2 d3 rest : str) :
  map (fun '(i, j) => slice (Spec.version_tag d1 d2 d3 rest) i j)
    [(1, 1 + length d1); (2 + length d1, 2 + length d1 + length d2);
     (3 + length d1 + length d2, 3 + length d1 + length d2 + length d3)]%nat
  = [d1; d2; d3].
Proof.
  rewrite version_tag_items. cbn [map]. f_equal; [|f_equal; [|f_equal]].
  - apply (slice_middle [118%N] d1).
  - replace (118%N :: d1 ++ 46%N :: d2 ++ 46%N :: d3 ++ rest)
      with ((118%N :: d1 ++ [46%N]) ++ d2 ++ 46%N :: d3 ++ rest)
      by (simpl; now rewrite <- app_assoc).
    replace (2 + length d1)%nat with (length (118%N :: d1 ++ [46%N]))
      by (simpl; rewrite length_app; simpl; lia).
    apply slice_middle.
  - replace (118%N :: d1 ++ 46%N :: d2 ++ 46%N :: d3 ++ rest)
      with ((118%N :: d1 ++ 46%N :: d2 ++ [46%N]) ++ d3 ++ rest)
      by (simpl; now rewrite <- !app_assoc, <- !app_comm_cons, <- app_assoc).
    replace (3 + length d1 + length d2)%nat
      with (length (118%N :: d1 ++ 46%N :: d2 ++ [46%N]))
      by (simpl; rewrite !length_app; simpl; rewrite length_app; simpl; lia).
    apply slice_middle.
Qed.

Lemma parse_version_tag (d1 d2 d3 rest : str) (n1 n2 n3 : Z) (e : nat) :
  Spec.number d1 = Some n1 -> Spec.number d2 = Some n2 ->
  Spec.number d3 = Some n3 ->
  match_here ReleaseTools.version_pattern 0 (Spec.version_tag d1 d2 d3 rest) [] []
  = Some (e, [(1, 1 + length d1); (2 + length d1, 2 + length d1 + length d2);
              (3 + length d1 + length d2,
               3 + length d1 + length d2 + length d3)]%nat) ->
  ReleaseTools.parse_version (Spec.version_tag d1 d2 d3 rest)
  = if Spec.too_long d1 || Spec.too_long d2 || Spec.too_long d3
    then Raise ValueError else Ok (Some (n1, n2, n3)).
Proof.
  intros H1 H2 H3 Hm.
  unfold ReleaseTools.parse_version, re_match, match_at. rewrite drop_0, Hm.
  unfold groups. cbn [m_string m_spans]. rewrite version_groups.
  cbn [map_result]. rewrite (int_number _ _ H1), (int_number _ _ H2), (int_number _ _ H3).
  now destruct (Spec.too_long d1), (Spec.too_long d2), (Spec.too_long d3).
Qed.

Lemma parse_version_matched (version : str) (r : nat * list (nat * nat)) :
  match_here ReleaseTools.version_pattern 0 version [] [] = Some r ->
  exists d1 d2 d3 rest n1 n2 n3,
    version = Spec.version_tag d1 d2 d3 rest
    /\ Spec.number d1 = Some n1 /\ Spec.number d2 = Some n2
    /\ Spec.number d3 = Some n3
    /\ ReleaseTools.parse_version version
       = if Spec.too_long d1 || Spec.too_long d2 || Spec.too_long d3
         then Raise ValueError else Ok (Some (n1, n2, n3)).
Proof.
  destruct r as [e spans]. intros H.
  destruct (version_match_inv _ _ _ H) as (d1 & d2 & d3 & rest & -> & (N1 & N2 & N3) & Hall & ->).
  rewrite !Forall_app in Hall. destruct Hall as (A1 & A2 & A3).
  destruct (number_Some d1 N1 A1) as [n1 H1].
  destruct (number_Some d2 N2 A2) as [n2 H2].
  destruct (number_Some d3 N3 A3) as [n3 H3].
  exists d1, d2, d3, rest, n1, n2, n3. repeat (split; [done|]).
  eapply parse_version_tag; eauto.
Qed.

(** [parse_version] returns, or raises the [ValueError] of [int]. *)
Lemma parse_version_outcomes (version : str) :
  ReleaseTools.parse_version version = Raise ValueError
  \/ exists outcome, ReleaseTools.parse_version version = Ok outcome.
Proof.
  destruct (match_here ReleaseTools.version_pattern 0 version [] []) as [r|] eqn:Hm.
  - destruct (parse_version_matched _ _ Hm)
      as (d1 & d2 & d3 & rest & n1 & n2 & n3 & _ & _ & _ & _ & ->).
    destruct (_ || _); eauto.
  - right. unfold ReleaseTools.parse_version, re_match, match_at.
    rewrite drop_0, Hm. eauto.
Qed.

End PyFacts.

(** ** C4: the version parser *)

Section VersionParser.
Context {U : Unicode}.

(** C4, as amended.  A string that starts with [v<digits>.<digits>.<digits>],
    the third run of digits taken to its end, is parsed to the triple of
    the integers the three runs write, as long as no run has more digits
    than [int] converts; with a longer run the [ValueError] of [int] goes
    up through [parse_version].  A string with no such start is parsed to
    [None], and nothing is raised on it.  No other exception is raised on
    any string. *)
Theorem parse_version_spec (version : str) :
  (forall d1 d2 d3 rest n1 n2 n3,
     version = Spec.version_tag d1 d2 d3 rest ->
     Spec.number d1 = Some n1 -> Spec.number d2 = Some n2 ->
     Spec.number d3 = Some n3 ->
     Spec.starts_with_digit rest = false ->
     ReleaseTools.parse_version version
     = if Spec.too_long d1 || Spec.too_long d2 || Spec.too_long d3
       then Raise ValueError else Ok (Some (n1, n2, n3)))
  /\ ((forall d1 d2 d3 rest,
         version = Spec.version_tag d1 d2 d3 rest ->
         Spec.number d1 = None \/ Spec.number d2 = None
         \/ Spec.number d3 = None) ->
      ReleaseTools.parse_version version = Ok None)
  /\ (ReleaseTools.parse_version version = Raise ValueError
      \/ exists outcome, ReleaseTools.parse_version version = Ok outcome).
Proof.
  split; [|split].
  - intros d1 d2 d3 rest n1 n2 n3 -> H1 H2 H3 Hrest.
    eapply parse_version_tag; eauto.
    destruct (number_inv _ _ H1), (number_inv _ _ H2), (number_inv _ _ H3).
    apply version_match_fwd; auto. rewrite !Forall_app. auto.
  - intros Hno.
    destruct (match_here ReleaseTools.version_pattern 0 version [] []) as [r|] eqn:Hm.
    + destruct (parse_version_matched _ _ Hm)
        as (d1 & d2 & d3 & rest & n1 & n2 & n3 & Hv & H1 & H2 & H3 & _).
      destruct (Hno _ _ _ _ Hv) as [H|[H|H]]; congruence.
    + unfold ReleaseTools.parse_version, re_match, match_at.
      now rewrite drop_0, Hm.
  - apply parse_version_outcomes.
Qed.

End VersionParser.


Lemma parse_version_spec_witness :
  @ReleaseTools.parse_version ascii_only (py "v3.5.0") = Ok (Some (3, 5, 0))
  /\ @ReleaseTools.parse_version ascii_only (py "not-a-version") = Ok None.
Proof.
  split.
  - apply (proj1 (@parse_version_spec ascii_only (py "v3.5.0"))
             (py "3") (py "5") (py "0") []); reflexivity.
  - apply (proj1 (proj2 (@parse_version_spec ascii_only (py "not-a-version")))).
    intros d1 d2 d3 rest H. rewrite version_tag_items in H.
    vm_compute in H. discriminate H.
Defined.

(** C4 as stated fails on a tag with a run of 4301 digits: it is of the
    form [v<digits>.<digits>.<digits>], and [parse_version] raises. *)
Lemma long_tag_raises :
  long_tag = Spec.version_tag long_run (py "0") (py "0") []
  /\ Spec.too_long long_run = true
  /\ @ReleaseTools.parse_version ascii_only long_tag = Raise ValueError.
Proof. repeat split; vm_compute; reflexivity. Qed.

(** ** Sorting the items of a dict *)

Section SortedItems.
Context {V : Type}.
Implicit Types (d : gmap (Z * Z) V) (x y : Z * Z * V).

Lemma key_ge_total : Total (@key_ge V).
Proof. intros [[a1 a2] ?] [[b1 b2] ?]. unfold key_ge, tuple_le. simpl. lia. Qed.

Lemma key_ge_trans : Transitive (@key_ge V).
Proof.
  intros [[a1 a2] ?] [[b1 b2] ?] [[c1 c2] ?]. unfold key_ge, tuple_le. simpl. lia.
Qed.

#[local] Existing Instance key_ge_total.
#[local] Existing Instance key_ge_trans.

Lemma tuple_le_antisym (a b : Z * Z) : tuple_le a b -> tuple_le b a -> a = b.
Proof. destruct a, b. unfold tuple_le. simpl. intros. f_equal; lia. Qed.

Lemma sorted_items_perm d : sorted_items_desc d ≡ₚ map_to_list d.
Proof. apply merge_sort_Permutation. Qed.

Lemma elem_of_sorted_items d k v :
  (k, v) ∈ sorted_items_desc d <-> d !! k = Some v.
Proof. rewrite sorted_items_perm. apply elem_of_map_to_list. Qed.

Lemma NoDup_sorted_keys d : NoDup (sorted_items_desc d).*1.
Proof. rewrite sorted_items_perm. apply NoDup_fst_map_to_list. Qed.

Lemma sorted_items_sorted d : StronglySorted key_ge (sorted_items_desc d).
Proof. apply StronglySorted_merge_sort; apply _. Qed.

Lemma sorted_items_nil d : sorted_items_desc d = [] <-> d = ∅.
Proof.
  split.
  - intros H. apply map_to_list_empty_iff, Permutation_nil_r.
    now rewrite <- sorted_items_perm, H.
  - intros ->. apply Permutation_nil_r. now rewrite sorted_items_perm, map_to_list_empty.
Qed.

(** The first item carries the largest key, and no other item carries it. *)
Lemma sorted_items_head d top others :
  sorted_items_desc d = top :: others ->
  d !! top.1 = Some top.2
  /\ (forall k v, d !! k = Some v -> tuple_le k top.1)
  /\ (forall k v, (k, v) ∈ others <-> d !! k = Some v /\ k <> top.1).
Proof.
  intros Hs. pose proof (sorted_items_sorted d) as Hsorted.
  pose proof (NoDup_sorted_keys d) as Hnd. rewrite Hs in Hsorted, Hnd.
  apply StronglySorted_cons in Hsorted as [Hall _].
  rewrite fmap_cons in Hnd. apply NoDup_cons in Hnd as [Hnotin _].
  assert (Hin : forall k v, d !! k = Some v <-> (k, v) = top \/ (k, v) ∈ others).
  { intros k v. rewrite <- elem_of_sorted_items, Hs, elem_of_cons. tauto. }
  split; [|split].
  - apply Hin. left. now destruct top.
  - intros k v [<-|Hk]%Hin.
    + unfold tuple_le. simpl. lia.
    + rewrite Forall_forall in Hall. apply (Hall _ Hk).
  - intros k v. rewrite Hin. split.
    + intros Hk. split; [tauto|]. intros ->. apply Hnotin.
      apply list_elem_of_fmap. exists (top.1, v). auto.
    + intros [[<-|?] Hne]; [done | done].
Qed.

End SortedItems.

(** ** The EOL policy evaluator *)

Section Evaluator.
Implicit Types (versions : gmap (Z * Z) (list ReleaseTools.release)).
Implicit Types (group included : list ReleaseTools.release).

Lemma last_item_Some {A} (l : list A) : l <> [] -> exists x, last l = Some x /\ last_item l = Ok x.
Proof.
  intros Hne. unfold last_item. destruct (last l) as [x|] eqn:Hl; [eauto|].
  apply last_None in Hl. done.
Qed.

Lemma first_item_Some {A} (l : list A) : l <> [] -> exists x, head l = Some x /\ first_item l = Ok x.
Proof. destruct l as [|x l]; [done|]. intros _. exists x. auto. Qed.

(** What the policy includes of one group is at most one entry, and an
    entry of that group. *)
Lemma decision_included now group included :
  Spec.decision now group included ->
  (length included <= 1)%nat /\ (forall r, r ∈ included -> r ∈ group).
Proof.
  assert (Hhead : forall newest, head group = Some newest -> forall r, r ∈ [newest] -> r ∈ group).
  { intros newest Hh r ->%list_elem_of_singleton. destruct group; inversion Hh; subst. left. }
  intros [newest oldest Hh _ _|newest oldest Hh _ _ _|newest oldest _ _ _ _]; simpl.
  - split; [lia | eauto].
  - split; [lia | eauto].
  - split; [lia | intros r Hr; inversion Hr].
Qed.

(** The loop adds to the supported list, group after group, what the policy
    includes of each. *)
Lemma eol_loop_decides now (items : list (Z * Z * list ReleaseTools.release)) :
  Forall (fun v => v.2 <> []) items ->
  forall supported, exists contributions,
    Forall2 (fun v included => Spec.decision now v.2 included) items contributions
    /\ ReleaseTools.eol_loop now items supported = Ok (supported ++ concat contributions).
Proof.
  induction 1 as [|v items Hv _ IH]; intros supported.
  - exists []. split; [constructor|]. simpl. now rewrite app_nil_r.
  - destruct (last_item_Some _ Hv) as (oldest & Hlast & Ho).
    destruct (first_item_Some _ Hv) as (newest & Hhead & Hn).
    cbn [ReleaseTools.eol_loop]. rewrite Ho, Hn. cbn [mbind result_bind].
    destruct (Z.ltb_spec (datetime_sub now oldest.2) (timedelta_days 365)) as [Hy|Hy].
    { destruct (IH (supported ++ [newest])) as (cs & Hcs & ->).
      exists ([newest] :: cs). split.
      - constructor; [|done]. eapply Spec.within_first_year; eauto.
      - simpl. now rewrite <- app_assoc. }
    destruct (Z.ltb_spec (datetime_sub now newest.2) (timedelta_days 90)) as [Hm|Hm].
    { destruct (IH (supported ++ [newest])) as (cs & Hcs & ->).
      exists ([newest] :: cs). split.
      - constructor; [|done]. eapply Spec.recently_patched; eauto.
      - simpl. now rewrite <- app_assoc. }
    destruct (IH supported) as (cs & Hcs & ->).
    exists ([] :: cs). split; [|done].
    constructor; [|done]. eapply Spec.out_of_support; eauto.
Qed.

Lemma grouped_items versions :
  Spec.grouped versions -> Forall (fun v => v.2 <> []) (sorted_items_desc versions).
Proof.
  intros Hg. apply Forall_forall. intros [k g] Hin.
  apply elem_of_sorted_items in Hin. simpl. eauto.
Qed.

(** The supported set: the oldest listed entry of the latest group, then
    what the policy includes of each other group, in descending order. *)
Lemma evaluator_decomposed now versions latest others :
  Spec.grouped versions ->
  sorted_items_desc versions = latest :: others ->
  exists first contributions,
    last latest.2 = Some first
    /\ Forall2 (fun v included => Spec.decision now v.2 included) others contributions
    /\ ReleaseTools.end_of_life_grouped_versions now versions
       = Ok (first :: concat contributions).
Proof.
  intros Hg Hs. pose proof (grouped_items _ Hg) as Hall. rewrite Hs in Hall.
  apply Forall_cons in Hall as [Hlatest Hothers].
  destruct (last_item_Some _ Hlatest) as (first & Hlast & Hf).
  destruct (eol_loop_decides now others Hothers [first]) as (cs & Hcs & Hloop).
  exists first, cs. split; [done|]. split; [done|].
  unfold ReleaseTools.end_of_life_grouped_versions. rewrite Hs, Hf.
  cbn [mbind result_bind]. exact Hloop.
Qed.

Lemma nonempty_items {V} (d : gmap (Z * Z) V) :
  d <> ∅ -> exists latest others, sorted_items_desc d = latest :: others.
Proof.
  intros Hne. destruct (sorted_items_desc d) as [|latest others] eqn:Hs; [|eauto].
  now apply sorted_items_nil in Hs.
Qed.

(** C1.  In a grouped mapping (with two groups or more: the statement holds
    as soon as there is one), every group but the one with the largest key
    is decided by the three-way rule of [Spec.decision], evaluated with the
    current time: the supported set is the entry of the latest group
    followed by what that rule includes of each other group. *)
Theorem evaluator_three_way_rule now versions :
  Spec.grouped versions -> versions <> ∅ ->
  exists latest others first contributions,
    sorted_items_desc versions = latest :: others
    /\ (forall key group,
          versions !! key = Some group -> key <> latest.1 -> (key, group) ∈ others)
    /\ Forall2 (fun v included => Spec.decision now v.2 included) others contributions
    /\ ReleaseTools.end_of_life_grouped_versions now versions
       = Ok (first :: concat contributions).
Proof.
  intros Hg Hne. destruct (nonempty_items _ Hne) as (latest & others & Hs).
  destruct (evaluator_decomposed now _ _ _ Hg Hs) as (first & cs & _ & Hcs & Hr).
  exists latest, others, first, cs. split; [done|]. split; [|done].
  intros key group Hk Hne'. now apply (sorted_items_head _ _ _ Hs).
Qed.

(** C2.  In a non-empty grouped mapping the supported set starts with the
    last-ordered entry of the group with the largest key, whatever the age
    of its releases, and everything after it comes from the other groups. *)
Theorem newest_group_always_included now versions :
  Spec.grouped versions -> versions <> ∅ ->
  exists key group entry others contributions,
    versions !! key = Some group
    /\ (forall k g, versions !! k = Some g -> tuple_le k key)
    /\ last group = Some entry
    /\ Forall2 (fun v included =>
                  v.1 <> key /\ versions !! v.1 = Some v.2
                  /\ forall r, r ∈ included -> r ∈ v.2) others contributions
    /\ ReleaseTools.end_of_life_grouped_versions now versions
       = Ok (entry :: concat contributions).
Proof.
  intros Hg Hne. destruct (nonempty_items _ Hne) as (latest & others & Hs).
  destruct (evaluator_decomposed now _ _ _ Hg Hs) as (first & cs & Hlast & Hcs & Hr).
  destruct (sorted_items_head _ _ _ Hs) as (Htop & Hmax & Hothers).
  exists latest.1, latest.2, first, others, cs.
  repeat (split; [done|]). split; [|done].
  assert (Hin : Forall (fun v => v.1 <> latest.1 /\ versions !! v.1 = Some v.2) others).
  { apply Forall_forall. intros [k g] Hk. apply Hothers in Hk. simpl. tauto. }
  clear -Hcs Hin. induction Hcs as [|v c others cs Hd _ IH]; [constructor|].
  apply Forall_cons in Hin as [[? ?] ?]. constructor; [|auto].
  repeat (split; [done|]). now apply (decision_included now).
Qed.

(** C3.  The supported set of a non-empty grouped mapping is made of one
    contribution per group, the groups taken once each, and a contribution
    holds at most one entry, taken from its group. *)
Theorem at_most_one_entry_per_group now versions :
  Spec.grouped versions -> versions <> ∅ ->
  exists contributions,
    sorted_items_desc versions ≡ₚ map_to_list versions
    /\ Forall2 (fun v included =>
                  (length included <= 1)%nat /\ forall r, r ∈ included -> r ∈ v.2)
         (sorted_items_desc versions) contributions
    /\ ReleaseTools.end_of_life_grouped_versions now versions
       = Ok (concat contributions).
Proof.
  intros Hg Hne. destruct (nonempty_items _ Hne) as (latest & others & Hs).
  destruct (evaluator_decomposed now _ _ _ Hg Hs) as (first & cs & Hlast & Hcs & Hr).
  exists ([first] :: cs). split; [apply sorted_items_perm|]. split; [|done].
  rewrite Hs. constructor.
  - split; [simpl; lia|]. intros r ->%list_elem_of_singleton.
    apply last_Some_elem_of, Hlast.
  - clear -Hcs. induction Hcs; constructor; auto.
    now apply (decision_included now).
Qed.

Lemma evaluator_on_empty now :
  ReleaseTools.end_of_life_grouped_versions now ∅
  = Raise (IndexError "pop from empty list").
Proof.
  unfold ReleaseTools.end_of_life_grouped_versions.
  now rewrite (proj2 (sorted_items_nil (V := list ReleaseTools.release) ∅) eq_refl).
Qed.

End Evaluator.

Example scenario_supported :
  ReleaseTools.end_of_life_grouped_versions may_2023 scenario = Ok [v3_5_0; v3_4_1].
Proof. vm_compute. reflexivity. Qed.

Lemma scenario_grouped : Spec.grouped scenario.
Proof.
  intros key group H. unfold scenario in H.
  apply lookup_insert_Some in H as [[_ <-]|[_ H]]; [done|].
  apply lookup_insert_Some in H as [[_ <-]|[_ H]]; [done|].
  now rewrite lookup_empty in H.
Defined.

Lemma scenario_nonempty : scenario <> ∅.
Proof. apply insert_non_empty. Defined.

Lemma evaluator_three_way_rule_witness :
  exists latest others first contributions,
    sorted_items_desc scenario = latest :: others
    /\ (forall key group,
          scenario !! key = Some group -> key <> latest.1 -> (key, group) ∈ others)
    /\ Forall2 (fun v included => Spec.decision may_2023 v.2 included) others contributions
    /\ ReleaseTools.end_of_life_grouped_versions may_2023 scenario
       = Ok (first :: concat contributions).
Proof.
  exact (evaluator_three_way_rule may_2023 scenario scenario_grouped scenario_nonempty).
Defined.

(** ** Running a script *)

Section Runs.
Context {U : Unicode} {T : TimeFormat}.

Lemma bind_ok {A B} (m : run A) (k : A -> run B) w st st' a :
  m w st = (st', Ok a) -> (m ≫= k) w st = k a w st'.
Proof. unfold mbind, run_bind. now intros ->. Qed.

Lemma bind_raise {A B} (m : run A) (k : A -> run B) w st st' e :
  m w st = (st', Raise e) -> (m ≫= k) w st = (st', Raise e).
Proof. unfold mbind, run_bind. now intros ->. Qed.

Lemma bind_ext {A B} (m : run A) (k k' : A -> run B) w st :
  (forall a st', k a w st' = k' a w st') -> (m ≫= k) w st = (m ≫= k') w st.
Proof.
  intros H. unfold mbind, run_bind. destruct (m w st) as [st' [a|e|]]; auto.
Qed.

Lemma for_each_ext {A} (xs : list A) (body body' : A -> run unit) w :
  (forall x st, body x w st = body' x w st) ->
  forall st, for_each xs body w st = for_each xs body' w st.
Proof.
  intros H. induction xs as [|x xs IH]; intros st; [done|].
  cbn [for_each]. unfold mbind, run_bind. rewrite H.
  destruct (body' x w st) as [st' [[]|e|]]; auto.
Qed.

End Runs.

(** ** C5: a repository without releases *)

Section NoReleases.
Context {U : Unicode} {T : TimeFormat}.

(** C5, as amended.  On the empty mapping, that of a repository without a
    release that parses, the evaluator returns no result: taking the
    newest group fails, and the [IndexError] of [pop] on an empty list is
    raised, with the message of [pop] and none of the script.  It goes up
    through [main] uncaught: the repository is given up before anything is
    printed for it. *)
Theorem no_release_raises :
  (forall now,
     ReleaseTools.end_of_life_grouped_versions now ∅
     = Raise (IndexError "pop from empty list"))
  /\ (forall fuel args repo w st output,
        check_output w [py "gh"; py "release"; py "-R"; repo; py "list"]
          = Ok output ->
        ReleaseTools.group_lines (split_on (chr "010") (strip output)) ∅ = Ok ∅ ->
        ReleaseTools.process_repo fuel args repo w st
        = ({| readings := S (readings st); stdout := stdout st |},
           Raise (IndexError "pop from empty list")))
  /\ (forall fuel line w st st1 args repo repos output,
        parse_args ReleaseTools.parser line w st = (st1, Ok args) ->
        gh_on_path w = true ->
        getattr args "repos" = Ok (VList (repo :: repos)) ->
        check_output w [py "gh"; py "release"; py "-R"; repo; py "list"]
          = Ok output ->
        ReleaseTools.group_lines (split_on (chr "010") (strip output)) ∅ = Ok ∅ ->
        ReleaseTools.main fuel line w st
        = ({| readings := S (readings st1); stdout := stdout st1 |},
           Raise (IndexError "pop from empty list"))).
Proof.
  assert (Hrepo : forall fuel args repo w st output,
    check_output w [py "gh"; py "release"; py "-R"; repo; py "list"] = Ok output ->
    ReleaseTools.group_lines (split_on (chr "010") (strip output)) ∅ = Ok ∅ ->
    ReleaseTools.process_repo fuel args repo w st
    = ({| readings := S (readings st); stdout := stdout st |},
       Raise (IndexError "pop from empty list"))).
  { intros fuel args repo w st output Hout Hgroup. unfold ReleaseTools.process_repo.
    assert (Hversions : ReleaseTools.get_versions_from_releases repo w st = (st, Ok ∅)).
    { unfold ReleaseTools.get_versions_from_releases. cbv [mbind run_bind lift].
      now rewrite Hout, Hgroup. }
    rewrite (bind_ok _ _ _ _ _ _ Hversions).
    erewrite bind_ok; [|reflexivity].
    apply bind_raise. unfold lift. now rewrite evaluator_on_empty. }
  split; [exact evaluator_on_empty|]. split; [exact Hrepo|].
  intros fuel line w st st1 args repo repos output Hparse Hgh Hrepos Hout Hgroup.
  unfold ReleaseTools.main. rewrite (bind_ok _ _ _ _ _ _ Hparse).
  assert (Hcheck : ReleaseTools.check_gh_command w st1 = (st1, Ok tt)).
  { unfold ReleaseTools.check_gh_command. cbv [mbind run_bind ask]. now rewrite Hgh. }
  rewrite (bind_ok _ _ _ _ _ _ Hcheck).
  assert (Hiter : lift (getattr args "repos" ≫= iterate) w st1
                  = (st1, Ok (repo :: repos))).
  { unfold lift. now rewrite Hrepos. }
  rewrite (bind_ok _ _ _ _ _ _ Hiter). cbn [for_each].
  apply bind_raise. now apply (Hrepo fuel args repo w st1 output).
Qed.

End NoReleases.

Lemma no_release_raises_witness :
  @ReleaseTools.main ascii_only iso_time_format 1%nat
    [Option (py "-R") (Some attacher)] unparsed_world initial
  = ({| readings := S (readings initial); stdout := stdout initial |},
     Raise (IndexError "pop from empty list")).
Proof.
  apply (proj2 (proj2 (@no_release_raises ascii_only iso_time_format)) 1%nat
           [Option (py "-R") (Some attacher)] unparsed_world initial initial
           (<["repos" := VList [attacher]]> (defaults ReleaseTools.parser))
           attacher [] unparsed_listing).
  - vm_compute. reflexivity.
  - reflexivity.
  - reflexivity.
  - reflexivity.
  - vm_compute. reflexivity.
Defined.

(** C5 as stated fails: what is raised for a repository without releases
    says neither that releases are missing nor which repository it was.
    For two repositories
    the run ends with the same [IndexError] of [pop], having printed
    nothing. *)
Lemma no_release_error_is_generic :
  @ReleaseTools.end_of_life_grouped_versions may_2023 ∅
  = Raise (IndexError "pop from empty list")
  /\ @ReleaseTools.main ascii_only iso_time_format 1%nat
       [Option (py "-R") (Some attacher)] unparsed_world initial
     = ({| readings := 1; stdout := [] |},
        Raise (IndexError "pop from empty list"))
  /\ @ReleaseTools.main ascii_only iso_time_format 1%nat
       [Option (py "-R") (Some (py "kubernetes-csi/external-resizer"))]
       unparsed_world initial
     = ({| readings := 1; stdout := [] |},
        Raise (IndexError "pop from empty list")).
Proof. repeat split; vm_compute; reflexivity. Qed.

(** ** C7, C6: looking up the image of a release *)

Section ImageLookup.
Context {U : Unicode}.

(** C7, as amended.  When the pattern of a copy has no match in the text of
    the release page, the copy under [src/contrib] raises (the attribute
    [group] of [None]), while the copy under [src/release-tools] returns
    the version with an empty image name. *)
Theorem image_lookup_without_match (w : world) (st : state)
    (repo version output : str) :
  check_output w [py "gh"; py "release"; py "-R"; repo; py "view"; version]
    = Ok output ->
  (re_search Contrib.image_pattern output = None ->
   Contrib.get_release_docker_image repo version w st
   = (st, Raise (AttributeError "group")))
  /\ (re_search ReleaseTools.image_pattern output = None ->
      ReleaseTools.get_release_docker_image repo version w st
      = (st, Ok (version, []))).
Proof.
  intros Hout. split; intros Hm.
  - unfold Contrib.get_release_docker_image, mbind, run_bind, lift.
    now rewrite Hout, Hm.
  - unfold ReleaseTools.get_release_docker_image, mbind, run_bind, lift.
    now rewrite Hout, Hm.
Qed.

End ImageLookup.

Lemma image_lookup_without_match_witness :
  @Contrib.get_release_docker_image ascii_only attacher (py "v4.3.0")
    silent_world initial = (initial, Raise (AttributeError "group"))
  /\ @ReleaseTools.get_release_docker_image ascii_only attacher (py "v4.3.0")
       silent_world initial = (initial, Ok (py "v4.3.0", [])).
Proof.
  pose proof (@image_lookup_without_match ascii_only silent_world initial
                attacher (py "v4.3.0") (py "Bug fixes only.") eq_refl) as [Hc Hr].
  split; [apply Hc | apply Hr]; vm_compute; reflexivity.
Defined.

(** The claim C7 as stated fails for the copy under [src/release-tools]:
    on a release page where its pattern has no match it returns. *)
Lemma release_tools_lookup_returns :
  @re_search ascii_only ReleaseTools.image_pattern (py "Bug fixes only.") = None
  /\ @ReleaseTools.get_release_docker_image ascii_only attacher (py "v4.3.0")
       silent_world initial = (initial, Ok (py "v4.3.0", [])).
Proof. split; vm_compute; reflexivity. Qed.

(** The claim C6 as stated fails: on the same release page the two copies
    of [get_release_docker_image] return different image names. *)
Lemma copies_differ_on_release_page :
  @Contrib.get_release_docker_image ascii_only attacher (py "v4.3.0")
    sample_world initial
  = (initial, Ok (py "v4.3.0",
                  py "registry.k8s.io/sig-storage/csi-attacher:v4.3.0 # or later"))
  /\ @ReleaseTools.get_release_docker_image ascii_only attacher (py "v4.3.0")
       sample_world initial
     = (initial, Ok (py "v4.3.0",
                     py "registry.k8s.io/sig-storage/csi-attacher:v4.3.0")).
Proof. split; vm_compute; reflexivity. Qed.

(** ** argparse on the parser of the scripts *)


Lemma parsed_defaults : parsed (defaults ReleaseTools.parser).
Proof.
  unfold parsed, defaults. cbn.
  repeat split; eauto.
  intros name H1 H2 H3. now rewrite !lookup_insert_ne, lookup_empty.
Qed.

Lemma find_argument_parser (o : str) :
  find_argument ReleaseTools.parser o
  = if bool_decide (o ∈ [py "-h"; py "--help"]) then Some help_argument
    else if bool_decide (o ∈ [py "--repo"; py "-R"]) then Some ReleaseTools.repo_argument
    else if bool_decide (o ∈ [py "--display"; py "-d"]) then Some ReleaseTools.display_argument
    else if bool_decide (o ∈ [py "--doc"; py "-D"]) then Some ReleaseTools.doc_argument
    else None.
Proof. reflexivity. Qed.

Lemma find_argument_cases (o : str) :
  find_argument ReleaseTools.parser o = Some help_argument
  \/ find_argument ReleaseTools.parser o = Some ReleaseTools.repo_argument
  \/ (find_argument ReleaseTools.parser o = Some ReleaseTools.display_argument
      /\ o ∈ [py "--display"; py "-d"])
  \/ (find_argument ReleaseTools.parser o = Some ReleaseTools.doc_argument
      /\ o ∈ [py "--doc"; py "-D"])
  \/ find_argument ReleaseTools.parser o = None.
Proof.
  rewrite find_argument_parser. repeat case_bool_decide; auto 10.
Qed.

Lemma find_display (o : str) :
  o ∈ [py "--display"; py "-d"] ->
  find_argument ReleaseTools.parser o = Some ReleaseTools.display_argument.
Proof.
  intros Ho. rewrite find_argument_parser.
  assert (Hne : forall l : list str, Forall (fun x => x ∉ l) [py "--display"; py "-d"] -> o ∉ l).
  { intros l Hl. rewrite Forall_forall in Hl. auto. }
  rewrite (bool_decide_eq_false_2 (o ∈ [py "-h"; py "--help"])).
  rewrite (bool_decide_eq_false_2 (o ∈ [py "--repo"; py "-R"])).
  now rewrite (bool_decide_eq_true_2 _ Ho).
  all: apply Hne; repeat constructor; vm_compute; intros H; 
    repeat (apply elem_of_cons in H as [H|H]; [discriminate H|]); inversion H.
Qed.


Lemma same_parse_refl x : same_parse x x.
Proof.
  split; [done|]. destruct x as [st [[[ns seen] extras]|e|]]; simpl; tauto.
Qed.

Lemma take_actions_seen (line : list occurrence) (w : world) :
  forall ns seen seen' extras st,
    ("repos" ∈ seen <-> "repos" ∈ seen') ->
    same_parse (take_actions ReleaseTools.parser line ns seen extras w st)
               (take_actions ReleaseTools.parser line ns seen' extras w st).
Proof.
  induction line as [|[o arg|s] line IH]; intros ns seen seen' extras st HR.
  - split; simpl; auto.
  - cbn [take_actions]. option_cases find_argument_cases o arg; try apply same_parse_refl; apply IH.
    all: try exact HR.
    all: rewrite !elem_of_cons; try tauto.
    all: split; intros [?|?]; try discriminate; tauto.
  - cbn [take_actions]. now apply IH.
Qed.

Lemma parsed_repos ns x :
  parsed ns -> parsed (<["repos" := append_item (ns !! "repos") x]> ns).
Proof.
  intros (Hd & [b Hdoc] & Hrepos & Hnone). repeat split.
  - now rewrite lookup_insert_ne.
  - exists b. now rewrite lookup_insert_ne.
  - right. rewrite lookup_insert_eq.
    destruct Hrepos as [->|[l ->]]; simpl; eauto.
  - intros name ? ? ?. rewrite lookup_insert_ne by done. auto.
Qed.

Lemma parsed_display ns : parsed ns -> parsed (<["display" := VBool true]> ns).
Proof. intros Hp. rewrite insert_id; [done | apply Hp]. Qed.

Lemma parsed_doc ns : parsed ns -> parsed (<["doc" := VBool true]> ns).
Proof.
  intros (Hd & [b Hdoc] & Hrepos & Hnone). repeat split.
  - now rewrite lookup_insert_ne.
  - exists true. now rewrite lookup_insert_eq.
  - now rewrite lookup_insert_ne.
  - intros name ? ? ?. rewrite lookup_insert_ne by done. auto.
Qed.

Lemma take_actions_parsed (line : list occurrence) (w : world) :
  forall ns seen extras st st' ns' seen' extras',
    parsed ns ->
    take_actions ReleaseTools.parser line ns seen extras w st
    = (st', Ok (ns', seen', extras')) ->
    parsed ns'.
Proof.
  induction line as [|[o arg|s] line IH];
    intros ns seen extras st st' ns' seen' extras' Hp.
  - intros [= <- <- <- <-]. done.
  - cbn [take_actions].
    option_cases find_argument_cases o arg; try discriminate; intros Ht;
      (eapply IH; [|exact Ht]); auto using parsed_repos, parsed_display, parsed_doc.
  - cbn [take_actions]. now apply IH.
Qed.

(** An occurrence of the display flag changes nothing the reader ends in. *)
Lemma take_actions_display (pre post : list occurrence) (o : str) (w : world) :
  o ∈ [py "--display"; py "-d"] ->
  forall ns seen seen' extras st,
    parsed ns -> ("repos" ∈ seen <-> "repos" ∈ seen') ->
    same_parse
      (take_actions ReleaseTools.parser (pre ++ Option o None :: post)
         ns seen extras w st)
      (take_actions ReleaseTools.parser (pre ++ post) ns seen' extras w st).
Proof.
  intros Ho. induction pre as [|[o' arg|s] pre IH];
    intros ns seen seen' extras st Hp HR.
  - cbn [app take_actions]. rewrite (find_display _ Ho).
    cbn [act dest ReleaseTools.display_argument].
    rewrite (insert_id ns "display") by apply Hp.
    apply take_actions_seen. rewrite elem_of_cons. split; [|tauto].
    intros [?|?]; [discriminate | tauto].
  - cbn [app take_actions].
    option_cases find_argument_cases o' arg; try apply same_parse_refl; apply IH.
    all: auto using parsed_repos, parsed_display, parsed_doc.
    all: rewrite !elem_of_cons; try tauto.
    all: split; intros [?|?]; try discriminate; tauto.
  - cbn [app take_actions]. now apply IH.
Qed.

Lemma required_given (seen : list string) :
  forallb (fun a => negb (required a) || bool_decide (dest a ∈ seen))
    ReleaseTools.parser
  = bool_decide ("repos" ∈ seen).
Proof. cbn. now rewrite andb_true_r. Qed.

Lemma parse_args_same (line line' : list occurrence) (w : world) (st : state) :
  same_parse
    (take_actions ReleaseTools.parser line (defaults ReleaseTools.parser) [] [] w st)
    (take_actions ReleaseTools.parser line' (defaults ReleaseTools.parser) [] [] w st) ->
  parse_args ReleaseTools.parser line w st
  = parse_args ReleaseTools.parser line' w st.
Proof.
  unfold parse_args, mbind, run_bind. intros [Hst Hres].
  destruct (take_actions _ line _ _ _ w st) as [st1 [[[ns seen] extras]|e|]],
    (take_actions _ line' _ _ _ w st) as [st2 [[[ns' seen'] extras']|e'|]];
    cbn [fst snd] in *; subst; try done.
  - destruct Hres as (-> & -> & HR). rewrite !required_given.
    now rewrite (bool_decide_ext _ _ HR).
Qed.

Lemma parse_args_parsed (line : list occurrence) (w : world) (st st' : state)
    (args : gmap string value) :
  parse_args ReleaseTools.parser line w st = (st', Ok args) -> parsed args.
Proof.
  unfold parse_args, mbind, run_bind.
  destruct (take_actions _ line _ _ _ w st) as [st1 [[[ns seen] extras]|e|]] eqn:Ht;
    try discriminate.
  destruct (_ && _); [|discriminate]. intros [= <- <-].
  eapply take_actions_parsed; [apply parsed_defaults | apply Ht].
Qed.



(** ** The parsers of the two copies *)

Lemma contrib_find_argument (o : str) :
  find_argument Contrib.parser o
  = if bool_decide (o ∈ [py "-h"; py "--help"]) then Some help_argument
    else if bool_decide (o ∈ [py "--repo"; py "-R"]) then Some Contrib.repo_argument
    else if bool_decide (o ∈ [py "--display"; py "-d"]) then Some Contrib.display_argument
    else if bool_decide (o ∈ [py "--doc"; py "-D"]) then Some Contrib.doc_argument
    else None.
Proof. reflexivity. Qed.

(** The two parsers read a command line alike up to the help option. *)
Lemma take_actions_copies (line : list occurrence) (w : world) :
  forall ns seen extras st,
    take_actions Contrib.parser line ns seen extras w st
    = take_actions ReleaseTools.parser line ns seen extras w st
    \/ (Exists Spec.gives_help line
        /\ exists st',
             take_actions Contrib.parser line ns seen extras w st
             = ({| readings := readings st';
                   stdout := stdout st' ++ [HelpMessage Contrib.parser] |},
                Raise (SystemExit 0))
             /\ take_actions ReleaseTools.parser line ns seen extras w st
                = ({| readings := readings st';
                      stdout := stdout st' ++ [HelpMessage ReleaseTools.parser] |},
                   Raise (SystemExit 0))).
Proof.
  induction line as [|[o arg|x] line IH]; intros ns seen extras st.
  - now left.
  - cbn [take_actions]. rewrite contrib_find_argument, find_argument_parser.
    assert (Hlater : forall ns' seen' extras',
              take_actions Contrib.parser line ns' seen' extras' w st
              = take_actions ReleaseTools.parser line ns' seen' extras' w st
              \/ (Exists Spec.gives_help (Option o arg :: line)
                  /\ exists st',
                       take_actions Contrib.parser line ns' seen' extras' w st
                       = ({| readings := readings st';
                             stdout := stdout st' ++ [HelpMessage Contrib.parser] |},
                          Raise (SystemExit 0))
                       /\ take_actions ReleaseTools.parser line ns' seen' extras' w st
                          = ({| readings := readings st';
                                stdout := stdout st' ++ [HelpMessage ReleaseTools.parser] |},
                             Raise (SystemExit 0)))).
    { intros ns' seen' extras'.
      destruct (IH ns' seen' extras' st) as [?|[? ?]]; [now left|right].
      split; [now apply Exists_cons_tl | done]. }
    case_bool_decide as Hhelp.
    { destruct arg as [x|]; cbn [act help_argument]; [now left|]. right. split.
      - apply Exists_cons_hd. exists o, None. auto.
      - exists st. split; reflexivity. }
    repeat case_bool_decide; destruct arg as [x|];
      cbn [act dest Contrib.repo_argument Contrib.display_argument
             Contrib.doc_argument ReleaseTools.repo_argument
             ReleaseTools.display_argument ReleaseTools.doc_argument];
      try (now left); apply Hlater.
  - cbn [take_actions].
    destruct (IH ns seen (extras ++ [x]) st) as [?|[? ?]]; [now left|right].
    split; [now apply Exists_cons_tl | done].
Qed.

Lemma defaults_copies : defaults Contrib.parser = defaults ReleaseTools.parser.
Proof. reflexivity. Qed.

(** A command line that one parser accepts, the other accepts alike. *)
Lemma parse_args_copies (line : list occurrence) (w : world) (st : state) :
  parse_args Contrib.parser line w st = parse_args ReleaseTools.parser line w st
  \/ Exists Spec.gives_help line
     /\ (forall st' args, parse_args Contrib.parser line w st <> (st', Ok args)).
Proof.
  unfold parse_args, mbind, run_bind.
  rewrite defaults_copies.
  destruct (take_actions_copies line w (defaults ReleaseTools.parser) [] [] st)
    as [->|(Hhelp & st' & -> & _)].
  - left. destruct (take_actions ReleaseTools.parser line _ _ _ w st)
      as [st1 [[[ns seen] extras]|e|]]; try done.
  - right. split; [done|]. intros st'' args. discriminate.
Qed.

Lemma contrib_parse_args_parsed (line : list occurrence) (w : world)
    (st st' : state) (args : gmap string value) :
  parse_args Contrib.parser line w st = (st', Ok args) -> parsed args.
Proof.
  intros Hparse. destruct (parse_args_copies line w st) as [Heq|[_ Hno]].
  - rewrite Heq in Hparse. now apply parse_args_parsed in Hparse.
  - now destruct (Hno st' args).
Qed.

(** ** C10, C6: the display toggle, and the two copies *)

Section Toggles.
Context {U : Unicode} {T : TimeFormat}.

Lemma bind_ext_ok {A B} (m : run A) (k k' : A -> run B) w st :
  (forall a st', m w st = (st', Ok a) -> k a w st' = k' a w st') ->
  (m ≫= k) w st = (m ≫= k') w st.
Proof.
  intros H. unfold mbind, run_bind. destruct (m w st) as [st' [a|e|]]; auto.
Qed.

Lemma bind_ext_run {A B} (m m' : run A) (k k' : A -> run B) w st :
  m w st = m' w st ->
  (forall a st', m' w st = (st', Ok a) -> k a w st' = k' a w st') ->
  (m ≫= k) w st = (m' ≫= k') w st.
Proof.
  intros Hm H. unfold mbind, run_bind. rewrite Hm.
  destruct (m' w st) as [st' [a|e|]]; auto.
Qed.

Lemma process_repo_displays (fuel : nat) (args : gmap string value)
    (repo : str) (w : world) (st : state) :
  parsed args ->
  ReleaseTools.process_repo fuel args repo w st
  = Spec.process_repo_displaying fuel args repo w st.
Proof.
  intros (Hd & _). unfold ReleaseTools.process_repo, Spec.process_repo_displaying.
  apply bind_ext. intros versions st1. apply bind_ext. intros now st2.
  apply bind_ext. intros eol st3.
  unfold getattr. rewrite Hd. reflexivity.
Qed.


Lemma take_actions_without_doc (line : list occurrence) (w : world) :
  Forall (fun occ => ~ Spec.gives_doc occ) line ->
  forall ns seen extras st st' ns' seen' extras',
    ns !! "doc" = Some (VBool false) ->
    take_actions ReleaseTools.parser line ns seen extras w st
    = (st', Ok (ns', seen', extras')) ->
    ns' !! "doc" = Some (VBool false).
Proof.
  induction 1 as [|occ line Hocc _ IH];
    intros ns seen extras st st' ns' seen' extras' Hdoc.
  - now intros [= <- <- <- <-].
  - destruct occ as [o arg|s]; cbn [take_actions]; [|now apply IH].
    option_cases find_argument_cases o arg; try discriminate; intros Ht;
      try (eapply IH; [|exact Ht]; try done; now rewrite lookup_insert_ne).
    destruct Hocc. exists o, None. auto.
Qed.

Lemma process_repo_without_doc (fuel : nat) (args : gmap string value)
    (repo : str) (w : world) (st : state) :
  args !! "doc" = Some (VBool false) ->
  Contrib.process_repo fuel args repo w st
  = ReleaseTools.process_repo fuel args repo w st.
Proof.
  intros Hdoc. unfold Contrib.process_repo, ReleaseTools.process_repo.
  apply bind_ext. intros versions st1. apply bind_ext. intros now st2.
  apply bind_ext. intros eol st3. apply bind_ext. intros display st4.
  apply bind_ext. intros [] st5.
  unfold getattr. rewrite Hdoc. reflexivity.
Qed.

(** C6, as amended.  The two files define the same functions, and all but
    one behave alike in both: [check_gh_command], [duration_ago],
    [parse_version], [end_of_life_grouped_versions] and
    [get_versions_from_releases] are equal, the parsers declare the same
    options, and [main] runs alike on every command line that gives
    neither the doc flag nor the help option.  ([get_release_docker_image],
    and with it [main] under the doc flag, differ; so does the help that
    [-h] prints, the message of another parser with another description.) *)
Theorem copies_agree_but_for_the_image_lookup :
  Contrib.check_gh_command = ReleaseTools.check_gh_command
  /\ Contrib.duration_ago = ReleaseTools.duration_ago
  /\ Contrib.parse_version = ReleaseTools.parse_version
  /\ Contrib.end_of_life_grouped_versions = ReleaseTools.end_of_life_grouped_versions
  /\ Contrib.get_versions_from_releases = ReleaseTools.get_versions_from_releases
  /\ Spec.declared <$> arguments Contrib.parser
     = Spec.declared <$> arguments ReleaseTools.parser
  /\ (forall fuel line w st,
        Forall (fun occ => ~ Spec.gives_doc occ /\ ~ Spec.gives_help occ) line ->
        Contrib.main fuel line w st = ReleaseTools.main fuel line w st)
  /\ (forall fuel w st,
        Contrib.main fuel [Option (py "-h") None] w st
        = ({| readings := readings st;
              stdout := stdout st ++ [HelpMessage Contrib.parser] |},
           Raise (SystemExit 0))
        /\ ReleaseTools.main fuel [Option (py "-h") None] w st
           = ({| readings := readings st;
                 stdout := stdout st ++ [HelpMessage ReleaseTools.parser] |},
              Raise (SystemExit 0)))
  /\ description Contrib.parser <> description ReleaseTools.parser.
Proof.
  repeat (split; [reflexivity|]). split; [|split; [|discriminate]].
  - intros fuel line w st Hline. unfold Contrib.main, ReleaseTools.main.
    assert (Hnohelp : ~ Exists Spec.gives_help line).
    { rewrite Exists_exists. intros (occ & Hin & Hocc).
      rewrite Forall_forall in Hline. now destruct (Hline occ Hin). }
    destruct (parse_args_copies line w st) as [Hparse|[Hhelp _]]; [|done].
    change Contrib.check_gh_command with ReleaseTools.check_gh_command.
    apply bind_ext_run; [exact Hparse|]. intros args st1 Hp.
    apply bind_ext. intros [] st2. apply bind_ext. intros repos st3.
    apply for_each_ext. intros repo st4. apply process_repo_without_doc.
    revert Hp. unfold parse_args, mbind, run_bind.
    destruct (take_actions _ line _ _ _ w st) as [st' [[[ns seen] extras]|e|]] eqn:Ht;
      try discriminate.
    destruct (_ && _); [|discriminate]. intros [= <- <-].
    eapply take_actions_without_doc; [| |exact Ht]; [|reflexivity].
    eapply Forall_impl; [exact Hline|]. now intros occ [Hdoc _].
  - intros fuel w st. split; reflexivity.
Qed.

End Toggles.


Lemma copies_agree_witness :
  @Contrib.main ascii_only iso_time_format 2 [Option (py "-R") (Some attacher)]
    sample_world initial
  = @ReleaseTools.main ascii_only iso_time_format 2
      [Option (py "-R") (Some attacher)] sample_world initial.
Proof.
  apply (proj1 (proj2 (proj2 (proj2 (proj2 (proj2 (proj2
           (@copies_agree_but_for_the_image_lookup ascii_only iso_time_format)))))))).
  constructor; [|constructor].
  split; intros (o & arg & [= <- <-] & Hin);
    apply list_elem_of_In in Hin; vm_compute in Hin;
    destruct Hin as [H|[H|[]]]; discriminate H.
Defined.

Lemma newest_group_always_included_witness :
  exists key group entry others contributions,
    scenario !! key = Some group
    /\ (forall k g, scenario !! k = Some g -> tuple_le k key)
    /\ last group = Some entry
    /\ Forall2 (fun v included =>
                  v.1 <> key /\ scenario !! v.1 = Some v.2
                  /\ forall r, r ∈ included -> r ∈ v.2) others contributions
    /\ ReleaseTools.end_of_life_grouped_versions may_2023 scenario
       = Ok (entry :: concat contributions).
Proof.
  exact (newest_group_always_included may_2023 scenario
           scenario_grouped scenario_nonempty).
Defined.

Lemma at_most_one_entry_per_group_witness :
  exists contributions,
    sorted_items_desc scenario ≡ₚ map_to_list scenario
    /\ Forall2 (fun v included =>
                  (length included <= 1)%nat /\ forall r, r ∈ included -> r ∈ v.2)
         (sorted_items_desc scenario) contributions
    /\ ReleaseTools.end_of_life_grouped_versions may_2023 scenario
       = Ok (concat contributions).
Proof.
  exact (at_most_one_entry_per_group may_2023 scenario
           scenario_grouped scenario_nonempty).
Defined.

(** ** The calendar *)

Section Calendar.

Lemma is_leap_true (y : Z) :
  is_leap y = true <-> (y mod 4 = 0 /\ (y mod 100 <> 0 \/ y mod 400 = 0)).
Proof.
  unfold is_leap.
  rewrite andb_true_iff, orb_true_iff, negb_true_iff, !Z.eqb_eq, Z.eqb_neq. tauto.
Qed.

Lemma is_leap_false (y : Z) :
  is_leap y = false <-> (y mod 4 <> 0 \/ (y mod 100 = 0 /\ y mod 400 <> 0)).
Proof.
  unfold is_leap.
  rewrite andb_false_iff, orb_false_iff, negb_false_iff, !Z.eqb_eq, !Z.eqb_neq. tauto.
Qed.

Lemma days_before_year_succ (y : Z) :
  days_before_year (y + 1)
  = days_before_year y + 365 + (if is_leap y then 1 else 0).
Proof.
  unfold days_before_year. replace (y + 1 - 1) with y by lia.
  destruct (is_leap y) eqn:H.
  - apply is_leap_true in H. Z.div_mod_to_equations. lia.
  - apply is_leap_false in H. Z.div_mod_to_equations. lia.
Qed.

(** A year is so many spans of 400, 100, 4 and 1 years after year 1, and
    the days before it add up accordingly. *)
Lemma year_decomposed (y : Z) :
  exists A c f g,
    y = 400 * A + 100 * c + 4 * f + g + 1
    /\ 0 <= c <= 3 /\ 0 <= f <= 24 /\ 0 <= g <= 3
    /\ days_before_year y = 146097 * A + 36524 * c + 1461 * f + 365 * g
    /\ is_leap y = (g =? 3) && (negb (f =? 24) || (c =? 3)).
Proof.
  exists ((y - 1) / 400), ((y - 1) mod 400 / 100), ((y - 1) mod 100 / 4), ((y - 1) mod 4).
  unfold days_before_year.
  repeat split; try (Z.div_mod_to_equations; lia).
  destruct (is_leap y) eqn:Hl.
  - apply is_leap_true in Hl. symmetry.
    rewrite andb_true_iff, orb_true_iff, negb_true_iff, !Z.eqb_eq, Z.eqb_neq.
    Z.div_mod_to_equations. lia.
  - apply is_leap_false in Hl. symmetry.
    rewrite andb_false_iff, orb_false_iff, negb_false_iff, !Z.eqb_eq, !Z.eqb_neq.
    Z.div_mod_to_equations. lia.
Qed.

(** The quotient and the remainder of a sum whose second part is less
    than the divisor. *)
Lemma div_mod_sum (q r b : Z) :
  0 <= r < b -> (b * q + r) / b = q /\ (b * q + r) mod b = r.
Proof.
  intros H. split.
  - symmetry. apply Z.div_unique with r; lia.
  - symmetry. apply Z.mod_unique with q; lia.
Qed.

Lemma ord2ymd_decomposed (A c f g k : Z) :
  0 <= c <= 3 -> 0 <= f <= 24 -> 0 <= g <= 3 ->
  0 <= k < 365 + (if (g =? 3) && (negb (f =? 24) || (c =? 3)) then 1 else 0) ->
  ord2ymd (146097 * A + 36524 * c + 1461 * f + 365 * g + k + 1)
  = let y := 400 * A + 100 * c + 4 * f + g + 1 in
    if k =? 365 then (y, 12, 31)
    else
      let '(m, d) := month_and_day ((g =? 3) && (negb (f =? 24) || (c =? 3))) k in
      (y, m, d).
Proof.
  intros Hc Hf Hg Hk. set (leap := (g =? 3) && (negb (f =? 24) || (c =? 3))) in *.
  assert (Hleap : leap = true <-> g = 3 /\ (f <> 24 \/ c = 3)).
  { unfold leap. rewrite andb_true_iff, orb_true_iff, negb_true_iff, !Z.eqb_eq, Z.eqb_neq. tauto. }
  unfold ord2ymd.
  replace (146097 * A + 36524 * c + 1461 * f + 365 * g + k + 1 - 1)
    with (146097 * A + (36524 * c + 1461 * f + 365 * g + k)) by lia.
  assert (H1 : 0 <= 36524 * c + 1461 * f + 365 * g + k < 146097).
  { destruct leap; [destruct (proj1 Hleap eq_refl)|]; lia. }
  destruct (div_mod_sum A _ 146097 H1) as [-> ->].
  destruct (Z.eqb_spec k 365) as [->|Hk365].
  - (* the last day of a leap year *)
    assert (Hl : leap = true) by (destruct leap; [done | lia]).
    destruct (proj1 Hleap Hl) as [-> Hfc].
    destruct (Z.eq_dec f 24) as [->|Hf24].
    + assert (c = 3) as -> by lia.
      change (36524 * 3 + 1461 * 24 + 365 * 3 + 365) with 146096.
      change (146096 / 36524) with 4. change (146096 mod 36524) with 0.
      change (0 / 1461) with 0. change (0 mod 1461) with 0.
      change (0 / 365) with 0. cbn [Z.eqb orb]. cbv zeta. f_equal. f_equal. lia.
    + replace (36524 * c + 1461 * f + 365 * 3 + 365)
        with (36524 * c + (1461 * f + 1460)) by lia.
      destruct (div_mod_sum c (1461 * f + 1460) 36524 ltac:(lia)) as [-> ->].
      destruct (div_mod_sum f 1460 1461 ltac:(lia)) as [-> ->].
      change (1460 / 365) with 4. cbn [Z.eqb orb]. cbv zeta. f_equal. f_equal. lia.
  - assert (H2 : 0 <= 1461 * f + 365 * g + k < 36524).
    { destruct leap; [destruct (proj1 Hleap eq_refl)|]; lia. }
    replace (36524 * c + 1461 * f + 365 * g + k)
      with (36524 * c + (1461 * f + 365 * g + k)) by lia.
    destruct (div_mod_sum c _ 36524 H2) as [-> ->].
    assert (H4 : 0 <= k < 365) by (destruct leap; lia).
    assert (H3 : 0 <= 365 * g + k < 1461) by lia.
    replace (1461 * f + 365 * g + k) with (1461 * f + (365 * g + k)) by lia.
    destruct (div_mod_sum f _ 1461 H3) as [-> ->].
    destruct (div_mod_sum g _ 365 H4) as [-> ->].
    replace ((g =? 4) || (c =? 4)) with false
      by (symmetry; apply orb_false_iff; split; apply Z.eqb_neq; lia).
    cbv zeta. fold leap. destruct (month_and_day leap k). f_equal. f_equal. lia.
Qed.

Lemma month_and_day_spec (leap : bool) (m d : Z) :
  1 <= m <= 12 ->
  1 <= d <= (if (m =? 2) && leap then 29 else DAYS_IN_MONTH m) ->
  month_and_day leap
    (DAYS_BEFORE_MONTH m + (if (2 <? m) && leap then 1 else 0) + d - 1)
  = (m, d).
Proof.
  intros Hm Hd. unfold month_and_day. rewrite Z.shiftr_div_pow2 by lia.
  change (2 ^ 5) with 32.
  assert (Hcases : m = 1 \/ m = 2 \/ m = 3 \/ m = 4 \/ m = 5 \/ m = 6 \/ m = 7
                   \/ m = 8 \/ m = 9 \/ m = 10 \/ m = 11 \/ m = 12) by lia.
  destruct leap; repeat (destruct Hcases as [->|Hcases]); try subst m;
    cbn in Hd |- *;
    match goal with
    | |- context [?x / 32] =>
        match goal with
        | |- _ = (?M, _) =>
            let M1 := eval vm_compute in (M + 1) in
            let Hq := fresh "Hq" in
            assert (Hq : x / 32 = M \/ x / 32 = M1)
              by (Z.div_mod_to_equations; lia);
            destruct Hq as [Hq|Hq]; rewrite Hq;
            repeat match goal with
                   | |- context [Zpos ?a - Zpos ?b] =>
                       let v := eval vm_compute in (Zpos a - Zpos b) in
                       change (Zpos a - Zpos b) with v
                   end;
            cbn;
            match goal with
            | |- context [?a <? ?b] => destruct (Z.ltb_spec a b)
            end;
            solve [ f_equal; lia | lia
                  | exfalso; clear -Hq Hd; Z.div_mod_to_equations; lia ]
        end
    end.
Qed.

Lemma days_in_month_range (y m : Z) :
  1 <= m <= 12 -> 28 <= days_in_month y m <= 31.
Proof.
  intros Hm. unfold days_in_month.
  assert (Hcases : m = 1 \/ m = 2 \/ m = 3 \/ m = 4 \/ m = 5 \/ m = 6 \/ m = 7
                   \/ m = 8 \/ m = 9 \/ m = 10 \/ m = 11 \/ m = 12) by lia.
  destruct (is_leap y);
    repeat (destruct Hcases as [->|Hcases]); try subst m; cbn; lia.
Qed.

(** The day of the year, counted from 0, of a date of the calendar. *)
Lemma day_of_year_range (y m d : Z) :
  1 <= m <= 12 -> 1 <= d <= days_in_month y m ->
  0 <= days_before_month y m + d - 1 < 365 + (if is_leap y then 1 else 0)
  /\ (days_before_month y m + d - 1 = 365 -> m = 12 /\ d = 31).
Proof.
  intros Hm. unfold days_in_month, days_before_month.
  assert (Hcases : m = 1 \/ m = 2 \/ m = 3 \/ m = 4 \/ m = 5 \/ m = 6 \/ m = 7
                   \/ m = 8 \/ m = 9 \/ m = 10 \/ m = 11 \/ m = 12) by lia.
  destruct (is_leap y);
    repeat (destruct Hcases as [->|Hcases]); try subst m; cbn; lia.
Qed.

(** [_ord2ymd] undoes [_ymd2ord]. *)
Lemma ord2ymd_ymd2ord (y m d : Z) :
  1 <= m <= 12 -> 1 <= d <= days_in_month y m ->
  ord2ymd (ymd2ord y m d) = (y, m, d).
Proof.
  intros Hm Hd.
  destruct (year_decomposed y) as (A & c & f & g & Hy & Hc & Hf & Hg & Hdby & Hleap).
  destruct (day_of_year_range y m d Hm Hd) as [Hk Hlast].
  unfold ymd2ord. rewrite Hdby.
  replace (146097 * A + 36524 * c + 1461 * f + 365 * g + days_before_month y m + d)
    with (146097 * A + 36524 * c + 1461 * f + 365 * g
          + (days_before_month y m + d - 1) + 1) by lia.
  rewrite ord2ymd_decomposed; try done; [|now rewrite <- Hleap].
  cbv zeta. rewrite <- Hy, <- Hleap.
  destruct (Z.eqb_spec (days_before_month y m + d - 1) 365) as [H365|_].
  - destruct (Hlast H365) as [-> ->]. reflexivity.
  - unfold days_before_month. rewrite month_and_day_spec; [done | done |].
    unfold days_in_month in Hd. exact Hd.
Qed.

Lemma days_before_year_mono (y y' : Z) :
  y <= y' -> days_before_year y + 365 * (y' - y) <= days_before_year y'.
Proof. unfold days_before_year. intros H. Z.div_mod_to_equations. lia. Qed.

(** The dates of years 1 to 9999 are the days 1 to [MAXORDINAL]. *)
Lemma ymd2ord_range (y m d : Z) :
  1 <= y <= 9999 -> 1 <= m <= 12 -> 1 <= d <= days_in_month y m ->
  1 <= ymd2ord y m d <= MAXORDINAL.
Proof.
  intros Hy Hm Hd. destruct (day_of_year_range y m d Hm Hd) as [Hk _].
  pose proof (days_before_year_mono 1 y ltac:(lia)) as H1.
  pose proof (days_before_year_mono (y + 1) 10000 ltac:(lia)) as H2.
  rewrite days_before_year_succ in H2.
  change (days_before_year 1) with 0 in H1.
  change (days_before_year 10000) with 3652059 in H2.
  unfold ymd2ord, MAXORDINAL. destruct (is_leap y); lia.
Qed.

Lemma ordinal_decomposed (n : Z) :
  exists A c f g k,
    0 <= c <= 3 /\ 0 <= f <= 24 /\ 0 <= g <= 3
    /\ 0 <= k < 365 + (if (g =? 3) && (negb (f =? 24) || (c =? 3)) then 1 else 0)
    /\ n = 146097 * A + 36524 * c + 1461 * f + 365 * g + k + 1.
Proof.
  set (A := (n - 1) / 146097). set (r1 := (n - 1) mod 146097).
  set (c := Z.min (r1 / 36524) 3). set (r2 := r1 - 36524 * c).
  set (f := r2 / 1461). set (r3 := r2 - 1461 * f).
  set (g := Z.min (r3 / 365) 3). set (k := r3 - 365 * g).
  exists A, c, f, g, k.
  assert (Hr1 : 0 <= r1 < 146097) by (apply Z.mod_pos_bound; lia).
  assert (Hn : n = 146097 * A + r1 + 1).
  { unfold A, r1. Z.div_mod_to_equations. lia. }
  assert (Hc : 0 <= c <= 3 /\ 0 <= r2 <= 36524 /\ (r2 = 36524 -> c = 3)).
  { unfold r2, c. Z.div_mod_to_equations. lia. }
  assert (Hf : 0 <= f <= 24 /\ 0 <= r3 < 1461 /\ (r2 = 36524 -> f = 24 /\ r3 = 1460)).
  { unfold r3, f. Z.div_mod_to_equations. lia. }
  assert (Hg : 0 <= g <= 3 /\ 0 <= k <= 365 /\ (k = 365 -> g = 3 /\ r3 = 1460)).
  { unfold k, g. Z.div_mod_to_equations. lia. }
  repeat (split; [lia|]). split; [|unfold k, r3, r2 in *; lia].
  destruct ((g =? 3) && (negb (f =? 24) || (c =? 3))) eqn:Hl; [lia|].
  apply andb_false_iff in Hl.
  rewrite orb_false_iff, negb_false_iff, !Z.eqb_eq, !Z.eqb_neq in Hl.
  split; [lia|].
  assert (k <> 365); [|lia]. intros Hk.
  assert (r2 = 1461 * f + r3) by (unfold r3; lia). lia.
Qed.

Lemma day_of_year_decomposed (leap : bool) (k : Z) :
  0 <= k < 365 + (if leap then 1 else 0) ->
  exists m d,
    1 <= m <= 12
    /\ 1 <= d <= (if (m =? 2) && leap then 29 else DAYS_IN_MONTH m)
    /\ k = DAYS_BEFORE_MONTH m + (if (2 <? m) && leap then 1 else 0) + d - 1.
Proof.
  intros Hk. set (l := if leap then 1 else 0) in *.
  assert (Hl : l = 0 \/ l = 1) by (unfold l; destruct leap; auto).
  assert (Hcases :
    k < 31 \/ 31 <= k < 59 + l \/ 59 + l <= k < 90 + l
    \/ 90 + l <= k < 120 + l \/ 120 + l <= k < 151 + l
    \/ 151 + l <= k < 181 + l \/ 181 + l <= k < 212 + l
    \/ 212 + l <= k < 243 + l \/ 243 + l <= k < 273 + l
    \/ 273 + l <= k < 304 + l \/ 304 + l <= k < 334 + l \/ 334 + l <= k) by lia.
  destruct Hcases as [H|[H|[H|[H|[H|[H|[H|[H|[H|[H|[H|H]]]]]]]]]]].
  - exists 1, (k + 1). unfold l in *. destruct leap; cbn; lia.
  - exists 2, (k - 31 + 1). unfold l in *. destruct leap; cbn; lia.
  - exists 3, (k - 59 - l + 1). unfold l in *. destruct leap; cbn; lia.
  - exists 4, (k - 90 - l + 1). unfold l in *. destruct leap; cbn; lia.
  - exists 5, (k - 120 - l + 1). unfold l in *. destruct leap; cbn; lia.
  - exists 6, (k - 151 - l + 1). unfold l in *. destruct leap; cbn; lia.
  - exists 7, (k - 181 - l + 1). unfold l in *. destruct leap; cbn; lia.
  - exists 8, (k - 212 - l + 1). unfold l in *. destruct leap; cbn; lia.
  - exists 9, (k - 243 - l + 1). unfold l in *. destruct leap; cbn; lia.
  - exists 10, (k - 273 - l + 1). unfold l in *. destruct leap; cbn; lia.
  - exists 11, (k - 304 - l + 1). unfold l in *. destruct leap; cbn; lia.
  - exists 12, (k - 334 - l + 1). unfold l in *. destruct leap; cbn; lia.
Qed.

(** Every day from 1 to [MAXORDINAL] is a date of the years 1 to 9999, and
    [_ord2ymd] finds it. *)
Lemma ord2ymd_valid (n : Z) :
  1 <= n <= MAXORDINAL ->
  exists y m d,
    ord2ymd n = (y, m, d) /\ 1 <= y <= 9999 /\ 1 <= m <= 12
    /\ 1 <= d <= days_in_month y m /\ ymd2ord y m d = n.
Proof.
  intros Hn.
  destruct (ordinal_decomposed n) as (A & c & f & g & k & Hc & Hf & Hg & Hk & Hnk).
  set (y := 400 * A + 100 * c + 4 * f + g + 1).
  destruct (year_decomposed y) as (A' & c' & f' & g' & Hy & Hc' & Hf' & Hg' & Hdby & Hleap).
  assert (A' = A /\ c' = c /\ f' = f /\ g' = g) as (-> & -> & -> & ->)
    by (unfold y in Hy; lia).
  rewrite <- Hleap in Hk.
  destruct (day_of_year_decomposed (is_leap y) k Hk) as (m & d & Hm & Hd & Hkd).
  assert (Hord : ymd2ord y m d = n).
  { unfold ymd2ord, days_before_month. rewrite Hdby. lia. }
  assert (Hd' : 1 <= d <= days_in_month y m) by (unfold days_in_month; exact Hd).
  exists y, m, d. split; [rewrite <- Hord; now apply ord2ymd_ymd2ord|].
  split; [|done].
  pose proof (days_before_year_succ y) as Hs.
  assert (Hrange : days_before_year y + 1 <= n <= days_before_year (y + 1)).
  { rewrite Hs, Hdby. destruct (is_leap y); lia. }
  split.
  - destruct (Z_le_gt_dec 1 y) as [|Hy0]; [done|].
    pose proof (days_before_year_mono (y + 1) 1 ltac:(lia)) as Hmono.
    change (days_before_year 1) with 0 in Hmono. lia.
  - destruct (Z_le_gt_dec y 9999) as [|Hy0]; [done|].
    pose proof (days_before_year_mono 10000 y ltac:(lia)) as Hmono.
    change (days_before_year 10000) with 3652059 in Hmono.
    unfold MAXORDINAL in Hn. lia.
Qed.

End Calendar.

(** ** Datetimes *)

Section Datetimes.

Lemma datetime_eta (dt : datetime) :
  dt = {| year := year dt; month := month dt; day := day dt; hour := hour dt;
          minute := minute dt; second := second dt;
          microsecond := microsecond dt |}.
Proof. now destruct dt. Qed.

(** Moving a datetime by whole days keeps its time of day. *)
Lemma datetime_add_days (dt : datetime) (n : Z) :
  valid_datetime dt ->
  1 <= toordinal dt + n <= MAXORDINAL ->
  datetime_add dt (timedelta_days n)
  = let '(y, m, d) := ord2ymd (toordinal dt + n) in
    Ok {| year := y; month := m; day := d; hour := hour dt;
          minute := minute dt; second := second dt;
          microsecond := microsecond dt |}.
Proof.
  intros (_ & _ & _ & Hh & Hmi & Hs & Hus) Hn.
  unfold datetime_add, to_microseconds, timedelta_days, microseconds_per_day,
    seconds_of_day.
  set (sod := second dt + minute dt * 60 + hour dt * 3600).
  assert (Hsod : 0 <= sod < 86400) by (unfold sod; lia).
  replace ((toordinal dt * 86400 + sod) * 1000000 + microsecond dt
           + n * (86400 * 1000000))
    with (86400 * 1000000 * (toordinal dt + n) + (sod * 1000000 + microsecond dt))
    by lia.
  destruct (div_mod_sum (toordinal dt + n) (sod * 1000000 + microsecond dt)
              (86400 * 1000000) ltac:(lia)) as [-> ->].
  replace ((0 <? toordinal dt + n) && (toordinal dt + n <=? MAXORDINAL)) with true
    by (symmetry; apply andb_true_iff; split; [apply Z.ltb_lt | apply Z.leb_le]; lia).
  destruct (ord2ymd (toordinal dt + n)) as [[y m] d].
  replace (sod * 1000000 + microsecond dt) with (1000000 * sod + microsecond dt) by lia.
  destruct (div_mod_sum sod (microsecond dt) 1000000 ltac:(lia)) as [-> ->].
  f_equal. f_equal; unfold sod; Z.div_mod_to_equations; lia.
Qed.

Lemma datetime_add_zero (dt : datetime) :
  valid_datetime dt -> datetime_add dt 0 = Ok dt.
Proof.
  intros Hv. pose proof Hv as (Hy & Hm & Hd & _).
  pose proof (ymd2ord_range _ _ _ Hy Hm Hd) as Hr.
  change 0 with (timedelta_days 0). rewrite datetime_add_days; [|done|unfold toordinal; lia].
  rewrite Z.add_0_r. unfold toordinal. rewrite ord2ymd_ymd2ord by done.
  now rewrite <- datetime_eta.
Qed.

End Datetimes.

(** ** relativedelta *)

Section Relativedelta.

Lemma carry_spec (value unit : Z) :
  0 < unit ->
  let '(kept, carried) := carry value unit in
  carried * unit + kept = value /\ - unit < kept < unit
  /\ (0 <= value -> 0 <= kept /\ carried = value / unit /\ kept = value mod unit)
  /\ (value <= 0 -> kept <= 0 /\ carried <= 0).
Proof.
  intros Hu. unfold carry, sign.
  destruct (Z.ltb_spec (unit - 1) (Z.abs value)) as [Hbig|Hsmall].
  - destruct (Z.ltb_spec value 0) as [Hneg|Hpos].
    + replace (value * -1) with (- value) by lia.
      pose proof (Z.div_mod (- value) unit ltac:(lia)) as Hdm.
      pose proof (Z.mod_pos_bound (- value) unit Hu) as Hb.
      pose proof (Z.div_pos (- value) unit ltac:(lia) Hu) as Hq.
      repeat split; try lia.
    + rewrite !Z.mul_1_r.
      pose proof (Z.div_mod value unit ltac:(lia)) as Hdm.
      pose proof (Z.mod_pos_bound value unit Hu) as Hb.
      pose proof (Z.div_pos value unit ltac:(lia) Hu) as Hq.
      repeat split; try lia.
  - assert (Hv : - unit < value < unit) by lia.
    split; [lia|]. split; [lia|]. split; [|lia].
    intros Hpos. rewrite Z.div_small, Z.mod_small by lia. lia.
Qed.

(** [_set_months] splits a number of months into years and months of the
    same sign. *)
Lemma set_months_spec (total : Z) :
  exists y m,
    set_months total
    = {| years := y; months := m; days := 0; hours := 0; minutes := 0;
         seconds := 0; microseconds := 0 |}
    /\ y * 12 + m = total /\ -12 < m < 12
    /\ (0 <= total -> 0 <= m /\ y = total / 12 /\ m = total mod 12)
    /\ (total <= 0 -> m <= 0 /\ y <= 0).
Proof.
  unfold set_months. pose proof (carry_spec total 12 ltac:(lia)) as H.
  destruct (carry total 12) as [m y]. exists y, m. split; [done|]. exact H.
Qed.

(** Adding a number of months to a datetime: the month reached, with the
    day clipped to its length. *)
Lemma radd_set_months (total : Z) (dt : datetime) (y m : Z) :
  valid_datetime dt ->
  12 * y + m = 12 * year dt + month dt + total ->
  1 <= m <= 12 -> 1 <= y <= 9999 ->
  relativedelta_radd (set_months total) dt = Ok (moved_to dt y m).
Proof.
  intros Hv Hym Hm Hy. pose proof Hv as (Hy2 & Hm2 & Hd2 & Ht).
  destruct (set_months_spec total) as (ys & ms & -> & Hsum & Hms & _ & _).
  unfold relativedelta_radd. cbn [years months days hours minutes seconds microseconds].
  assert (Hym' :
    (if ms =? 0 then (year dt + ys, month dt)
     else if 12 <? month dt + ms then (year dt + ys + 1, month dt + ms - 12)
          else if month dt + ms <? 1 then (year dt + ys - 1, month dt + ms + 12)
               else (year dt + ys, month dt + ms)) = (y, m)).
  { destruct (Z.eqb_spec ms 0); [f_equal; lia|].
    destruct (Z.ltb_spec 12 (month dt + ms)); [f_equal; lia|].
    destruct (Z.ltb_spec (month dt + ms) 1); f_equal; lia. }
  rewrite Hym'.
  replace ((1 <=? m) && (m <=? 12)) with true by lia.
  pose proof (days_in_month_range y m Hm) as Hdim.
  unfold replace_date.
  replace ((1 <=? y) && (y <=? 9999) && (1 <=? m) && (m <=? 12)
           && (1 <=? Z.min (days_in_month y m) (day dt))
           && (Z.min (days_in_month y m) (day dt) <=? days_in_month y m))
    with true by lia.
  cbn [mbind result_bind]. apply datetime_add_zero.
  unfold valid_datetime, moved_to. cbn [year month day hour minute second microsecond].
  repeat split; try lia.
Qed.

(** Datetimes of different months compare as their months do. *)
Lemma datetime_lt_months (a b : datetime) :
  1 <= month a <= 12 -> 1 <= month b <= 12 ->
  12 * year a + month a < 12 * year b + month b ->
  datetime_lt a b = true /\ datetime_lt b a = false.
Proof.
  intros Ha Hb Hlt. unfold datetime_lt, fields. cbn [list_lt]. split.
  - destruct (Z.ltb_spec (year a) (year b)); [done|].
    destruct (Z.eqb_spec (year a) (year b)); [|lia].
    destruct (Z.ltb_spec (month a) (month b)); [done | lia].
  - destruct (Z.ltb_spec (year b) (year a)); [lia|].
    destruct (Z.eqb_spec (year b) (year a)); [|done].
    destruct (Z.ltb_spec (month b) (month a)); [lia|].
    destruct (Z.eqb_spec (month b) (month a)); [lia | done].
Qed.

Lemma list_lt_irrefl (xs : list Z) : list_lt xs xs = false.
Proof.
  induction xs as [|x xs IH]; [done|]. cbn [list_lt].
  now rewrite Z.ltb_irrefl, Z.eqb_refl, IH.
Qed.

Lemma list_lt_asym (xs ys : list Z) :
  list_lt xs ys = true -> list_lt ys xs = false.
Proof.
  revert ys. induction xs as [|x xs IH]; intros [|y ys]; cbn [list_lt]; try done.
  destruct (Z.ltb_spec x y), (Z.ltb_spec y x), (Z.eqb_spec x y), (Z.eqb_spec y x);
    cbn [orb andb]; try lia; try done. apply IH.
Qed.

Lemma moved_to_same (dt : datetime) :
  valid_datetime dt -> moved_to dt (year dt) (month dt) = dt.
Proof.
  intros (_ & _ & Hd & _). unfold moved_to.
  rewrite Z.min_r by lia. now destruct dt.
Qed.

(** The years and months of a delta survive [_fix]. *)
Lemma fix_fields_months (y m s us : Z) :
  -12 < m < 12 ->
  let delta := fix_fields {| years := y; months := m; days := 0; hours := 0;
                             minutes := 0; seconds := s; microseconds := us |} in
  years delta = y /\ months delta = m.
Proof.
  intros Hm. unfold fix_fields.
  cbn [years months days hours minutes seconds microseconds].
  destruct (carry us 1000000) as [us' c1]. destruct (carry (s + c1) 60) as [s' c2].
  destruct (carry (0 + c2) 60) as [mi' c3]. destruct (carry (0 + c3) 24) as [h' c4].
  assert (carry m 12 = (m, 0)) as ->.
  { unfold carry. destruct (Z.ltb_spec (12 - 1) (Z.abs m)); [lia | done]. }
  cbn [years months]. split; [lia | done].
Qed.

(** The delta from an earlier to a later datetime: the months from the one
    to the other, less one when the day of the month has not come yet. *)
Lemma relativedelta_forward (fuel : nat) (dt1 dt2 : datetime) :
  valid_datetime dt1 -> valid_datetime dt2 ->
  datetime_lt dt1 dt2 = false -> (1 <= fuel)%nat ->
  let total0 := (year dt1 - year dt2) * 12 + (month dt1 - month dt2) in
  let total :=
    if datetime_lt dt1 (moved_to dt2 (year dt1) (month dt1))
    then total0 - 1 else total0 in
  exists delta,
    relativedelta_between fuel dt1 dt2 = Ok delta
    /\ 0 <= total /\ years delta = total / 12 /\ months delta = total mod 12.
Proof.
  intros Hv1 Hv2 Hlt Hfuel total0 total.
  pose proof Hv1 as (Hy1 & Hm1 & _). pose proof Hv2 as (Hy2 & Hm2 & _).
  assert (Htotal0 : 0 <= total0).
  { destruct (Z_le_gt_dec 0 total0) as [|Hneg]; [done|].
    destruct (datetime_lt_months dt1 dt2 Hm1 Hm2 ltac:(unfold total0 in Hneg; lia)).
    congruence. }
  unfold relativedelta_between. fold total0.
  rewrite (radd_set_months total0 dt2 (year dt1) (month dt1))
    by (try done; unfold total0; lia).
  cbn [mbind result_bind]. rewrite Hlt.
  assert (Hloop : adjust_months fuel datetime_lt (-1) dt1 dt2 total0
                    (moved_to dt2 (year dt1) (month dt1))
                  = Ok (total, if datetime_lt dt1 (moved_to dt2 (year dt1) (month dt1))
                               then moved_to dt2 ((total0 - 1 + 12 * year dt2 + month dt2 - 1) / 12)
                                      ((total0 - 1 + 12 * year dt2 + month dt2 - 1) mod 12 + 1)
                               else moved_to dt2 (year dt1) (month dt1))
                  /\ 0 <= total).
  { destruct fuel as [|fuel]; [lia|]. cbn [adjust_months]. unfold total.
    destruct (datetime_lt dt1 (moved_to dt2 (year dt1) (month dt1))) eqn:Hcmp; [|done].
    assert (Hpos : 1 <= total0).
    { destruct (Z.eq_dec total0 0) as [Hz|]; [|lia].
      assert (year dt1 = year dt2 /\ month dt1 = month dt2) as [Hy Hm]
        by (unfold total0 in Hz; lia).
      rewrite Hy, Hm, moved_to_same in Hcmp by done. congruence. }
    set (i := total0 - 1 + 12 * year dt2 + month dt2 - 1).
    assert (Hi : 12 * (i / 12) + (i mod 12 + 1) = 12 * year dt2 + month dt2 + (total0 - 1)
                 /\ 1 <= i mod 12 + 1 <= 12 /\ 1 <= i / 12 <= 9999
                 /\ 12 * (i / 12) + (i mod 12 + 1) < 12 * year dt1 + month dt1).
    { unfold i, total0 in *. Z.div_mod_to_equations. lia. }
    destruct Hi as (Hi1 & Hi2 & Hi3 & Hi4).
    replace (total0 + -1) with (total0 - 1) by lia.
    rewrite (radd_set_months (total0 - 1) dt2 (i / 12) (i mod 12 + 1)) by done.
    cbn [mbind result_bind].
    assert (datetime_lt dt1 (moved_to dt2 (i / 12) (i mod 12 + 1)) = false) as Hexit.
    { apply (datetime_lt_months (moved_to dt2 (i / 12) (i mod 12 + 1)) dt1); try done. }
    destruct fuel; cbn [adjust_months]; rewrite Hexit; split; (done || lia). }
  destruct Hloop as [-> Htotal]. cbn [mbind result_bind].
  destruct (set_months_spec total) as (y & m & -> & Hsum & Hm & Hpos & _).
  destruct (Hpos Htotal) as (_ & -> & ->).
  cbn [years months].
  eexists. split; [reflexivity|]. split; [done|].
  apply fix_fields_months. pose proof (Z.mod_pos_bound total 12 ltac:(lia)). lia.
Qed.

(** The constructor of [relativedelta] returns on any two datetimes
    Python can build, as soon as its loop may run once. *)
Lemma relativedelta_between_total (fuel : nat) (dt1 dt2 : datetime) :
  valid_datetime dt1 -> valid_datetime dt2 -> (1 <= fuel)%nat ->
  exists delta, relativedelta_between fuel dt1 dt2 = Ok delta.
Proof.
  intros Hv1 Hv2 Hfuel.
  destruct (datetime_lt dt1 dt2) eqn:Hlt.
  2: { destruct (relativedelta_forward fuel dt1 dt2 Hv1 Hv2 Hlt Hfuel) as (d & Hd & _).
       eauto. }
  pose proof Hv1 as (Hy1 & Hm1 & _). pose proof Hv2 as (Hy2 & Hm2 & _).
  set (total0 := (year dt1 - year dt2) * 12 + (month dt1 - month dt2)).
  assert (Htotal0 : total0 <= 0).
  { destruct (Z_le_gt_dec total0 0) as [|Hpos]; [done|].
    destruct (datetime_lt_months dt2 dt1 Hm2 Hm1 ltac:(unfold total0 in Hpos; lia)).
    congruence. }
  unfold relativedelta_between. fold total0.
  rewrite (radd_set_months total0 dt2 (year dt1) (month dt1))
    by (try done; unfold total0; lia).
  cbn [mbind result_bind]. rewrite Hlt.
  assert (Hloop : exists total dtm,
             adjust_months fuel (fun a b => datetime_lt b a) 1 dt1 dt2 total0
               (moved_to dt2 (year dt1) (month dt1)) = Ok (total, dtm)).
  { destruct fuel as [|fuel]; [lia|]. cbn [adjust_months].
    destruct (datetime_lt (moved_to dt2 (year dt1) (month dt1)) dt1) eqn:Hcmp; [|eauto].
    assert (Hneg : total0 <= -1).
    { destruct (Z.eq_dec total0 0) as [Hz|]; [|lia].
      assert (year dt1 = year dt2 /\ month dt1 = month dt2) as [Hy Hm]
        by (unfold total0 in Hz; lia).
      rewrite Hy, Hm, moved_to_same in Hcmp by done.
      apply list_lt_asym in Hcmp. unfold datetime_lt in Hlt. congruence. }
    set (i := total0 + 1 + 12 * year dt2 + month dt2 - 1).
    assert (Hi : 12 * (i / 12) + (i mod 12 + 1) = 12 * year dt2 + month dt2 + (total0 + 1)
                 /\ 1 <= i mod 12 + 1 <= 12 /\ 1 <= i / 12 <= 9999
                 /\ 12 * year dt1 + month dt1 < 12 * (i / 12) + (i mod 12 + 1)).
    { unfold i, total0 in *. Z.div_mod_to_equations. lia. }
    destruct Hi as (Hi1 & Hi2 & Hi3 & Hi4).
    rewrite (radd_set_months (total0 + 1) dt2 (i / 12) (i mod 12 + 1)) by done.
    cbn [mbind result_bind].
    assert (datetime_lt (moved_to dt2 (i / 12) (i mod 12 + 1)) dt1 = false) as Hexit.
    { apply (datetime_lt_months dt1 (moved_to dt2 (i / 12) (i mod 12 + 1))); try done. }
    destruct fuel; cbn [adjust_months]; rewrite Hexit; eauto. }
  destruct Hloop as (total & dtm & ->). cbn [mbind result_bind]. eauto.
Qed.

End Relativedelta.

(** ** Months as spans of days *)

Section Months.

Lemma days_before_index_eq (y m : Z) :
  1 <= m <= 12 -> days_before_index (12 * y + m - 1) = days_before y m.
Proof.
  intros Hm. unfold days_before_index.
  replace (12 * y + m - 1) with (12 * y + (m - 1)) by lia.
  destruct (div_mod_sum y (m - 1) 12 ltac:(lia)) as [-> ->]. f_equal. lia.
Qed.

(** From the first of a month to the first of the next: the days of the
    month. *)
Lemma days_before_index_succ (i : Z) :
  days_before_index (i + 1)
  = days_before_index i + days_in_month (i / 12) (i mod 12 + 1).
Proof.
  pose proof (Z.mod_pos_bound i 12 ltac:(lia)) as Hm.
  pose proof (Z.div_mod i 12 ltac:(lia)) as Hi.
  set (y := i / 12) in *. set (m0 := i mod 12) in *.
  rewrite Hi at 1. unfold days_before_index at 2. fold y m0.
  destruct (Z.eq_dec m0 11) as [H11|H11].
  - replace (12 * y + m0 + 1) with (12 * (y + 1) + 1 - 1) by lia.
    rewrite days_before_index_eq by lia. rewrite H11.
    unfold days_before, days_before_month, days_in_month.
    rewrite days_before_year_succ. add_numerals. cbn.
    destruct (is_leap y), (is_leap (y + 1)); lia.
  - replace (12 * y + m0 + 1) with (12 * y + (m0 + 2) - 1) by lia.
    rewrite days_before_index_eq by lia.
    unfold days_before, days_before_month, days_in_month.
    assert (Hcases : m0 = 0 \/ m0 = 1 \/ m0 = 2 \/ m0 = 3 \/ m0 = 4 \/ m0 = 5
                     \/ m0 = 6 \/ m0 = 7 \/ m0 = 8 \/ m0 = 9 \/ m0 = 10) by lia.
    destruct (is_leap y);
      repeat (destruct Hcases as [->|Hcases]); try rewrite Hcases;
      add_numerals; cbn; lia.
Qed.

Lemma days_before_index_step (i : Z) :
  28 <= days_before_index (i + 1) - days_before_index i <= 31.
Proof.
  rewrite days_before_index_succ.
  pose proof (Z.mod_pos_bound i 12 ltac:(lia)).
  pose proof (days_in_month_range (i / 12) (i mod 12 + 1) ltac:(lia)). lia.
Qed.

(** Two months in a row have 59 days or more. *)
Lemma days_before_index_two (i : Z) :
  59 <= days_before_index (i + 2) - days_before_index i.
Proof.
  replace (i + 2) with (i + 1 + 1) by lia. rewrite !days_before_index_succ.
  pose proof (Z.mod_pos_bound i 12 ltac:(lia)) as Hm.
  pose proof (Z.div_mod i 12 ltac:(lia)) as Hi.
  set (y := i / 12) in *. set (m0 := i mod 12) in *.
  destruct (Z.eq_dec m0 11) as [H11|H11].
  - assert ((i + 1) / 12 = y + 1 /\ (i + 1) mod 12 = 0) as [-> ->].
    { replace (i + 1) with (12 * (y + 1) + 0) by lia. apply div_mod_sum. lia. }
    rewrite H11. unfold days_in_month. add_numerals. cbn.
    destruct (is_leap y), (is_leap (y + 1)); lia.
  - assert ((i + 1) / 12 = y /\ (i + 1) mod 12 = m0 + 1) as [-> ->].
    { replace (i + 1) with (12 * y + (m0 + 1)) by lia. apply div_mod_sum. lia. }
    unfold days_in_month.
    assert (Hcases : m0 = 0 \/ m0 = 1 \/ m0 = 2 \/ m0 = 3 \/ m0 = 4 \/ m0 = 5
                     \/ m0 = 6 \/ m0 = 7 \/ m0 = 8 \/ m0 = 9 \/ m0 = 10) by lia.
    destruct (is_leap y);
      repeat (destruct Hcases as [->|Hcases]); try rewrite Hcases;
      add_numerals; cbn; lia.
Qed.

(** Twelve months in a row have 365 or 366 days. *)
Lemma days_before_index_year (i : Z) :
  365 <= days_before_index (i + 12) - days_before_index i <= 366.
Proof.
  pose proof (Z.mod_pos_bound i 12 ltac:(lia)) as Hm.
  pose proof (Z.div_mod i 12 ltac:(lia)) as Hi.
  set (y := i / 12) in *. set (m0 := i mod 12) in *.
  replace (i + 12) with (12 * (y + 1) + (m0 + 1) - 1) by lia.
  rewrite days_before_index_eq by lia.
  unfold days_before_index. fold y m0.
  unfold days_before, days_before_month. rewrite days_before_year_succ.
  assert (Hcases : m0 = 0 \/ m0 = 1 \/ m0 = 2 \/ m0 = 3 \/ m0 = 4 \/ m0 = 5
                   \/ m0 = 6 \/ m0 = 7 \/ m0 = 8 \/ m0 = 9 \/ m0 = 10 \/ m0 = 11) by lia.
  destruct (is_leap y), (is_leap (y + 1));
    repeat (destruct Hcases as [->|Hcases]); try rewrite Hcases;
      add_numerals; cbn; lia.
Qed.

(** A span of [n] months has 28 days a month at the least. *)
Lemma days_before_index_mono (i n : Z) :
  0 <= n -> days_before_index i + 28 * n <= days_before_index (i + n).
Proof.
  intros Hn. rewrite <- (Z2Nat.id n Hn). clear Hn. revert i.
  induction (Z.to_nat n) as [|k IH]; intros i.
  - change (Z.of_nat 0) with 0. replace (i + 0) with i by lia. lia.
  - pose proof (IH (i + 1)) as H. pose proof (days_before_index_step i).
    replace (i + Z.of_nat (S k)) with (i + 1 + Z.of_nat k) by lia. lia.
Qed.

End Months.

(** ** C8: humanized durations *)

Section DurationAgo.

Lemma toordinal_index (dt : datetime) :
  valid_datetime dt ->
  let i := 12 * year dt + month dt - 1 in
  toordinal dt = days_before_index i + day dt
  /\ 1 <= day dt <= days_before_index (i + 1) - days_before_index i
  /\ days_in_month (year dt) (month dt)
     = days_before_index (i + 1) - days_before_index i.
Proof.
  intros (_ & Hm & Hd & _) i. unfold i.
  rewrite days_before_index_succ, days_before_index_eq by done.
  replace (12 * year dt + month dt - 1) with (12 * year dt + (month dt - 1)) by lia.
  destruct (div_mod_sum (year dt) (month dt - 1) 12 ltac:(lia)) as [-> ->].
  replace (month dt - 1 + 1) with (month dt) by lia.
  unfold toordinal, ymd2ord, days_before. lia.
Qed.

(** A datetime a whole number of days before another is as many days
    before it on the calendar, at the same time of day. *)
Lemma whole_days_before (now dt : datetime) (n : Z) :
  valid_datetime now -> valid_datetime dt ->
  datetime_sub now dt = timedelta_days n ->
  toordinal now = toordinal dt + n
  /\ hour now = hour dt /\ minute now = minute dt /\ second now = second dt
  /\ microsecond now = microsecond dt.
Proof.
  intros (_ & _ & _ & Hh1 & Hmi1 & Hs1 & Hus1) (_ & _ & _ & Hh2 & Hmi2 & Hs2 & Hus2).
  unfold datetime_sub, to_microseconds, timedelta_days, microseconds_per_day,
    seconds_of_day. lia.
Qed.

Lemma datetime_lt_days (a b : datetime) :
  year a = year b -> month a = month b -> hour a = hour b ->
  minute a = minute b -> second a = second b -> microsecond a = microsecond b ->
  datetime_lt a b = (day a <? day b).
Proof.
  intros Hy Hm Hh Hmi Hs Hus. unfold datetime_lt, fields. cbn [list_lt].
  rewrite Hy, Hm, Hh, Hmi, Hs, Hus, !Z.ltb_irrefl, !Z.eqb_refl.
  cbn [orb andb]. now rewrite andb_false_r, orb_false_r.
Qed.

(** What the constructor of [relativedelta] finds between a datetime and
    one [n] days before it: the months from the one to the other, less one
    when the day of the month has not come yet. *)
Lemma months_between (fuel : nat) (now dt : datetime) (n : Z) :
  valid_datetime now -> valid_datetime dt -> (1 <= fuel)%nat -> 0 <= n ->
  datetime_sub now dt = timedelta_days n ->
  let i1 := 12 * year now + month now - 1 in
  let i2 := 12 * year dt + month dt - 1 in
  let total :=
    if day now <? Z.min (days_in_month (year now) (month now)) (day dt)
    then i1 - i2 - 1 else i1 - i2 in
  days_before_index i1 + day now = days_before_index i2 + day dt + n
  /\ exists delta,
       relativedelta_between fuel now dt = Ok delta
       /\ 0 <= total /\ years delta = total / 12 /\ months delta = total mod 12.
Proof.
  intros Hv1 Hv2 Hfuel Hn Hsub i1 i2 total.
  destruct (whole_days_before now dt n Hv1 Hv2 Hsub) as (Hord & Hh & Hmi & Hs & Hus).
  destruct (toordinal_index now Hv1) as (Ho1 & Hd1 & _).
  destruct (toordinal_index dt Hv2) as (Ho2 & Hd2 & _).
  fold i1 in Ho1, Hd1. fold i2 in Ho2, Hd2.
  pose proof Hv1 as (_ & Hm1 & _). pose proof Hv2 as (_ & Hm2 & _).
  split; [lia|].
  assert (Hlt : datetime_lt now dt = false).
  { destruct (Z.lt_trichotomy i1 i2) as [Hi|[Hi|Hi]].
    - exfalso. pose proof (days_before_index_mono (i1 + 1) (i2 - i1 - 1) ltac:(lia)) as Hmono.
      replace (i1 + 1 + (i2 - i1 - 1)) with i2 in Hmono by lia. lia.
    - rewrite datetime_lt_days; try (unfold i1, i2 in Hi; lia).
      assert (days_before_index i1 = days_before_index i2) by now rewrite Hi.
      apply Z.ltb_ge. lia.
    - apply (datetime_lt_months dt now); try done. unfold i1, i2 in Hi. lia. }
  destruct (relativedelta_forward fuel now dt Hv1 Hv2 Hlt Hfuel)
    as (delta & Hdelta & Htotal).
  exists delta. split; [done|].
  rewrite datetime_lt_days in Htotal by (symmetry; done || done).
  cbn [moved_to day] in Htotal.
  replace ((year now - year dt) * 12 + (month now - month dt)) with (i1 - i2) in Htotal
    by (unfold i1, i2; lia).
  exact Htotal.
Qed.

(** The months that [duration_ago] counts between a datetime and one a
    whole number of days before it are months of the calendar. *)
Lemma duration_ago_calendar (fuel : nat) (now dt : datetime) (n : Z) :
  valid_datetime now -> valid_datetime dt -> (1 <= fuel)%nat -> 0 <= n ->
  datetime_sub now dt = timedelta_days n ->
  let total := Spec.calendar_months now dt in
  (12 <= total ->
   ReleaseTools.duration_ago fuel now dt = Ok (ReleaseTools.ago (total / 12) "year"))
  /\ (1 <= total < 12 ->
      ReleaseTools.duration_ago fuel now dt = Ok (ReleaseTools.ago total "month")).
Proof.
  intros Hv1 Hv2 Hfuel Hn Hsub total.
  destruct (months_between fuel now dt n Hv1 Hv2 Hfuel Hn Hsub)
    as (_ & delta & Hdelta & Htotal & Hy & Hm).
  fold (Spec.calendar_months now dt) in Htotal, Hy, Hm. fold total in Htotal, Hy, Hm.
  unfold ReleaseTools.duration_ago. rewrite Hdelta. cbn [mbind result_bind].
  rewrite Hy, Hm. split; intros Hrange.
  - assert (0 < total / 12) as ->%Z.ltb_lt by (Z.div_mod_to_equations; lia). done.
  - rewrite Z.div_small, Z.mod_small by lia. cbn [Z.ltb Z.compare].
    now assert (0 < total) as ->%Z.ltb_lt by lia.
Qed.

(** C8.  A timestamp exactly 400 days before now is rendered [1 year ago]
    and one exactly 40 days before now [1 month ago], whatever the date and
    the time of day; the count is of calendar months (the months from the
    month of the timestamp to the current one, less one while the day of
    the month has not come), and only the largest unit is written. *)
Theorem duration_ago_400_and_40_days (fuel : nat) (now dt : datetime) :
  valid_datetime now -> valid_datetime dt -> (1 <= fuel)%nat ->
  (datetime_sub now dt = timedelta_days 400 ->
   ReleaseTools.duration_ago fuel now dt = Ok (py "1 year ago"))
  /\ (datetime_sub now dt = timedelta_days 40 ->
      ReleaseTools.duration_ago fuel now dt = Ok (py "1 month ago"))
  /\ (forall n, 0 <= n -> datetime_sub now dt = timedelta_days n ->
      let total := Spec.calendar_months now dt in
      (12 <= total ->
       ReleaseTools.duration_ago fuel now dt
       = Ok (ReleaseTools.ago (total / 12) "year"))
      /\ (1 <= total < 12 ->
          ReleaseTools.duration_ago fuel now dt
          = Ok (ReleaseTools.ago total "month"))).
Proof.
  intros Hv1 Hv2 Hfuel.
  set (i1 := 12 * year now + month now - 1).
  set (i2 := 12 * year dt + month dt - 1).
  destruct (toordinal_index now Hv1) as (_ & Hd1 & Hdim1).
  destruct (toordinal_index dt Hv2) as (_ & Hd2 & _).
  fold i1 in Hd1, Hdim1. fold i2 in Hd2.
  pose proof (days_before_index_step i1) as Hs1.
  pose proof (days_before_index_step i2) as Hs2.
  split; [|split].
  - intros Hsub.
    destruct (months_between fuel now dt 400 Hv1 Hv2 Hfuel ltac:(lia) Hsub) as (Hord & _).
    fold i1 i2 in Hord.
    destruct (duration_ago_calendar fuel now dt 400 Hv1 Hv2 Hfuel ltac:(lia) Hsub)
      as [Hyear _].
    pose proof (days_before_index_year i2) as H12.
    pose proof (days_before_index_two (i2 + 12)) as H14.
    replace (i2 + 12 + 2) with (i2 + 14) in H14 by lia.
    assert (Hspan : i1 = i2 + 13 \/ (i1 = i2 + 14 /\ day now + 24 <= day dt)).
    { destruct (Z_le_gt_dec i1 (i2 + 12)) as [Hle|Hgt].
      - pose proof (days_before_index_mono i1 (i2 + 12 - i1) ltac:(lia)) as Hmono.
        replace (i1 + (i2 + 12 - i1)) with (i2 + 12) in Hmono by lia. lia.
      - destruct (Z.eq_dec i1 (i2 + 13)) as [|Hne]; [auto|]. right.
        pose proof (days_before_index_mono (i2 + 14) (i1 - (i2 + 14)) ltac:(lia)) as Hmono.
        replace (i2 + 14 + (i1 - (i2 + 14))) with i1 in Hmono by lia. lia. }
    assert (Htotal : Spec.calendar_months now dt = 12 \/ Spec.calendar_months now dt = 13).
    { unfold Spec.calendar_months. fold i1 i2. rewrite Hdim1.
      destruct (Z.ltb_spec (day now)
                  (Z.min (days_before_index (i1 + 1) - days_before_index i1) (day dt)));
        lia. }
    rewrite Hyear by lia. destruct Htotal as [-> | ->]; reflexivity.
  - intros Hsub.
    destruct (months_between fuel now dt 40 Hv1 Hv2 Hfuel ltac:(lia) Hsub) as (Hord & _).
    fold i1 i2 in Hord.
    destruct (duration_ago_calendar fuel now dt 40 Hv1 Hv2 Hfuel ltac:(lia) Hsub)
      as [_ Hmonth].
    pose proof (days_before_index_two i2) as H2.
    assert (Hspan : (i1 = i2 + 1 /\ day dt < day now)
                    \/ (i1 = i2 + 2 /\ day now + 19 <= day dt)).
    { destruct (Z_le_gt_dec i1 i2) as [Hle|Hgt].
      - pose proof (days_before_index_mono i1 (i2 - i1) ltac:(lia)) as Hmono.
        replace (i1 + (i2 - i1)) with i2 in Hmono by lia. lia.
      - destruct (Z.eq_dec i1 (i2 + 1)) as [Heq|Hne].
        + left. split; [done|].
          assert (days_before_index i1 = days_before_index (i2 + 1)) by now rewrite Heq.
          lia.
        + right.
          pose proof (days_before_index_mono (i2 + 2) (i1 - (i2 + 2)) ltac:(lia)) as Hmono.
          replace (i2 + 2 + (i1 - (i2 + 2))) with i1 in Hmono by lia. lia. }
    assert (Htotal : Spec.calendar_months now dt = 1).
    { unfold Spec.calendar_months. fold i1 i2. rewrite Hdim1.
      destruct (Z.ltb_spec (day now)
                  (Z.min (days_before_index (i1 + 1) - days_before_index i1) (day dt)));
        lia. }
    rewrite Hmonth by lia. rewrite Htotal. reflexivity.
  - intros n Hn Hsub. now apply (duration_ago_calendar fuel now dt n).
Qed.

End DurationAgo.

Lemma duration_ago_400_and_40_days_witness :
  ReleaseTools.duration_ago 1 may_2023 (at_time 2022 3 27 0 0 0)
  = Ok (py "1 year ago")
  /\ ReleaseTools.duration_ago 1 may_2023 (at_time 2023 3 22 0 0 0)
     = Ok (py "1 month ago").
Proof.
  assert (Hv : forall y m d, valid_datetime_b (at_time y m d 0 0 0) = true ->
                             valid_datetime (at_time y m d 0 0 0)).
  { intros y m d. unfold valid_datetime_b, valid_datetime. lia. }
  split.
  - apply (duration_ago_400_and_40_days 1 may_2023 (at_time 2022 3 27 0 0 0));
      [apply Hv | apply Hv | lia | ]; reflexivity.
  - apply (duration_ago_400_and_40_days 1 may_2023 (at_time 2023 3 22 0 0 0));
      [apply Hv | apply Hv | lia | ]; reflexivity.
Defined.

Example thirty_days_are_no_month :
  ReleaseTools.duration_ago 1 (at_time 2023 1 31 0 0 0) (at_time 2023 1 1 0 0 0)
  = Ok (py "30 days ago")
  /\ ReleaseTools.duration_ago 1 (at_time 2023 3 1 0 0 0) (at_time 2023 1 30 0 0 0)
     = Ok (py "1 month ago")
  /\ datetime_sub (at_time 2023 1 31 0 0 0) (at_time 2023 1 1 0 0 0) = timedelta_days 30
  /\ datetime_sub (at_time 2023 3 1 0 0 0) (at_time 2023 1 30 0 0 0) = timedelta_days 30.
Proof. repeat split; vm_compute; reflexivity. Qed.

(** ** C9: the doc flag in the copy under src/contrib *)

Section DocFlag.
Context {U : Unicode} {T : TimeFormat}.

Lemma duration_ago_total (fuel : nat) (now dt : datetime) :
  valid_datetime now -> valid_datetime dt -> (1 <= fuel)%nat ->
  exists age, Contrib.duration_ago fuel now dt = Ok age.
Proof.
  intros Hv1 Hv2 Hfuel.
  destruct (relativedelta_between_total fuel now dt Hv1 Hv2 Hfuel) as [delta Hd].
  unfold Contrib.duration_ago. rewrite Hd. cbn [mbind result_bind].
  repeat match goal with |- context [if ?b then _ else _] => destruct b end; eauto.
Qed.

Lemma print_release_run (fuel : nat) (r : Contrib.release) (w : world)
    (st : state) (age : str) :
  Contrib.duration_ago fuel (clock w (readings st)) r.2 = Ok age ->
  Contrib.print_release fuel r w st
  = ({| readings := S (readings st);
        stdout := stdout st ++ [Line (r.1 ++ [chr "009"] ++ strftime r.2 "%Y-%m-%d"
                                        ++ [chr "009"] ++ age)] |}, Ok tt).
Proof.
  intros Hage. unfold Contrib.print_release.
  cbv [mbind run_bind datetime_now lift print]. cbn [readings stdout].
  rewrite Hage. reflexivity.
Qed.

(** The display section prints one line for each supported release. *)
Lemma print_releases (fuel : nat) (w : world)
    (supported : list Contrib.release) :
  (forall n, valid_datetime (clock w n)) -> (1 <= fuel)%nat ->
  Forall (fun r => valid_datetime r.2) supported ->
  forall st, exists lines,
    length lines = length supported
    /\ for_each supported (Contrib.print_release fuel) w st
       = ({| readings := readings st + length supported;
             stdout := stdout st ++ map Line lines |}, Ok tt).
Proof.
  intros Hclock Hfuel. induction 1 as [|r supported Hr _ IH]; intros st.
  - exists []. split; [done|]. cbn. rewrite Nat.add_0_r, app_nil_r. now destruct st.
  - destruct (duration_ago_total fuel (clock w (readings st)) r.2 (Hclock _) Hr Hfuel)
      as [age Hage].
    set (text := r.1 ++ [chr "009"] ++ strftime r.2 "%Y-%m-%d" ++ [chr "009"] ++ age).
    destruct (IH {| readings := S (readings st); stdout := stdout st ++ [Line text] |})
      as (lines & Hlen & Hrun).
    exists (text :: lines). split; [simpl; lia|].
    cbn [for_each]. rewrite (bind_ok _ _ _ _ _ _ (print_release_run _ _ _ _ _ Hage)).
    fold text. rewrite Hrun.
    cbn [readings stdout length map]. f_equal. f_equal; [lia|].
    now rewrite <- app_assoc.
Qed.

(** The grouper only makes groups by appending to them, and only with
    datetimes that [strptime] parsed. *)
Lemma group_lines_grouped (lines : list str) :
  forall versions versions',
    Spec.well_grouped versions ->
    Contrib.group_lines lines versions = Ok versions' ->
    Spec.well_grouped versions'.
Proof.
  induction lines as [|line lines IH]; intros versions versions' Hg.
  - now intros [= <-].
  - cbn [Contrib.group_lines].
    destruct (Contrib.read_line line) as [[[[major minor] x]|]| |] eqn:Hline;
      cbn [mbind result_bind]; try discriminate; [|now apply IH].
    apply IH. intros key group. unfold Contrib.append_to.
    assert (Hx : valid_datetime x.2).
    { revert Hline. unfold Contrib.read_line.
      destruct (item_at _ 0) as [version| |]; cbn [mbind result_bind]; try discriminate.
      destruct (Contrib.parse_version version) as [[[[ma mi] pa]|]| |];
        cbn [mbind result_bind]; try discriminate.
      destruct (item_at _ 3) as [field| |]; cbn [mbind result_bind]; try discriminate.
      destruct (strptime field _) as [published| |] eqn:Hp;
        cbn [mbind result_bind]; try discriminate.
      intros [= _ _ <-]. apply (strptime_valid _ _ _ Hp). }
    assert (Hold : Forall (fun r : str * datetime => valid_datetime r.2)
                     (default [] (versions !! (major, minor)))).
    { destruct (versions !! (major, minor)) as [g|] eqn:Hg'; [|constructor].
      apply (Hg _ _ Hg'). }
    rewrite lookup_insert. case_decide as Hkey.
    + intros [= <-]. split; [now destruct (default [] _)|].
      apply Forall_app. split; [exact Hold | now constructor].
    + apply Hg.
Qed.

Lemma well_grouped_empty : Spec.well_grouped ∅.
Proof. intros key group. now rewrite lookup_empty. Qed.

(** The supported set of well-grouped versions is not empty, and its
    entries are entries of the groups. *)
Lemma supported_of_well_grouped (now : datetime)
    (versions : gmap (Z * Z) (list Contrib.release)) :
  Spec.well_grouped versions -> versions <> ∅ ->
  exists first rest,
    Contrib.end_of_life_grouped_versions now versions = Ok (first :: rest)
    /\ Forall (fun r => valid_datetime r.2) (first :: rest).
Proof.
  intros Hg Hne.
  assert (Hgrouped : Spec.grouped versions) by (intros k g Hk; apply (Hg k g Hk)).
  destruct (nonempty_items _ Hne) as (latest & others & Hs).
  destruct (evaluator_decomposed now _ _ _ Hgrouped Hs) as (first & cs & Hlast & Hcs & Hr).
  exists first, (concat cs). split; [exact Hr|].
  destruct (sorted_items_head _ _ _ Hs) as (Htop & _ & Hothers).
  constructor.
  - destruct (Hg _ _ Htop) as [_ Hall]. rewrite Forall_forall in Hall.
    apply Hall. now apply last_Some_elem_of.
  - apply Forall_concat.
    assert (Hin : Forall (fun v => Forall (fun r => valid_datetime r.2) v.2) others).
    { apply Forall_forall. intros [k g] Hk. apply Hothers in Hk as [Hk _].
      apply (Hg _ _ Hk). }
    clear -Hcs Hin. induction Hcs as [|v c others cs Hd _ IH]; [constructor|].
    apply Forall_cons in Hin as [Hv Hin]. constructor; [|auto].
    apply decision_included in Hd as [_ Hsub].
    rewrite Forall_forall in Hv |- *. auto.
Qed.

Lemma print_image_raises (args : gmap string value) (r : Contrib.release)
    (w : world) (st : state) :
  parsed args ->
  Contrib.print_image args r w st = (st, Raise (AttributeError "repo")).
Proof.
  intros (_ & _ & _ & Hnone). unfold Contrib.print_image.
  apply bind_raise. unfold lift, getattr.
  rewrite (Hnone "repo") by done. reflexivity.
Qed.

(** C9.  In the copy under [src/contrib], a run with the doc flag that
    gets a non-empty supported set for its first repository prints the
    display section and the heading of the doc section, and then stops on
    the [AttributeError] of [args.repo], an attribute the parser never
    sets: no line with a tag and an image is printed. *)
Theorem contrib_doc_flag_crashes (fuel : nat) (line : list occurrence)
    (w : world) (st st1 : state) (args : gmap string value)
    (repo : str) (repos : list str) (output : str)
    (versions : gmap (Z * Z) (list Contrib.release)) :
  (1 <= fuel)%nat ->
  (forall n, valid_datetime (clock w n)) ->
  gh_on_path w = true ->
  parse_args Contrib.parser line w st = (st1, Ok args) ->
  getattr args "doc" = Ok (VBool true) ->
  getattr args "repos" = Ok (VList (repo :: repos)) ->
  check_output w [py "gh"; py "release"; py "-R"; repo; py "list"] = Ok output ->
  Contrib.group_lines (split_on (chr "010") (strip output)) ∅ = Ok versions ->
  versions <> ∅ ->
  exists supported lines,
    Contrib.end_of_life_grouped_versions (clock w (readings st1)) versions
    = Ok supported
    /\ supported <> [] /\ length lines = length supported
    /\ getattr args "repo" = Raise (AttributeError "repo")
    /\ Contrib.main fuel line w st
       = ({| readings := S (readings st1) + length supported;
             stdout := (stdout st1 ++ [Line (Spec.display_heading repo)])
                         ++ map Line lines ++ [Line Spec.doc_heading] |},
          Raise (AttributeError "repo")).
Proof.
  intros Hfuel Hclock Hgh Hparse Hdoc Hrepos Hout Hgroup Hne.
  assert (Hargs : parsed args) by (eapply contrib_parse_args_parsed; exact Hparse).
  pose proof (group_lines_grouped _ _ _ well_grouped_empty Hgroup) as Hg.
  destruct (supported_of_well_grouped (clock w (readings st1)) versions Hg Hne)
    as (first & rest & Heol & Hvalid).
  set (st2 := {| readings := S (readings st1);
                 stdout := stdout st1 ++ [Line (Spec.display_heading repo)] |}).
  destruct (print_releases fuel w (first :: rest) Hclock Hfuel Hvalid st2)
    as (lines & Hlen & Hprint).
  exists (first :: rest), lines.
  split; [done|]. split; [done|]. split; [done|]. split.
  { destruct Hargs as (_ & _ & _ & Hnone). unfold getattr.
    now rewrite (Hnone "repo"). }
  unfold Contrib.main. rewrite (bind_ok _ _ _ _ _ _ Hparse).
  assert (Hcheck : Contrib.check_gh_command w st1 = (st1, Ok tt)).
  { unfold Contrib.check_gh_command. cbv [mbind run_bind ask]. now rewrite Hgh. }
  rewrite (bind_ok _ _ _ _ _ _ Hcheck).
  assert (Hiter : lift (getattr args "repos" ≫= iterate) w st1
                  = (st1, Ok (repo :: repos))).
  { unfold lift. now rewrite Hrepos. }
  rewrite (bind_ok _ _ _ _ _ _ Hiter). cbn [for_each].
  apply bind_raise. unfold Contrib.process_repo.
  assert (Hversions : Contrib.get_versions_from_releases repo w st1 = (st1, Ok versions)).
  { unfold Contrib.get_versions_from_releases. cbv [mbind run_bind lift].
    now rewrite Hout, Hgroup. }
  rewrite (bind_ok _ _ _ _ _ _ Hversions).
  assert (Hnow : datetime_now w st1
                 = ({| readings := S (readings st1); stdout := stdout st1 |},
                    Ok (clock w (readings st1)))) by reflexivity.
  rewrite (bind_ok _ _ _ _ _ _ Hnow).
  assert (Hlift : forall st', lift (Contrib.end_of_life_grouped_versions
                                      (clock w (readings st1)) versions) w st'
                              = (st', Ok (first :: rest))).
  { intros st'. unfold lift. now rewrite Heol. }
  rewrite (bind_ok _ _ _ _ _ _ (Hlift _)).
  assert (Hdisplay : forall st', lift (getattr args "display") w st'
                                 = (st', Ok (VBool true))).
  { intros st'. unfold lift, getattr. now rewrite (proj1 Hargs). }
  rewrite (bind_ok _ _ _ _ _ _ (Hdisplay _)). cbn [truthy].
  assert (Hsection :
    (print (py "Supported versions with release date and age of `" ++ repo
              ++ py "`:" ++ [chr "010"]);;
     for_each (first :: rest) (Contrib.print_release fuel)) w
      {| readings := S (readings st1); stdout := stdout st1 |}
    = ({| readings := readings st2 + length (first :: rest);
          stdout := stdout st2 ++ map Line lines |}, Ok tt)).
  { erewrite bind_ok; [exact Hprint | reflexivity]. }
  rewrite (bind_ok _ _ _ _ _ _ Hsection).
  assert (Htruthy : forall st', lift (getattr args "doc") w st' = (st', Ok (VBool true))).
  { intros st'. unfold lift. now rewrite Hdoc. }
  rewrite (bind_ok _ _ _ _ _ _ (Htruthy _)). cbn [truthy].
  apply bind_raise. erewrite bind_ok; [|reflexivity].
  cbn [for_each]. erewrite bind_raise; [|now apply print_image_raises].
  cbn [readings stdout st2]. f_equal. f_equal.
  now rewrite <- app_assoc.
Qed.

End DocFlag.

Lemma contrib_doc_flag_crashes_witness :
  exists supported lines,
    @Contrib.end_of_life_grouped_versions
      (clock sample_world (readings initial)) scenario = Ok supported
    /\ supported <> [] /\ length lines = length supported
    /\ getattr doc_args "repo" = Raise (AttributeError "repo")
    /\ @Contrib.main ascii_only iso_time_format 1 doc_line sample_world initial
       = ({| readings := S (readings initial) + length supported;
             stdout := (stdout initial ++ [Line (Spec.display_heading attacher)])
                         ++ map Line lines ++ [Line Spec.doc_heading] |},
          Raise (AttributeError "repo")).
Proof.
  apply (@contrib_doc_flag_crashes ascii_only iso_time_format 1 doc_line
           sample_world initial initial doc_args attacher [] listing scenario).
  - lia.
  - intros n. unfold valid_datetime. cbn. lia.
  - reflexivity.
  - vm_compute. reflexivity.
  - reflexivity.
  - reflexivity.
  - reflexivity.
  - vm_compute. reflexivity.
  - exact scenario_nonempty.
Defined.

(** ** The release grouper *)

Section Grouper.
Context {U : Unicode} {T : TimeFormat}.

Lemma split_on_first (sep : char) (s : str) :
  exists part parts,
    split_on sep s = part :: parts /\ (sep ∉ part) /\ (part `prefix_of` s).
Proof.
  induction s as [|c s (part & parts & IH & Hsep & Hpre)].
  - exists [], []. repeat split; [apply not_elem_of_nil | done].
  - cbn [split_on]. destruct (N.eqb_spec c sep) as [->|Hne].
    + exists [], (split_on sep s). repeat split; [apply not_elem_of_nil|].
      apply prefix_nil.
    + rewrite IH. exists (c :: part), parts. repeat split.
      * rewrite not_elem_of_cons. auto.
      * now apply prefix_cons.
Qed.

(** X3.  How [get_versions_from_releases] reads one line of the listing.
    The tag is the text before the first tab.  A line whose tag is no
    version is skipped, whatever else it holds; a line whose tag holds a
    number with more digits than [int] converts raises the [ValueError] of
    [int]; a line with a version tag needs a fourth field, or the lookup
    of [parts[3]] raises [IndexError]; and the fourth field goes to
    [strptime], whose exception, if any, is the outcome. *)
Theorem read_line_cases (line : str) :
  exists version fields,
    split_on (chr "009") line = version :: fields
    /\ (chr "009" ∉ version) /\ (version `prefix_of` line)
    /\ ((ReleaseTools.parse_version version = Ok None
         /\ ReleaseTools.read_line line = Ok None)
        \/ (ReleaseTools.parse_version version = Raise ValueError
            /\ ReleaseTools.read_line line = Raise ValueError)
        \/ exists major minor patch,
             ReleaseTools.parse_version version = Ok (Some (major, minor, patch))
             /\ ReleaseTools.read_line line
                = match fields !! 2%nat with
                  | None => Raise (IndexError "list index out of range")
                  | Some field =>
                      published ← strptime field "%Y-%m-%dT%H:%M:%SZ";
                      Ok (Some (major, minor, (version, published)))
                  end).
Proof.
  destruct (split_on_first (chr "009") line) as (version & fields & Hs & Htab & Hpre).
  exists version, fields. repeat (split; [done|]).
  unfold ReleaseTools.read_line. rewrite Hs. cbn [item_at lookup list_lookup mbind result_bind].
  destruct (parse_version_outcomes version) as [->|[[[[major minor] patch]|] ->]];
    cbn [mbind result_bind].
  - right. now left.
  - right. right. exists major, minor, patch. split; [done|].
    unfold item_at. change ((version :: fields) !! 3%nat) with (fields !! 2%nat).
    now destruct (fields !! 2%nat).
  - now left.
Qed.

(** What a line that is kept was read from. *)
Lemma read_line_kept (line : str) (major minor : Z) (x : ReleaseTools.release) :
  ReleaseTools.read_line line = Ok (Some (major, minor, x)) ->
  (exists patch, ReleaseTools.parse_version x.1 = Ok (Some (major, minor, patch)))
  /\ valid_datetime x.2.
Proof.
  unfold ReleaseTools.read_line.
  destruct (item_at _ 0) as [version| |]; cbn [mbind result_bind]; try discriminate.
  destruct (ReleaseTools.parse_version version) as [[[[ma mi] pa]|]| |] eqn:Hv;
    cbn [mbind result_bind]; try discriminate.
  destruct (item_at _ 3) as [field| |]; cbn [mbind result_bind]; try discriminate.
  destruct (strptime field _) as [published| |] eqn:Hp;
    cbn [mbind result_bind]; try discriminate.
  intros [= <- <- <-]. split; [eauto|]. apply (strptime_valid _ _ _ Hp).
Qed.

Lemma map_result_Ok {A B} (f : A -> result B) (xs : list A) (ys : list B) :
  map_result f xs = Ok ys -> Forall2 (fun x y => f x = Ok y) xs ys.
Proof.
  revert ys. induction xs as [|x xs IH]; intros ys; cbn [map_result].
  - intros [= <-]. constructor.
  - destruct (f x) as [y| |] eqn:Hx; cbn [mbind result_bind]; try discriminate.
    destruct (map_result f xs) as [ys'| |]; cbn [mbind result_bind]; try discriminate.
    intros [= <-]. constructor; auto.
Qed.

Lemma filed_under_cons (key : Z * Z) (major minor : Z) (x : ReleaseTools.release)
    (entries : list (option (Z * Z * ReleaseTools.release))) :
  filed_under key (Some (major, minor, x) :: entries)
  = if bool_decide ((major, minor) = key) then x :: filed_under key entries
    else filed_under key entries.
Proof. unfold filed_under. cbn [omap list_omap]. now case_bool_decide. Qed.

(** The grouper appends what the lines file under a key to what the
    mapping held under it, and stops at the first line that raises. *)
Lemma group_lines_filed (lines : list str) :
  forall acc : gmap (Z * Z) (list ReleaseTools.release),
    match map_result ReleaseTools.read_line lines with
    | Ok entries =>
        exists versions,
          ReleaseTools.group_lines lines acc = Ok versions
          /\ forall key,
               versions !! key
               = match acc !! key, filed_under key entries with
                 | None, [] => None
                 | g, filed => Some (default [] g ++ filed)
                 end
    | Raise e => ReleaseTools.group_lines lines acc = Raise e
    | Unfinished => ReleaseTools.group_lines lines acc = Unfinished
    end.
Proof.
  induction lines as [|line lines IH]; intros acc.
  - cbn [map_result ReleaseTools.group_lines]. exists acc. split; [done|].
    intros key. cbn. destruct (acc !! key); cbn; [now rewrite app_nil_r | done].
  - cbn [map_result ReleaseTools.group_lines].
    destruct (ReleaseTools.read_line line) as [[[[major minor] x]|]| |];
      cbn [mbind result_bind]; try done.
    + specialize (IH (ReleaseTools.append_to acc (major, minor) x)).
      destruct (map_result ReleaseTools.read_line lines) as [entries| |];
        cbn [mbind result_bind]; try done.
      destruct IH as (versions & -> & Hl). exists versions. split; [done|].
      intros key. rewrite Hl, filed_under_cons. unfold ReleaseTools.append_to.
      case_bool_decide as Hk.
      * subst key. rewrite lookup_insert_eq.
        destruct (acc !! (major, minor)), (filed_under _ entries);
          cbn [default from_option id]; now rewrite <- ?app_assoc.
      * now rewrite lookup_insert_ne.
    + specialize (IH acc).
      destruct (map_result ReleaseTools.read_line lines) as [entries| |];
        cbn [mbind result_bind]; try done.
Qed.

(** X2.  The grouper keeps the order of the listing: when every line reads
    without an exception, the group of a key holds the releases of the
    lines that carry a tag of that key, in the order of the lines, and a
    key that no line carries has no group; when a line raises, the
    exception of the first such line is the outcome and no mapping is
    returned. *)
Theorem grouper_keeps_listing_order (lines : list str) :
  (forall entries,
     map_result ReleaseTools.read_line lines = Ok entries ->
     exists versions,
       ReleaseTools.group_lines lines ∅ = Ok versions
       /\ forall key,
            versions !! key
            = match filed_under key entries with
              | [] => None
              | filed => Some filed
              end)
  /\ (forall e,
        map_result ReleaseTools.read_line lines = Raise e ->
        ReleaseTools.group_lines lines ∅ = Raise e).
Proof.
  pose proof (group_lines_filed lines ∅) as H. split.
  - intros entries He. rewrite He in H. destruct H as (versions & Hv & Hl).
    exists versions. split; [done|]. intros key. rewrite Hl, lookup_empty.
    now destruct (filed_under key entries).
  - intros e He. now rewrite He in H.
Qed.

Lemma elem_of_filed_under (key : Z * Z) (x : ReleaseTools.release)
    (entries : list (option (Z * Z * ReleaseTools.release))) :
  x ∈ filed_under key entries -> Some (key.1, key.2, x) ∈ entries.
Proof.
  unfold filed_under. rewrite list_elem_of_omap.
  intros ([[[major minor] y]|] & Hin & Hf); [|done].
  case_bool_decide as Hk; [|done]. injection Hf as ->. now subst key.
Qed.

(** The invariant of the mapping that the grouper returns. *)
Lemma group_lines_invariant (lines : list str)
    (versions : gmap (Z * Z) (list ReleaseTools.release)) :
  ReleaseTools.group_lines lines ∅ = Ok versions ->
  forall key group,
    versions !! key = Some group ->
    group <> []
    /\ Forall (fun r =>
                 valid_datetime r.2
                 /\ exists patch,
                      ReleaseTools.parse_version r.1
                      = Ok (Some (key.1, key.2, patch))) group.
Proof.
  intros Hg key group Hk. pose proof (group_lines_filed lines ∅) as H.
  destruct (map_result ReleaseTools.read_line lines) as [entries| |] eqn:He;
    [|congruence..].
  destruct H as (versions' & Hv & Hl).
  assert (versions' = versions) as -> by congruence.
  rewrite Hl, lookup_empty in Hk.
  assert (Hfiled : filed_under key entries = group /\ group <> []).
  { destruct (filed_under key entries); [done|]. now injection Hk as <-. }
  destruct Hfiled as [<- Hne]. split; [done|].
  apply Forall_forall. intros r Hr%elem_of_filed_under.
  apply map_result_Ok in He.
  destruct (proj1 (list_elem_of_lookup _ _) Hr) as [i Hi].
  destruct (Forall2_lookup_r _ _ _ _ _ He Hi) as (line & _ & Hline).
  destruct (read_line_kept _ _ _ _ Hline) as [Hpatch Hvalid]. auto.
Qed.

(** X1.  In the mapping that the grouper returns no group is empty, every
    release is filed under the major and minor number that its own tag
    parses to, and every timestamp is one that [strptime] returned, a
    datetime Python can build. *)
Theorem grouper_files_by_tag (lines : list str)
    (versions : gmap (Z * Z) (list ReleaseTools.release)) :
  ReleaseTools.group_lines lines ∅ = Ok versions ->
  forall key group,
    versions !! key = Some group ->
    group <> []
    /\ Forall (fun r =>
                 valid_datetime r.2
                 /\ exists patch,
                      ReleaseTools.parse_version r.1
                      = Ok (Some (key.1, key.2, patch))) group.
Proof. exact (group_lines_invariant lines versions). Qed.

Lemma lstrip_blank (s : str) :
  Forall (fun c => is_space c = true) s -> lstrip s = [].
Proof. induction 1 as [|c s Hc _ IH]; [done|]. cbn [lstrip]. now rewrite Hc. Qed.

(** X4.  A listing that is empty or blank gives the empty mapping, and no
    exception: its one line, the empty string, carries no version tag. *)
Theorem blank_listing_has_no_group (repo : str) (w : world) (st : state)
    (output : str) :
  check_output w [py "gh"; py "release"; py "-R"; repo; py "list"] = Ok output ->
  Forall (fun c => is_space c = true) output ->
  ReleaseTools.get_versions_from_releases repo w st = (st, Ok ∅).
Proof.
  intros Hout Hblank. unfold ReleaseTools.get_versions_from_releases.
  cbv [mbind run_bind lift]. rewrite Hout.
  unfold strip. rewrite (lstrip_blank _ Hblank). reflexivity.
Qed.

End Grouper.

Lemma grouper_files_by_tag_witness :
  [v3_4_1; v3_4_0] <> []
  /\ Forall (fun r : ReleaseTools.release =>
               valid_datetime r.2
               /\ exists patch,
                    @ReleaseTools.parse_version ascii_only r.1
                    = Ok (Some (3, 4, patch))) [v3_4_1; v3_4_0].
Proof.
  apply (@grouper_files_by_tag ascii_only iso_time_format listing_lines scenario
           ltac:(vm_compute; reflexivity) (3, 4) [v3_4_1; v3_4_0]).
  reflexivity.
Defined.

Lemma blank_listing_has_no_group_witness :
  @ReleaseTools.get_versions_from_releases ascii_only iso_time_format attacher
    blank_world initial = (initial, Ok ∅).
Proof.
  apply (@blank_listing_has_no_group ascii_only iso_time_format attacher
           blank_world initial blank_listing).
  - reflexivity.
  - vm_compute. repeat constructor.
Defined.

Lemma grouper_keeps_listing_order_witness :
  exists versions,
    @ReleaseTools.group_lines ascii_only iso_time_format listing_lines ∅ = Ok versions
    /\ forall key,
         versions !! key
         = match filed_under key listing_entries with
           | [] => None
           | filed => Some filed
           end.
Proof.
  apply (proj1 (@grouper_keeps_listing_order ascii_only iso_time_format listing_lines)).
  vm_compute. reflexivity.
Defined.

(** ** The evaluator on what the grouper returns *)

Section SortedItemsOfImages.
Context {V W : Type}.

(** Sorting commutes with a change of the values: the keys alone decide
    the order, and they are distinct. *)
Lemma sorted_items_fmap (f : V -> W) (d : gmap (Z * Z) V) :
  sorted_items_desc (f <$> d) = prod_map id f <$> sorted_items_desc d.
Proof.
  apply (StronglySorted_unique_strong key_ge).
  - intros [k1 v1] [k2 v2] H1 H2 Hge Hle.
    assert (k1 = k2) as <- by (apply tuple_le_antisym; [exact Hle | exact Hge]).
    apply elem_of_sorted_items in H1.
    assert (Hin : (k1, v2) ∈ sorted_items_desc (f <$> d)).
    { rewrite sorted_items_perm, map_to_list_fmap, <- sorted_items_perm. exact H2. }
    apply elem_of_sorted_items in Hin. congruence.
  - apply sorted_items_sorted.
  - apply (StronglySorted_fmap _ key_ge); [|apply sorted_items_sorted].
    intros [k1 v1] [k2 v2] H. exact H.
  - now rewrite !sorted_items_perm, map_to_list_fmap.
Qed.

End SortedItemsOfImages.

Section EvaluatorFacts.
Implicit Types (versions : gmap (Z * Z) (list ReleaseTools.release)).

Lemma first_item_ends {A} (group : list A) : first_item (ends group) = first_item group.
Proof. now destruct group. Qed.

Lemma last_item_ends {A} (group : list A) : last_item (ends group) = last_item group.
Proof.
  unfold last_item. destruct group as [|x rest]; [done|]. cbn [ends].
  rewrite !last_cons. now destruct (last rest).
Qed.

Lemma eol_loop_ends now (items : list (Z * Z * list ReleaseTools.release)) :
  forall supported,
    ReleaseTools.eol_loop now (prod_map id ends <$> items) supported
    = ReleaseTools.eol_loop now items supported.
Proof.
  induction items as [|[k g] items IH]; intros supported; [done|].
  cbn [fmap list_fmap prod_map ReleaseTools.eol_loop fst snd].
  rewrite first_item_ends, last_item_ends.
  destruct (last_item g); cbn [mbind result_bind]; try done.
  destruct (first_item g); cbn [mbind result_bind]; try done.
  now rewrite !IH.
Qed.

(** X7.  The evaluator reads the first and the last entry of every group
    and nothing in between: on the mapping whose groups are cut down to
    those two entries it returns what it returns on the full mapping. *)
Theorem evaluator_reads_ends_only now versions :
  ReleaseTools.end_of_life_grouped_versions now (ends <$> versions)
  = ReleaseTools.end_of_life_grouped_versions now versions.
Proof.
  unfold ReleaseTools.end_of_life_grouped_versions. rewrite sorted_items_fmap.
  destruct (sorted_items_desc versions) as [|[k g] others]; [done|].
  cbn [fmap list_fmap prod_map fst snd]. rewrite last_item_ends.
  destruct (last_item g); cbn [mbind result_bind]; try done.
  apply eol_loop_ends.
Qed.

(** The loop adds to the list it is given, whatever that list holds. *)
Lemma eol_loop_app now (items : list (Z * Z * list ReleaseTools.release)) :
  forall supported,
    ReleaseTools.eol_loop now items supported
    = (added ← ReleaseTools.eol_loop now items []; Ok (supported ++ added)).
Proof.
  induction items as [|v items IH]; intros supported.
  - cbn. now rewrite app_nil_r.
  - cbn [ReleaseTools.eol_loop].
    destruct (last_item v.2) as [oldest| |]; cbn [mbind result_bind]; try done.
    destruct (first_item v.2) as [newest| |]; cbn [mbind result_bind]; try done.
    assert (Hadd : ReleaseTools.eol_loop now items (supported ++ [newest])
                   = (added ← ReleaseTools.eol_loop now items ([] ++ [newest]);
                      Ok (supported ++ added))).
    { rewrite (IH (supported ++ [newest])), (IH ([] ++ [newest])).
      destruct (ReleaseTools.eol_loop now items []); cbn [mbind result_bind]; try done.
      now rewrite <- app_assoc. }
    destruct (_ <? _); [exact Hadd|]. destruct (_ <? _); [exact Hadd|]. apply IH.
Qed.

Lemma datetime_sub_later (now later dt : datetime) :
  datetime_sub later dt = datetime_sub now dt + datetime_sub later now.
Proof. unfold datetime_sub. lia. Qed.

Lemma eol_loop_later now later (items : list (Z * Z * list ReleaseTools.release)) :
  0 <= datetime_sub later now ->
  forall added,
    ReleaseTools.eol_loop now items [] = Ok added ->
    exists still,
      ReleaseTools.eol_loop later items [] = Ok still /\ still `sublist_of` added.
Proof.
  intros Hlater. induction items as [|v items IH]; intros added.
  - cbn. intros [= <-]. eauto.
  - cbn [ReleaseTools.eol_loop].
    destruct (last_item v.2) as [oldest| |]; cbn [mbind result_bind]; try done.
    destruct (first_item v.2) as [newest| |]; cbn [mbind result_bind]; try done.
    rewrite (datetime_sub_later now later oldest.2),
      (datetime_sub_later now later newest.2).
    rewrite !(eol_loop_app now items ([] ++ [newest])),
      !(eol_loop_app later items ([] ++ [newest])).
    destruct (ReleaseTools.eol_loop now items []) as [rest| |] eqn:Hrest;
      cbn [mbind result_bind];
      [|repeat (destruct (_ <? _)); discriminate..].
    destruct (IH rest eq_refl) as (still & -> & Hsub). cbn [mbind result_bind app].
    destruct (Z.ltb_spec (datetime_sub now oldest.2) (timedelta_days 365));
      destruct (Z.ltb_spec (datetime_sub now oldest.2 + datetime_sub later now)
                  (timedelta_days 365)); try lia;
      destruct (Z.ltb_spec (datetime_sub now newest.2) (timedelta_days 90));
      destruct (Z.ltb_spec (datetime_sub now newest.2 + datetime_sub later now)
                  (timedelta_days 90)); try lia;
      intros [= <-]; eexists; (split; [reflexivity|]);
      auto using sublist_skip, sublist_cons.
Qed.

(** X8.  Support only shrinks with time: evaluated at a later moment, the
    same mapping gives a sublist of what it gave before, in the same
    order and with the same first entry, that of the newest group. *)
Theorem support_only_shrinks now later versions
    (supported : list ReleaseTools.release) :
  0 <= datetime_sub later now ->
  ReleaseTools.end_of_life_grouped_versions now versions = Ok supported ->
  exists still,
    ReleaseTools.end_of_life_grouped_versions later versions = Ok still
    /\ still `sublist_of` supported /\ head still = head supported.
Proof.
  intros Hlater. unfold ReleaseTools.end_of_life_grouped_versions.
  destruct (sorted_items_desc versions) as [|latest others]; [done|].
  destruct (last_item latest.2) as [newest| |]; cbn [mbind result_bind]; try done.
  rewrite (eol_loop_app now), (eol_loop_app later).
  destruct (ReleaseTools.eol_loop now others []) as [added| |] eqn:Hadded;
    cbn [mbind result_bind]; try done.
  destruct (eol_loop_later now later others Hlater added Hadded) as (still & -> & Hsub).
  cbn [mbind result_bind app]. intros [= <-].
  exists (newest :: still). split; [done|]. split; [|done]. now apply sublist_skip.
Qed.

End EvaluatorFacts.

Section EvaluatorOnListing.
Context {U : Unicode} {T : TimeFormat}.
Implicit Types (versions : gmap (Z * Z) (list ReleaseTools.release)).

Lemma group_lines_nonempty_groups (lines : list str) versions :
  ReleaseTools.group_lines lines ∅ = Ok versions -> Spec.grouped versions.
Proof. intros Hg key group Hk. apply (group_lines_invariant lines versions Hg key group Hk). Qed.

Lemma contributions_length now (others : list (Z * Z * list ReleaseTools.release))
    (contributions : list (list ReleaseTools.release)) :
  Forall2 (fun v included => Spec.decision now v.2 included) others contributions ->
  (length (concat contributions) <= length others)%nat.
Proof.
  induction 1 as [|v c others cs Hd _ IH]; [done|].
  apply decision_included in Hd as [Hlen _].
  cbn [concat length]. rewrite length_app. lia.
Qed.

Lemma listed_releases_supported now (lines : list str) versions :
  ReleaseTools.group_lines lines ∅ = Ok versions ->
  versions <> ∅ ->
  exists supported,
    ReleaseTools.end_of_life_grouped_versions now versions = Ok supported
    /\ (1 <= length supported <= size versions)%nat
    /\ Forall (fun r => exists key group,
                          versions !! key = Some group /\ r ∈ group) supported.
Proof.
  intros Hlines Hne. pose proof (group_lines_nonempty_groups _ _ Hlines) as Hg.
  destruct (nonempty_items _ Hne) as (latest & others & Hs).
  destruct (evaluator_decomposed now _ _ _ Hg Hs) as (first & cs & Hlast & Hcs & Hr).
  destruct (sorted_items_head _ _ _ Hs) as (Htop & _ & Hothers).
  exists (first :: concat cs). split; [done|]. split.
  - pose proof (contributions_length now others cs Hcs) as Hlen.
    rewrite <- length_map_to_list, <- (Permutation_length (sorted_items_perm versions)), Hs.
    cbn [length]. lia.
  - constructor.
    + exists latest.1, latest.2. split; [done|]. now apply last_Some_elem_of.
    + apply Forall_concat.
      assert (Hin : Forall (fun v => versions !! v.1 = Some v.2) others).
      { apply Forall_forall. intros [k g] Hk. now apply Hothers in Hk as [Hk _]. }
      clear -Hcs Hin. induction Hcs as [|v c others cs Hd _ IH]; [constructor|].
      apply Forall_cons in Hin as [Hv Hin]. constructor; [|auto].
      apply decision_included in Hd as [_ Hsub].
      apply Forall_forall. intros r Hr. exists v.1, v.2. auto.
Qed.


(** The entries that sorted items contribute, at most one an item and each
    from its item, carry strictly descending keys. *)
Lemma contributions_descend (P : ReleaseTools.release -> Z * Z -> Prop)
    (items : list (Z * Z * list ReleaseTools.release))
    (contributions : list (list ReleaseTools.release)) :
  StronglySorted key_ge items -> NoDup items.*1 ->
  Forall (fun v => Forall (fun r => P r v.1) v.2) items ->
  Forall2 (fun v included =>
             (length included <= 1)%nat /\ forall r, r ∈ included -> r ∈ v.2)
    items contributions ->
  exists keys,
    Forall2 P (concat contributions) keys
    /\ StronglySorted (fun a b => tuple_le b a /\ a <> b) keys
    /\ Forall (fun key => key ∈ items.*1) keys.
Proof.
  intros Hsorted Hnd Hall Hcs. revert Hsorted Hnd Hall.
  induction Hcs as [|v c items cs [Hlen Hsub] _ IH]; intros Hsorted Hnd Hall.
  - exists []. repeat constructor.
  - apply StronglySorted_cons in Hsorted as [Hge Hsorted].
    rewrite fmap_cons in Hnd. apply NoDup_cons in Hnd as [Hnotin Hnd].
    apply Forall_cons in Hall as [Hv Hall].
    destruct (IH Hsorted Hnd Hall) as (keys & Hkeys & Hdesc & Hin).
    assert (Hin' : Forall (fun key => key ∈ (v :: items).*1) keys).
    { eapply Forall_impl; [exact Hin|]. intros key Hk. rewrite fmap_cons. now right. }
    destruct c as [|r [|r' c]]; [| |cbn in Hlen; lia].
    + exists keys. auto.
    + exists (v.1 :: keys). cbn [concat app]. split; [|split].
      * constructor; [|done]. rewrite Forall_forall in Hv. apply Hv, Hsub. left.
      * constructor; [done|]. apply Forall_forall. intros key Hk.
        rewrite Forall_forall in Hin. specialize (Hin _ Hk).
        split; [|intros <-; done].
        apply list_elem_of_fmap in Hin as ([k g] & -> & Hitem).
        rewrite Forall_forall in Hge. apply (Hge _ Hitem).
      * constructor; [|done]. rewrite fmap_cons. left.
Qed.

(** X6.  The supported set of a listing runs from the newest minor line
    down: the major and minor numbers that the tags of its entries parse to
    descend strictly, so no two entries are of the same minor line. *)
Theorem supported_newest_first now (lines : list str) versions
    (supported : list ReleaseTools.release) :
  ReleaseTools.group_lines lines ∅ = Ok versions ->
  ReleaseTools.end_of_life_grouped_versions now versions = Ok supported ->
  exists keys,
    Forall2 (fun r key =>
               exists patch,
                 ReleaseTools.parse_version r.1 = Ok (Some (key.1, key.2, patch)))
      supported keys
    /\ StronglySorted (fun a b => tuple_le b a /\ a <> b) keys.
Proof.
  intros Hlines Heol. pose proof (group_lines_nonempty_groups _ _ Hlines) as Hg.
  assert (Hne : versions <> ∅).
  { intros ->. now rewrite evaluator_on_empty in Heol. }
  destruct (nonempty_items _ Hne) as (latest & others & Hs).
  destruct (evaluator_decomposed now _ _ _ Hg Hs) as (first & cs & Hlast & Hcs & Hr).
  assert (supported = concat ([first] :: cs)) as -> by (cbn; congruence).
  destruct (contributions_descend
              (fun r key => exists patch,
                 ReleaseTools.parse_version r.1 = Ok (Some (key.1, key.2, patch)))
              (sorted_items_desc versions) ([first] :: cs)) as (keys & Hkeys & Hdesc & _).
  - apply sorted_items_sorted.
  - apply NoDup_sorted_keys.
  - apply Forall_forall. intros [k g] Hk%elem_of_sorted_items.
    destruct (group_lines_invariant _ _ Hlines k g Hk) as [_ Hall].
    eapply Forall_impl; [exact Hall|]. intros r [_ Hp]. exact Hp.
  - rewrite Hs. constructor.
    + split; [cbn; lia|]. intros r ->%list_elem_of_singleton.
      now apply last_Some_elem_of.
    + clear -Hcs. induction Hcs; constructor; auto. now apply (decision_included now).
  - eauto.
Qed.

End EvaluatorOnListing.

Lemma support_only_shrinks_witness :
  exists still,
    ReleaseTools.end_of_life_grouped_versions may_2024 scenario = Ok still
    /\ still `sublist_of` [v3_5_0; v3_4_1] /\ head still = head [v3_5_0; v3_4_1].
Proof.
  apply (support_only_shrinks may_2023 may_2024 scenario [v3_5_0; v3_4_1]).
  - vm_compute. discriminate.
  - vm_compute. reflexivity.
Defined.


Lemma supported_newest_first_witness :
  exists keys,
    Forall2 (fun r key =>
               exists patch,
                 @ReleaseTools.parse_version ascii_only r.1
                 = Ok (Some (key.1, key.2, patch)))
      [v3_5_0; v3_4_1] keys
    /\ StronglySorted (fun a b => tuple_le b a /\ a <> b) keys.
Proof.
  apply (@supported_newest_first ascii_only iso_time_format may_2023
           listing_lines scenario [v3_5_0; v3_4_1]).
  - vm_compute. reflexivity.
  - vm_compute. reflexivity.
Defined.

(** ** Humanized durations, in general *)

Section Durations.

Lemma moved_to_valid (dt : datetime) (y m : Z) :
  valid_datetime dt -> 1 <= y <= 9999 -> 1 <= m <= 12 ->
  valid_datetime (moved_to dt y m).
Proof.
  intros (_ & _ & Hd & Ht) Hy Hm. pose proof (days_in_month_range y m Hm).
  unfold valid_datetime, moved_to. cbn [year month day hour minute second microsecond].
  repeat split; try lia; apply Ht.
Qed.

(** Months apart on the calendar are days apart. *)
Lemma toordinal_months (a b : datetime) :
  valid_datetime a -> valid_datetime b ->
  12 * year a + month a < 12 * year b + month b ->
  toordinal a < toordinal b.
Proof.
  intros Ha Hb Hlt.
  destruct (toordinal_index a Ha) as (Hoa & Hda & _).
  destruct (toordinal_index b Hb) as (Hob & Hdb & _).
  cbv zeta in *.
  set (ia := 12 * year a + month a - 1) in *.
  set (ib := 12 * year b + month b - 1) in *.
  pose proof (days_before_index_mono (ia + 1) (ib - ia - 1) ltac:(lia)) as Hmono.
  replace (ia + 1 + (ib - ia - 1)) with ib in Hmono by lia. lia.
Qed.

(** The order of datetimes, field by field, is the order of their
    distances from the start of the calendar. *)
Lemma datetime_lt_spec (a b : datetime) :
  valid_datetime a -> valid_datetime b ->
  datetime_lt a b = (to_microseconds a <? to_microseconds b).
Proof.
  intros Ha Hb.
  pose proof (toordinal_months a b Ha Hb) as Hab.
  pose proof (toordinal_months b a Hb Ha) as Hba.
  assert (Hsame : year a = year b -> month a = month b ->
                  toordinal a - toordinal b = day a - day b).
  { intros Hy Hm. unfold toordinal, ymd2ord. rewrite Hy, Hm. lia. }
  destruct Ha as (_ & Hma & _ & Hha & Hmia & Hsa & Husa).
  destruct Hb as (_ & Hmb & _ & Hhb & Hmib & Hsb & Husb).
  unfold datetime_lt, fields. cbn [list_lt].
  unfold to_microseconds, seconds_of_day.
  destruct (Z.ltb_spec (year a) (year b)); cbn [orb];
    [symmetry; apply Z.ltb_lt; lia|].
  destruct (Z.eqb_spec (year a) (year b)); cbn [andb];
    [|symmetry; apply Z.ltb_ge; lia].
  destruct (Z.ltb_spec (month a) (month b)); cbn [orb];
    [symmetry; apply Z.ltb_lt; lia|].
  destruct (Z.eqb_spec (month a) (month b)); cbn [andb];
    [|symmetry; apply Z.ltb_ge; lia].
  specialize (Hsame ltac:(done) ltac:(done)).
  destruct (Z.ltb_spec (day a) (day b)); cbn [orb];
    [symmetry; apply Z.ltb_lt; lia|].
  destruct (Z.eqb_spec (day a) (day b)); cbn [andb];
    [|symmetry; apply Z.ltb_ge; lia].
  destruct (Z.ltb_spec (hour a) (hour b)); cbn [orb];
    [symmetry; apply Z.ltb_lt; lia|].
  destruct (Z.eqb_spec (hour a) (hour b)); cbn [andb];
    [|symmetry; apply Z.ltb_ge; lia].
  destruct (Z.ltb_spec (minute a) (minute b)); cbn [orb];
    [symmetry; apply Z.ltb_lt; lia|].
  destruct (Z.eqb_spec (minute a) (minute b)); cbn [andb];
    [|symmetry; apply Z.ltb_ge; lia].
  destruct (Z.ltb_spec (second a) (second b)); cbn [orb];
    [symmetry; apply Z.ltb_lt; lia|].
  destruct (Z.eqb_spec (second a) (second b)); cbn [andb];
    [|symmetry; apply Z.ltb_ge; lia].
  destruct (Z.ltb_spec (microsecond a) (microsecond b)); cbn [orb];
    [symmetry; apply Z.ltb_lt; lia|].
  destruct (Z.eqb_spec (microsecond a) (microsecond b)); cbn [andb];
    symmetry; apply Z.ltb_ge; lia.
Qed.

Lemma carry_nonneg (value unit : Z) :
  0 <= value -> 0 < unit -> carry value unit = (value mod unit, value / unit).
Proof.
  intros Hv Hu. pose proof (carry_spec value unit Hu) as H.
  destruct (carry value unit) as [kept carried].
  destruct H as (_ & _ & Hpos & _). destruct (Hpos Hv) as (_ & -> & ->). done.
Qed.

(** [_fix] on the delta of a past datetime, counted in whole seconds. *)
Lemma fix_fields_past (y m secs us : Z) :
  0 <= m < 12 -> 0 <= secs -> 0 <= us < 1000000 ->
  fix_fields {| years := y; months := m; days := 0; hours := 0; minutes := 0;
                seconds := secs; microseconds := us |}
  = {| years := y; months := m; days := secs / 86400;
       hours := secs / 3600 mod 24; minutes := secs / 60 mod 60;
       seconds := secs mod 60; microseconds := us |}.
Proof.
  intros Hm Hs Hus. unfold fix_fields.
  cbn [years months days hours minutes seconds microseconds].
  rewrite (carry_nonneg us) by lia.
  rewrite (Z.mod_small us), (Z.div_small us) by lia. cbv beta iota zeta.
  replace (secs + 0) with secs by lia.
  rewrite (carry_nonneg secs) by lia. cbv beta iota zeta.
  replace (0 + secs / 60) with (secs / 60) by lia.
  rewrite (carry_nonneg (secs / 60)) by (try apply Z.div_pos; lia). cbv beta iota zeta.
  replace (0 + secs / 60 / 60) with (secs / 60 / 60) by lia.
  rewrite (carry_nonneg (secs / 60 / 60))
    by (try (apply Z.div_pos; [apply Z.div_pos|]); lia).
  cbv beta iota zeta.
  rewrite (carry_nonneg m) by lia.
  rewrite (Z.mod_small m), (Z.div_small m) by lia. cbv beta iota zeta.
  f_equal; Z.div_mod_to_equations; lia.
Qed.

(** [_fix] on the delta of a datetime still to come: no field is
    positive but the microseconds. *)
Lemma fix_fields_future (y m secs us : Z) :
  y <= 0 -> -12 < m <= 0 -> secs <= 0 -> 0 <= us < 1000000 ->
  let delta := fix_fields {| years := y; months := m; days := 0; hours := 0;
                             minutes := 0; seconds := secs; microseconds := us |} in
  years delta <= 0 /\ months delta <= 0 /\ days delta <= 0
  /\ hours delta <= 0 /\ minutes delta <= 0.
Proof.
  intros Hy Hm Hs Hus. unfold fix_fields.
  cbn [years months days hours minutes seconds microseconds].
  rewrite (carry_nonneg us) by lia.
  rewrite (Z.mod_small us), (Z.div_small us) by lia. cbv beta iota zeta.
  replace (secs + 0) with secs by lia.
  pose proof (carry_spec secs 60 ltac:(lia)) as H1.
  destruct (carry secs 60) as [s' c1]. destruct H1 as (_ & _ & _ & H1).
  destruct (H1 Hs) as [_ Hc1].
  pose proof (carry_spec (0 + c1) 60 ltac:(lia)) as H2.
  destruct (carry (0 + c1) 60) as [mi' c2]. destruct H2 as (_ & _ & _ & H2).
  destruct (H2 ltac:(lia)) as [Hmi Hc2].
  pose proof (carry_spec (0 + c2) 24 ltac:(lia)) as H3.
  destruct (carry (0 + c2) 24) as [h' c3]. destruct H3 as (_ & _ & _ & H3).
  destruct (H3 ltac:(lia)) as [Hh Hc3].
  pose proof (carry_spec m 12 ltac:(lia)) as H4.
  destruct (carry m 12) as [mo' c4]. destruct H4 as (_ & _ & _ & H4).
  destruct (H4 ltac:(lia)) as [Hmo Hc4].
  cbn [years months days hours minutes]. lia.
Qed.

Lemma moved_by_zero (dt : datetime) :
  valid_datetime dt -> moved_by dt 0 = dt.
Proof.
  intros Hv. pose proof Hv as (_ & Hm & _). unfold moved_by. cbv zeta.
  replace (12 * year dt + month dt - 1 + 0) with (12 * year dt + (month dt - 1)) by lia.
  destruct (div_mod_sum (year dt) (month dt - 1) 12 ltac:(lia)) as [-> ->].
  replace (month dt - 1 + 1) with (month dt) by lia. now apply moved_to_same.
Qed.

(** The delta to a past datetime: the whole months elapsed, and what is
    left of the distance once the datetime is moved by them. *)
Lemma relativedelta_past (fuel : nat) (dt1 dt2 : datetime) :
  valid_datetime dt1 -> valid_datetime dt2 ->
  datetime_lt dt1 dt2 = false -> (1 <= fuel)%nat ->
  let total := months_elapsed dt1 dt2 in
  let rest := datetime_sub dt1 (moved_by dt2 total) in
  0 <= total /\ 0 <= rest
  /\ relativedelta_between fuel dt1 dt2
     = Ok {| years := total / 12; months := total mod 12;
             days := rest / 1000000 / 86400;
             hours := rest / 1000000 / 3600 mod 24;
             minutes := rest / 1000000 / 60 mod 60;
             seconds := rest / 1000000 mod 60;
             microseconds := rest mod 1000000 |}.
Proof.
  intros Hv1 Hv2 Hlt Hfuel total rest.
  pose proof Hv1 as (Hy1 & Hm1 & _). pose proof Hv2 as (Hy2 & Hm2 & _).
  set (total0 := (year dt1 - year dt2) * 12 + (month dt1 - month dt2)).
  assert (Htotal0 : 0 <= total0).
  { destruct (Z_le_gt_dec 0 total0) as [|Hneg]; [done|].
    destruct (datetime_lt_months dt1 dt2 Hm1 Hm2 ltac:(unfold total0 in Hneg; lia)).
    congruence. }
  set (dtm0 := moved_to dt2 (year dt1) (month dt1)).
  assert (Hdtm0 : valid_datetime dtm0) by now apply moved_to_valid.
  assert (Hmoved0 : moved_by dt2 total0 = dtm0).
  { unfold moved_by, dtm0, total0. cbv zeta.
    replace (12 * year dt2 + month dt2 - 1
             + ((year dt1 - year dt2) * 12 + (month dt1 - month dt2)))
      with (12 * year dt1 + (month dt1 - 1)) by lia.
    destruct (div_mod_sum (year dt1) (month dt1 - 1) 12 ltac:(lia)) as [-> ->].
    now replace (month dt1 - 1 + 1) with (month dt1) by lia. }
  assert (Hloop : 0 <= total /\ valid_datetime (moved_by dt2 total)
                  /\ datetime_lt dt1 (moved_by dt2 total) = false
                  /\ adjust_months fuel datetime_lt (-1) dt1 dt2 total0 dtm0
                     = Ok (total, moved_by dt2 total)).
  { unfold total, months_elapsed. fold total0 dtm0.
    destruct fuel as [|fuel]; [lia|]. cbn [adjust_months].
    destruct (datetime_lt dt1 dtm0) eqn:Hcmp.
    2: { rewrite Hmoved0. split; [done|]. split; [done|]. split; done. }
    assert (Hpos : 1 <= total0).
    { destruct (Z.eq_dec total0 0) as [Hz|]; [|lia].
      assert (year dt1 = year dt2 /\ month dt1 = month dt2) as [Hy Hm]
        by (unfold total0 in Hz; lia).
      unfold dtm0 in Hcmp. rewrite Hy, Hm, moved_to_same in Hcmp by done. congruence. }
    unfold moved_by. cbv zeta.
    set (i := 12 * year dt2 + month dt2 - 1 + (total0 - 1)).
    assert (Hi : 12 * (i / 12) + (i mod 12 + 1) = 12 * year dt2 + month dt2 + (total0 - 1)
                 /\ 1 <= i mod 12 + 1 <= 12 /\ 1 <= i / 12 <= 9999
                 /\ 12 * (i / 12) + (i mod 12 + 1) < 12 * year dt1 + month dt1).
    { unfold i, total0 in *. Z.div_mod_to_equations. lia. }
    destruct Hi as (Hi1 & Hi2 & Hi3 & Hi4).
    replace (total0 + -1) with (total0 - 1) by lia.
    rewrite (radd_set_months (total0 - 1) dt2 (i / 12) (i mod 12 + 1)) by done.
    cbn [mbind result_bind].
    assert (datetime_lt dt1 (moved_to dt2 (i / 12) (i mod 12 + 1)) = false) as Hexit.
    { apply (datetime_lt_months (moved_to dt2 (i / 12) (i mod 12 + 1)) dt1); try done. }
    split; [lia|]. split; [now apply moved_to_valid|]. split; [done|].
    destruct fuel; cbn [adjust_months]; now rewrite Hexit. }
  destruct Hloop as (Htotal & Hvalid & Hexit & Hloop).
  assert (Hrest : 0 <= rest).
  { unfold rest, datetime_sub. rewrite datetime_lt_spec in Hexit by done.
    apply Z.ltb_ge in Hexit. lia. }
  split; [done|]. split; [done|].
  unfold relativedelta_between. fold total0.
  rewrite (radd_set_months total0 dt2 (year dt1) (month dt1))
    by (try done; unfold total0; lia).
  cbn [mbind result_bind]. rewrite Hlt. fold dtm0. rewrite Hloop.
  cbn [mbind result_bind]. fold rest.
  destruct (set_months_spec total) as (y & m & -> & Hsum & Hm & Hpos & _).
  destruct (Hpos Htotal) as (_ & -> & ->). cbn [years months].
  f_equal. apply fix_fields_past.
  - apply Z.mod_pos_bound. lia.
  - apply Z.div_pos; lia.
  - apply Z.mod_pos_bound. lia.
Qed.

(** The delta to a datetime still to come has no positive field above the
    seconds. *)
Lemma relativedelta_future (fuel : nat) (dt1 dt2 : datetime) :
  valid_datetime dt1 -> valid_datetime dt2 ->
  datetime_lt dt1 dt2 = true -> (1 <= fuel)%nat ->
  exists delta,
    relativedelta_between fuel dt1 dt2 = Ok delta
    /\ years delta <= 0 /\ months delta <= 0 /\ days delta <= 0
    /\ hours delta <= 0 /\ minutes delta <= 0.
Proof.
  intros Hv1 Hv2 Hlt Hfuel.
  pose proof Hv1 as (Hy1 & Hm1 & _). pose proof Hv2 as (Hy2 & Hm2 & _).
  set (total0 := (year dt1 - year dt2) * 12 + (month dt1 - month dt2)).
  assert (Htotal0 : total0 <= 0).
  { destruct (Z_le_gt_dec total0 0) as [|Hpos]; [done|].
    destruct (datetime_lt_months dt2 dt1 Hm2 Hm1 ltac:(unfold total0 in Hpos; lia)).
    congruence. }
  set (dtm0 := moved_to dt2 (year dt1) (month dt1)).
  assert (Hdtm0 : valid_datetime dtm0) by now apply moved_to_valid.
  assert (Hloop : exists total dtm,
             total <= 0 /\ valid_datetime dtm /\ datetime_lt dtm dt1 = false
             /\ adjust_months fuel (fun a b => datetime_lt b a) 1 dt1 dt2 total0 dtm0
                = Ok (total, dtm)).
  { destruct fuel as [|fuel]; [lia|]. cbn [adjust_months].
    destruct (datetime_lt dtm0 dt1) eqn:Hcmp; [|exists total0, dtm0; auto].
    assert (Hneg : total0 <= -1).
    { destruct (Z.eq_dec total0 0) as [Hz|]; [|lia].
      assert (year dt1 = year dt2 /\ month dt1 = month dt2) as [Hy Hm]
        by (unfold total0 in Hz; lia).
      unfold dtm0 in Hcmp. rewrite Hy, Hm, moved_to_same in Hcmp by done.
      apply list_lt_asym in Hcmp. unfold datetime_lt in Hlt. congruence. }
    set (i := total0 + 1 + 12 * year dt2 + month dt2 - 1).
    assert (Hi : 12 * (i / 12) + (i mod 12 + 1) = 12 * year dt2 + month dt2 + (total0 + 1)
                 /\ 1 <= i mod 12 + 1 <= 12 /\ 1 <= i / 12 <= 9999
                 /\ 12 * year dt1 + month dt1 < 12 * (i / 12) + (i mod 12 + 1)).
    { unfold i, total0 in *. Z.div_mod_to_equations. lia. }
    destruct Hi as (Hi1 & Hi2 & Hi3 & Hi4).
    rewrite (radd_set_months (total0 + 1) dt2 (i / 12) (i mod 12 + 1)) by done.
    cbn [mbind result_bind].
    assert (datetime_lt (moved_to dt2 (i / 12) (i mod 12 + 1)) dt1 = false) as Hexit.
    { apply (datetime_lt_months dt1 (moved_to dt2 (i / 12) (i mod 12 + 1))); try done. }
    exists (total0 + 1), (moved_to dt2 (i / 12) (i mod 12 + 1)).
    split; [lia|]. split; [now apply moved_to_valid|]. split; [done|].
    destruct fuel; cbn [adjust_months]; now rewrite Hexit. }
  destruct Hloop as (total & dtm & Htotal & Hvalid & Hexit & Hloop).
  unfold relativedelta_between. fold total0.
  rewrite (radd_set_months total0 dt2 (year dt1) (month dt1))
    by (try done; unfold total0; lia).
  cbn [mbind result_bind]. rewrite Hlt. fold dtm0. rewrite Hloop.
  cbn [mbind result_bind].
  destruct (set_months_spec total) as (y & m & -> & Hsum & Hm & _ & Hneg).
  destruct (Hneg Htotal) as [Hm' Hy']. cbn [years months].
  eexists. split; [reflexivity|].
  rewrite datetime_lt_spec in Hexit by done. apply Z.ltb_ge in Hexit.
  apply fix_fields_future; try lia.
  - unfold datetime_sub. apply Z.div_le_upper_bound; lia.
  - apply Z.mod_pos_bound. lia.
Qed.

(** The text for a delta none of whose fields is positive. *)
Lemma duration_ago_future (fuel : nat) (now dt : datetime) :
  valid_datetime now -> valid_datetime dt -> (1 <= fuel)%nat ->
  datetime_lt now dt = true ->
  ReleaseTools.duration_ago fuel now dt = Ok (py "just now").
Proof.
  intros Hv1 Hv2 Hfuel Hlt.
  destruct (relativedelta_future fuel now dt Hv1 Hv2 Hlt Hfuel)
    as (delta & Hdelta & Hy & Hmo & Hd & Hh & Hmi).
  unfold ReleaseTools.duration_ago. rewrite Hdelta. cbn [mbind result_bind].
  repeat match goal with
         | |- context [0 <? ?x] => destruct (Z.ltb_spec 0 x); [lia|]
         end.
  reflexivity.
Qed.

(** The text for a past datetime: the largest unit that is not zero. *)
Lemma duration_ago_past (fuel : nat) (now dt : datetime) :
  valid_datetime now -> valid_datetime dt -> (1 <= fuel)%nat ->
  datetime_lt now dt = false ->
  let total := months_elapsed now dt in
  let secs := datetime_sub now (moved_by dt total) / 1000000 in
  0 <= total /\ 0 <= secs
  /\ ReleaseTools.duration_ago fuel now dt
     = Ok (if 12 <=? total then ReleaseTools.ago (total / 12) "year"
           else if 1 <=? total then ReleaseTools.ago total "month"
           else if 86400 <=? secs then ReleaseTools.ago (secs / 86400) "day"
           else if 3600 <=? secs then ReleaseTools.ago (secs / 3600) "hour"
           else if 60 <=? secs then ReleaseTools.ago (secs / 60) "minute"
           else py "just now").
Proof.
  intros Hv1 Hv2 Hfuel Hlt total secs.
  destruct (relativedelta_past fuel now dt Hv1 Hv2 Hlt Hfuel) as (Htotal & Hrest & Hdelta).
  fold total in Htotal, Hdelta. fold secs in Hdelta.
  assert (Hsecs : 0 <= secs) by (apply Z.div_pos; [exact Hrest | lia]).
  split; [done|]. split; [done|].
  unfold ReleaseTools.duration_ago. rewrite Hdelta.
  cbn [mbind result_bind years months days hours minutes].
  destruct (Z.leb_spec 12 total) as [H12|H12].
  { assert (0 < total / 12) as ->%Z.ltb_lt by (Z.div_mod_to_equations; lia). done. }
  assert ((0 <? total / 12) = false) as -> by (apply Z.ltb_ge; Z.div_mod_to_equations; lia).
  rewrite (Z.mod_small total 12) by lia.
  destruct (Z.leb_spec 1 total) as [H1|H1].
  { now assert (0 < total) as ->%Z.ltb_lt by lia. }
  assert ((0 <? total) = false) as -> by (apply Z.ltb_ge; lia).
  destruct (Z.leb_spec 86400 secs) as [Hd|Hd].
  { assert (0 < secs / 86400) as ->%Z.ltb_lt by (Z.div_mod_to_equations; lia). done. }
  assert ((0 <? secs / 86400) = false) as -> by (apply Z.ltb_ge; Z.div_mod_to_equations; lia).
  assert (secs / 3600 mod 24 = secs / 3600) as ->
    by (apply Z.mod_small; Z.div_mod_to_equations; lia).
  destruct (Z.leb_spec 3600 secs) as [Hh|Hh].
  { assert (0 < secs / 3600) as ->%Z.ltb_lt by (Z.div_mod_to_equations; lia). done. }
  assert ((0 <? secs / 3600) = false) as -> by (apply Z.ltb_ge; Z.div_mod_to_equations; lia).
  assert (secs / 60 mod 60 = secs / 60) as ->
    by (apply Z.mod_small; Z.div_mod_to_equations; lia).
  destruct (Z.leb_spec 60 secs) as [Hm|Hm].
  { assert (0 < secs / 60) as ->%Z.ltb_lt by (Z.div_mod_to_equations; lia). done. }
  now assert ((0 <? secs / 60) = false) as -> by (apply Z.ltb_ge; Z.div_mod_to_equations; lia).
Qed.

(** X9.  What [duration_ago] writes for a timestamp that is not in the
    future: the whole years when twelve months or more have elapsed, else
    the whole months when one has, else what is left in whole days, hours
    or minutes (the first of them that is not zero), and [just now] under
    a minute.  The months are those of the calendar, the timestamp keeping
    its time of day and its day of the month, clipped to the month reached. *)
Theorem duration_ago_largest_unit (fuel : nat) (now dt : datetime) :
  valid_datetime now -> valid_datetime dt -> (1 <= fuel)%nat ->
  0 <= datetime_sub now dt ->
  let total := months_elapsed now dt in
  let secs := datetime_sub now (moved_by dt total) / 1000000 in
  0 <= total /\ 0 <= secs
  /\ ReleaseTools.duration_ago fuel now dt
     = Ok (if 12 <=? total then ReleaseTools.ago (total / 12) "year"
           else if 1 <=? total then ReleaseTools.ago total "month"
           else if 86400 <=? secs then ReleaseTools.ago (secs / 86400) "day"
           else if 3600 <=? secs then ReleaseTools.ago (secs / 3600) "hour"
           else if 60 <=? secs then ReleaseTools.ago (secs / 60) "minute"
           else py "just now").
Proof.
  intros Hv1 Hv2 Hfuel Hsub. apply duration_ago_past; try done.
  rewrite datetime_lt_spec by done. apply Z.ltb_ge. unfold datetime_sub in Hsub. lia.
Qed.

(** Under 28 days no month has elapsed. *)
Lemma no_month_elapsed (now dt : datetime) :
  valid_datetime now -> valid_datetime dt ->
  0 <= datetime_sub now dt < timedelta_days 28 ->
  months_elapsed now dt = 0.
Proof.
  intros Hv1 Hv2 Hsub.
  destruct (toordinal_index now Hv1) as (Ho1 & Hd1 & Hdim1).
  destruct (toordinal_index dt Hv2) as (Ho2 & Hd2 & Hdim2).
  cbv zeta in *.
  pose proof Hv1 as (Hy1 & Hm1 & _ & Hh1 & Hmi1 & Hs1 & Hus1).
  pose proof Hv2 as (Hy2 & Hm2 & _ & Hh2 & Hmi2 & Hs2 & Hus2).
  set (i1 := 12 * year now + month now - 1) in *.
  set (i2 := 12 * year dt + month dt - 1) in *.
  unfold datetime_sub, timedelta_days, microseconds_per_day in Hsub.
  unfold months_elapsed.
  destruct (Z.lt_trichotomy i1 i2) as [Hi|[Hi|Hi]].
  - exfalso. pose proof (toordinal_months now dt Hv1 Hv2 ltac:(unfold i1, i2 in Hi; lia)).
    unfold to_microseconds, seconds_of_day in Hsub. lia.
  - assert (year now = year dt /\ month now = month dt) as [Hy Hm]
      by (unfold i1, i2 in Hi; lia).
    rewrite Hy, Hm, moved_to_same by done.
    rewrite datetime_lt_spec by done.
    destruct (Z.ltb_spec (to_microseconds now) (to_microseconds dt)); lia.
  - pose proof (days_before_index_step i2) as Hstep2.
    pose proof (days_before_index_step i1) as Hstep1.
    destruct (Z.eq_dec i1 (i2 + 1)) as [Hnext|Hfar].
    + assert (Hmoved : valid_datetime (moved_to dt (year now) (month now)))
        by now apply moved_to_valid.
      destruct (toordinal_index _ Hmoved) as (Ho3 & _).
      cbn [moved_to year month day] in Ho3. fold i1 in Ho3.
      rewrite datetime_lt_spec by done.
      assert (Hlt : to_microseconds now
                    < to_microseconds (moved_to dt (year now) (month now))).
      { unfold to_microseconds, seconds_of_day in *.
        cbn [moved_to hour minute second microsecond]. rewrite Ho3.
        assert (days_before_index i1 = days_before_index (i2 + 1)) by now rewrite Hnext.
        rewrite Hdim1. lia. }
      apply Z.ltb_lt in Hlt. rewrite Hlt. unfold i1, i2 in Hnext. lia.
    + exfalso.
      pose proof (days_before_index_mono (i2 + 2) (i1 - i2 - 2) ltac:(lia)) as Hmono.
      replace (i2 + 2 + (i1 - i2 - 2)) with i1 in Hmono by lia.
      pose proof (days_before_index_step (i2 + 1)) as Hstep3.
      replace (i2 + 1 + 1) with (i2 + 2) in Hstep3 by lia.
      unfold to_microseconds, seconds_of_day in Hsub. lia.
Qed.

(** X10.  Under 28 days the calendar plays no part: a timestamp less than
    a minute before now, or after now, is rendered [just now], and
    otherwise the distance is written in whole minutes under an hour, in
    whole hours under a day, and in whole days from there on. *)
Theorem duration_ago_short_spans (fuel : nat) (now dt : datetime) :
  valid_datetime now -> valid_datetime dt -> (1 <= fuel)%nat ->
  datetime_sub now dt < timedelta_days 28 ->
  let span := datetime_sub now dt in
  ReleaseTools.duration_ago fuel now dt
  = Ok (if span <? 60000000 then py "just now"
        else if span <? 3600000000
             then ReleaseTools.ago (span / 60000000) "minute"
        else if span <? 86400000000
             then ReleaseTools.ago (span / 3600000000) "hour"
        else ReleaseTools.ago (span / 86400000000) "day").
Proof.
  intros Hv1 Hv2 Hfuel Hshort span.
  destruct (datetime_lt now dt) eqn:Hlt.
  - rewrite duration_ago_future by done.
    rewrite datetime_lt_spec in Hlt by done. apply Z.ltb_lt in Hlt.
    assert ((span <? 60000000) = true) as ->; [|done].
    apply Z.ltb_lt. unfold span, datetime_sub. lia.
  - assert (Hpos : 0 <= span).
    { rewrite datetime_lt_spec in Hlt by done. apply Z.ltb_ge in Hlt.
      unfold span, datetime_sub. lia. }
    destruct (duration_ago_past fuel now dt Hv1 Hv2 Hfuel Hlt) as (_ & _ & ->).
    rewrite (no_month_elapsed now dt) by (try done; unfold span in Hpos; lia).
    rewrite moved_by_zero by done. fold span.
    change (12 <=? 0) with false. change (1 <=? 0) with false. cbv iota.
    destruct (Z.ltb_spec span 60000000) as [H1|H1].
    { assert ((86400 <=? span / 1000000) = false) as ->
        by (apply Z.leb_gt; Z.div_mod_to_equations; lia).
      assert ((3600 <=? span / 1000000) = false) as ->
        by (apply Z.leb_gt; Z.div_mod_to_equations; lia).
      now assert ((60 <=? span / 1000000) = false) as ->
        by (apply Z.leb_gt; Z.div_mod_to_equations; lia). }
    destruct (Z.ltb_spec span 3600000000) as [H2|H2].
    { assert ((86400 <=? span / 1000000) = false) as ->
        by (apply Z.leb_gt; Z.div_mod_to_equations; lia).
      assert ((3600 <=? span / 1000000) = false) as ->
        by (apply Z.leb_gt; Z.div_mod_to_equations; lia).
      assert ((60 <=? span / 1000000) = true) as ->
        by (apply Z.leb_le; Z.div_mod_to_equations; lia).
      do 2 f_equal. Z.div_mod_to_equations. lia. }
    destruct (Z.ltb_spec span 86400000000) as [H3|H3].
    { assert ((86400 <=? span / 1000000) = false) as ->
        by (apply Z.leb_gt; Z.div_mod_to_equations; lia).
      assert ((3600 <=? span / 1000000) = true) as ->
        by (apply Z.leb_le; Z.div_mod_to_equations; lia).
      do 2 f_equal. Z.div_mod_to_equations. lia. }
    assert ((86400 <=? span / 1000000) = true) as ->
      by (apply Z.leb_le; Z.div_mod_to_equations; lia).
    do 2 f_equal. Z.div_mod_to_equations. lia.
Qed.

(** X11.  On any two datetimes Python can build, [duration_ago] returns,
    and what it returns is [just now] or one number of one unit: the
    number is never zero or negative, and no two units are combined. *)
Theorem duration_ago_returns_one_unit (fuel : nat) (now dt : datetime) :
  valid_datetime now -> valid_datetime dt -> (1 <= fuel)%nat ->
  exists text,
    ReleaseTools.duration_ago fuel now dt = Ok text
    /\ (text = py "just now"
        \/ exists n unit,
             1 <= n /\ unit ∈ duration_units /\ text = ReleaseTools.ago n unit).
Proof.
  intros Hv1 Hv2 Hfuel.
  destruct (datetime_lt now dt) eqn:Hlt.
  { exists (py "just now"). split; [now apply duration_ago_future | now left]. }
  destruct (duration_ago_past fuel now dt Hv1 Hv2 Hfuel Hlt) as (Htotal & Hsecs & ->).
  eexists. split; [reflexivity|].
  set (total := months_elapsed now dt) in *.
  set (secs := datetime_sub now (moved_by dt total) / 1000000) in *.
  assert (Hunit : forall unit, In unit duration_units -> unit ∈ duration_units)
    by (intros unit; apply list_elem_of_In).
  destruct (Z.leb_spec 12 total).
  { right. exists (total / 12), "year"%string.
    split; [Z.div_mod_to_equations; lia|]. split; [apply Hunit; cbn; tauto | done]. }
  destruct (Z.leb_spec 1 total).
  { right. exists total, "month"%string.
    split; [lia|]. split; [apply Hunit; cbn; tauto | done]. }
  destruct (Z.leb_spec 86400 secs).
  { right. exists (secs / 86400), "day"%string.
    split; [Z.div_mod_to_equations; lia|]. split; [apply Hunit; cbn; tauto | done]. }
  destruct (Z.leb_spec 3600 secs).
  { right. exists (secs / 3600), "hour"%string.
    split; [Z.div_mod_to_equations; lia|]. split; [apply Hunit; cbn; tauto | done]. }
  destruct (Z.leb_spec 60 secs).
  { right. exists (secs / 60), "minute"%string.
    split; [Z.div_mod_to_equations; lia|]. split; [apply Hunit; cbn; tauto | done]. }
  now left.
Qed.

End Durations.

Lemma at_time_valid (y m d H M S : Z) :
  valid_datetime_b (at_time y m d H M S) = true ->
  valid_datetime (at_time y m d H M S).
Proof. unfold valid_datetime_b, valid_datetime. lia. Defined.

Lemma duration_ago_largest_unit_witness :
  let total := months_elapsed may_2023 december_2022 in
  let secs := datetime_sub may_2023 (moved_by december_2022 total) / 1000000 in
  0 <= total /\ 0 <= secs
  /\ ReleaseTools.duration_ago 1 may_2023 december_2022
     = Ok (if 12 <=? total then ReleaseTools.ago (total / 12) "year"
           else if 1 <=? total then ReleaseTools.ago total "month"
           else if 86400 <=? secs then ReleaseTools.ago (secs / 86400) "day"
           else if 3600 <=? secs then ReleaseTools.ago (secs / 3600) "hour"
           else if 60 <=? secs then ReleaseTools.ago (secs / 60) "minute"
           else py "just now").
Proof.
  apply (duration_ago_largest_unit 1 may_2023 december_2022).
  - apply at_time_valid. reflexivity.
  - apply at_time_valid. reflexivity.
  - lia.
  - vm_compute. discriminate.
Defined.

Lemma duration_ago_short_spans_witness :
  ReleaseTools.duration_ago 1 may_2023 twenty_minutes_before
  = Ok (ReleaseTools.ago 20 "minute")
  /\ ReleaseTools.duration_ago 1 may_2023 day_after = Ok (py "just now").
Proof.
  split.
  - apply (duration_ago_short_spans 1 may_2023 twenty_minutes_before).
    + apply at_time_valid. reflexivity.
    + apply at_time_valid. reflexivity.
    + lia.
    + vm_compute. reflexivity.
  - apply (duration_ago_short_spans 1 may_2023 day_after).
    + apply at_time_valid. reflexivity.
    + apply at_time_valid. reflexivity.
    + lia.
    + vm_compute. reflexivity.
Defined.

Lemma duration_ago_returns_one_unit_witness :
  exists text,
    ReleaseTools.duration_ago 1 may_2023 december_2022 = Ok text
    /\ (text = py "just now"
        \/ exists n unit,
             1 <= n /\ unit ∈ duration_units /\ text = ReleaseTools.ago n unit).
Proof.
  apply (duration_ago_returns_one_unit 1 may_2023 december_2022).
  - apply at_time_valid. reflexivity.
  - apply at_time_valid. reflexivity.
  - lia.
Defined.

(** ** The year of the policy and the years of the display *)

Section YearWindow.

(** A year later on the calendar is 365 days later at the least, even
    from a 29th of February, whose day is clipped. *)
Lemma year_later_clipped (i d : Z) :
  1 <= d <= days_before_index (i + 1) - days_before_index i ->
  365 <= days_before_index (i + 12)
         + Z.min (days_before_index (i + 13) - days_before_index (i + 12)) d
         - days_before_index i - d.
Proof.
  replace (i + 13) with (i + 12 + 1) by lia. rewrite !days_before_index_succ.
  pose proof (Z.mod_pos_bound i 12 ltac:(lia)) as Hm.
  pose proof (Z.div_mod i 12 ltac:(lia)) as Hi.
  set (y := i / 12) in *. set (m0 := i mod 12) in *.
  assert ((i + 12) / 12 = y + 1 /\ (i + 12) mod 12 = m0) as [-> ->].
  { replace (i + 12) with (12 * (y + 1) + m0) by lia. apply div_mod_sum. lia. }
  replace (days_before_index (i + 12)) with (days_before (y + 1) (m0 + 1)).
  2: { replace (i + 12) with (12 * (y + 1) + (m0 + 1) - 1) by lia.
       now rewrite days_before_index_eq by lia. }
  replace (days_before_index i) with (days_before y (m0 + 1)).
  2: { rewrite Hi at 1. replace (12 * y + m0) with (12 * y + (m0 + 1) - 1) by lia.
       now rewrite days_before_index_eq by lia. }
  replace (days_before y (m0 + 1) + days_in_month y (m0 + 1) - days_before y (m0 + 1))
    with (days_in_month y (m0 + 1)) by lia.
  replace (days_before (y + 1) (m0 + 1) + days_in_month (y + 1) (m0 + 1)
           - days_before (y + 1) (m0 + 1))
    with (days_in_month (y + 1) (m0 + 1)) by lia.
  unfold days_before, days_before_month, days_in_month.
  rewrite days_before_year_succ.
  assert (Hcases : m0 = 0 \/ m0 = 1 \/ m0 = 2 \/ m0 = 3 \/ m0 = 4 \/ m0 = 5
                   \/ m0 = 6 \/ m0 = 7 \/ m0 = 8 \/ m0 = 9 \/ m0 = 10 \/ m0 = 11) by lia.
  destruct (is_leap y), (is_leap (y + 1));
    repeat (destruct Hcases as [->|Hcases]); try rewrite Hcases;
      add_numerals; cbn; lia.
Qed.

(** Where a datetime lands when it is moved by months. *)
Lemma moved_by_ordinal (dt : datetime) (n : Z) :
  valid_datetime dt ->
  1 <= (12 * year dt + month dt - 1 + n) / 12 <= 9999 ->
  let i := 12 * year dt + month dt - 1 + n in
  valid_datetime (moved_by dt n)
  /\ to_microseconds (moved_by dt n)
     = ((days_before_index i
         + Z.min (days_before_index (i + 1) - days_before_index i) (day dt)) * 86400
        + seconds_of_day dt) * 1000000 + microsecond dt.
Proof.
  intros Hv Hy i. fold i in Hy.
  pose proof (Z.mod_pos_bound i 12 ltac:(lia)) as Hm.
  assert (Hvalid : valid_datetime (moved_by dt n)).
  { unfold moved_by. cbv zeta. fold i. apply moved_to_valid; [done|done|lia]. }
  split; [done|].
  destruct (toordinal_index _ Hvalid) as (Ho & _ & Hdim). cbv zeta in Ho, Hdim.
  unfold moved_by in Ho, Hdim |- *. cbv zeta in Ho, Hdim |- *. fold i in Ho, Hdim |- *.
  cbn [moved_to year month day] in Ho, Hdim.
  replace (12 * (i / 12) + (i mod 12 + 1) - 1) with i in Ho, Hdim
    by (pose proof (Z.div_mod i 12 ltac:(lia)); lia).
  unfold to_microseconds, seconds_of_day.
  cbn [moved_to hour minute second microsecond]. rewrite Ho, Hdim. reflexivity.
Qed.

(** The months that have elapsed are all the whole months that fit. *)
Lemma months_elapsed_bounds (now dt : datetime) :
  valid_datetime now -> valid_datetime dt -> datetime_lt now dt = false ->
  let total := months_elapsed now dt in
  let i := 12 * year dt + month dt - 1 in
  let reach n :=
    ((days_before_index (i + n)
      + Z.min (days_before_index (i + n + 1) - days_before_index (i + n)) (day dt))
     * 86400 + seconds_of_day dt) * 1000000 + microsecond dt in
  0 <= total /\ reach total <= to_microseconds now < reach (total + 1).
Proof.
  intros Hv1 Hv2 Hlt total i reach.
  destruct (relativedelta_past 1 now dt Hv1 Hv2 Hlt ltac:(lia)) as (Htotal & Hrest & _).
  fold total in Htotal, Hrest.
  pose proof Hv1 as (Hy1 & Hm1 & _). pose proof Hv2 as (Hy2 & Hm2 & Hd2 & _).
  set (total0 := (year now - year dt) * 12 + (month now - month dt)).
  assert (Hcases : (datetime_lt now (moved_to dt (year now) (month now)) = true
                    /\ total = total0 - 1)
                   \/ (datetime_lt now (moved_to dt (year now) (month now)) = false
                       /\ total = total0)).
  { unfold total, months_elapsed. fold total0.
    destruct (datetime_lt now (moved_to dt (year now) (month now))); auto. }
  assert (Hyear : forall n, 0 <= n <= total0 -> 1 <= (i + n) / 12 <= 9999).
  { intros n Hn. unfold i, total0 in *. Z.div_mod_to_equations. lia. }
  split; [done|]. split.
  - destruct (moved_by_ordinal dt total Hv2) as [_ Hto].
    { apply Hyear. destruct Hcases as [[_ ->]|[_ ->]]; lia. }
    cbv zeta in Hto. fold i in Hto. unfold reach.
    unfold datetime_sub in Hrest. rewrite Hto in Hrest. lia.
  - destruct Hcases as [[Hcmp Heq]|[Hcmp Heq]].
    + destruct (moved_by_ordinal dt total0 Hv2) as [Hvalid Hto].
      { apply Hyear. lia. }
      cbv zeta in Hto. fold i in Hto.
      assert (Hsame : moved_by dt total0 = moved_to dt (year now) (month now)).
      { unfold moved_by. cbv zeta.
        replace (12 * year dt + month dt - 1 + total0)
          with (12 * year now + (month now - 1)) by (unfold total0; lia).
        destruct (div_mod_sum (year now) (month now - 1) 12 ltac:(lia)) as [-> ->].
        now replace (month now - 1 + 1) with (month now) by lia. }
      rewrite Hsame in Hvalid, Hto.
      rewrite datetime_lt_spec in Hcmp by done. apply Z.ltb_lt in Hcmp.
      unfold reach. replace (total + 1) with total0 by lia.
      now rewrite <- Hto.
    + destruct (toordinal_index now Hv1) as (Ho & Hd & _). cbv zeta in Ho, Hd.
      replace (12 * year now + month now - 1) with (i + total) in Ho, Hd
        by (unfold i, total0 in *; lia).
      pose proof (days_before_index_step (i + total + 1)) as Hstep.
      pose proof Hv1 as (_ & _ & _ & Hh1 & Hmi1 & Hs1 & Hus1).
      pose proof Hv2 as (_ & _ & _ & Hh2 & Hmi2 & Hs2 & Hus2).
      unfold reach, to_microseconds, seconds_of_day. rewrite Ho.
      replace (i + (total + 1)) with (i + total + 1) by lia. lia.
Qed.

(** X19.  The year of the policy and the years of the display agree: a
    timestamp less than 365 days old is never given an age in years, and
    one that is 366 days old or older always is. *)
Theorem years_shown_after_a_year (fuel : nat) (now dt : datetime) :
  valid_datetime now -> valid_datetime dt -> (1 <= fuel)%nat ->
  0 <= datetime_sub now dt ->
  let total := months_elapsed now dt in
  let secs := datetime_sub now (moved_by dt total) / 1000000 in
  (datetime_sub now dt < timedelta_days 365 ->
   total < 12
   /\ ReleaseTools.duration_ago fuel now dt
      = Ok (if 1 <=? total then ReleaseTools.ago total "month"
            else if 86400 <=? secs then ReleaseTools.ago (secs / 86400) "day"
            else if 3600 <=? secs then ReleaseTools.ago (secs / 3600) "hour"
            else if 60 <=? secs then ReleaseTools.ago (secs / 60) "minute"
            else py "just now"))
  /\ (timedelta_days 366 <= datetime_sub now dt ->
      12 <= total
      /\ ReleaseTools.duration_ago fuel now dt
         = Ok (ReleaseTools.ago (total / 12) "year")).
Proof.
  intros Hv1 Hv2 Hfuel Hsub total secs.
  assert (Hlt : datetime_lt now dt = false).
  { rewrite datetime_lt_spec by done. apply Z.ltb_ge. unfold datetime_sub in Hsub. lia. }
  destruct (duration_ago_past fuel now dt Hv1 Hv2 Hfuel Hlt) as (_ & _ & Hago).
  fold total in Hago. fold secs in Hago.
  destruct (months_elapsed_bounds now dt Hv1 Hv2 Hlt) as (Htotal & Hlow & Hhigh).
  fold total in Htotal, Hlow, Hhigh. cbv zeta in Hlow, Hhigh.
  set (i := 12 * year dt + month dt - 1) in *.
  destruct (toordinal_index dt Hv2) as (Ho & Hd & _). cbv zeta in Ho, Hd.
  fold i in Ho, Hd.
  pose proof Hv2 as (_ & _ & _ & Hh2 & Hmi2 & Hs2 & Hus2).
  unfold datetime_sub, timedelta_days, microseconds_per_day in *.
  assert (Hdt : to_microseconds dt
                = ((days_before_index i + day dt) * 86400 + seconds_of_day dt) * 1000000
                  + microsecond dt).
  { unfold to_microseconds. now rewrite Ho. }
  split.
  - intros Hshort.
    assert (Hunder : total < 12).
    { destruct (Z_lt_ge_dec total 12) as [|Hge]; [done|]. exfalso.
      pose proof (year_later_clipped i (day dt) Hd) as Hyear.
      destruct (Z.eq_dec total 12) as [Heq|Hne].
      - rewrite Heq in Hlow. replace (i + 12 + 1) with (i + 13) in Hlow by lia. lia.
      - pose proof (days_before_index_mono (i + 12) (total - 12) ltac:(lia)) as Hmono.
        replace (i + 12 + (total - 12)) with (i + total) in Hmono by lia.
        pose proof (days_before_index_step (i + total)) as Hstep.
        pose proof (days_before_index_year i) as H12.
        pose proof (days_before_index_step i) as Hstep0. lia. }
    split; [done|]. rewrite Hago.
    now assert ((12 <=? total) = false) as -> by (apply Z.leb_gt; lia).
  - intros Hlong.
    assert (Hover : 12 <= total).
    { destruct (Z_le_gt_dec 12 total) as [|Hlt']; [done|]. exfalso.
      pose proof (days_before_index_year i) as H12.
      pose proof (days_before_index_mono (i + total + 1) (11 - total) ltac:(lia)) as Hmono.
      replace (i + total + 1 + (11 - total)) with (i + 12) in Hmono by lia.
      replace (i + (total + 1)) with (i + total + 1) in Hhigh by lia.
      pose proof (days_before_index_step (i + total + 1)) as Hstep.
      pose proof (days_before_index_step i) as Hstep0.
      destruct (Z.eq_dec total 11) as [Heq|Hne]; lia. }
    split; [done|]. rewrite Hago.
    now assert ((12 <=? total) = true) as -> by (apply Z.leb_le; lia).
Qed.

End YearWindow.

Lemma years_shown_after_a_year_witness :
  (let total := months_elapsed may_2023 december_2022 in
   let secs := datetime_sub may_2023 (moved_by december_2022 total) / 1000000 in
   total < 12
   /\ ReleaseTools.duration_ago 1 may_2023 december_2022
      = Ok (if 1 <=? total then ReleaseTools.ago total "month"
            else if 86400 <=? secs then ReleaseTools.ago (secs / 86400) "day"
            else if 3600 <=? secs then ReleaseTools.ago (secs / 3600) "hour"
            else if 60 <=? secs then ReleaseTools.ago (secs / 60) "minute"
            else py "just now"))
  /\ (let total := months_elapsed may_2024 december_2022 in
      12 <= total
      /\ ReleaseTools.duration_ago 1 may_2024 december_2022
         = Ok (ReleaseTools.ago (total / 12) "year")).
Proof.
  split.
  - apply (years_shown_after_a_year 1 may_2023 december_2022).
    + apply at_time_valid. reflexivity.
    + apply at_time_valid. reflexivity.
    + lia.
    + vm_compute. discriminate.
    + vm_compute. reflexivity.
  - apply (years_shown_after_a_year 1 may_2024 december_2022).
    + apply at_time_valid. reflexivity.
    + apply at_time_valid. reflexivity.
    + lia.
    + vm_compute. discriminate.
    + vm_compute. discriminate.
Defined.

(** ** The image of a release, in general *)

Section Patterns.
Context {U : Unicode}.

(** Literal text matches itself and nothing else. *)
Lemma match_literal_fwd (l : str) (p : pattern) (pos : nat) (rest : str)
    (opens : list nat) (spans : list (nat * nat)) :
  match_here (map (fun c => One (Chr c)) l ++ p) pos (l ++ rest) opens spans
  = match_here p (pos + length l) rest opens spans.
Proof.
  revert pos. induction l as [|c l IH]; intros pos.
  - cbn [map app length]. now rewrite Nat.add_0_r.
  - cbn [map app length]. rewrite match_One_fwd, IH. f_equal. lia.
Qed.

Lemma match_literal_inv (l : str) (p : pattern) (pos : nat) (s : str)
    (opens : list nat) (spans : list (nat * nat)) r :
  match_here (map (fun c => One (Chr c)) l ++ p) pos s opens spans = Some r ->
  exists rest, s = l ++ rest
    /\ match_here p (pos + length l) rest opens spans = Some r.
Proof.
  revert pos s. induction l as [|c l IH]; intros pos s.
  - cbn [map app length]. rewrite Nat.add_0_r. eauto.
  - cbn [map app length]. intros (s' & -> & H)%match_One_inv.
    apply IH in H as (rest & -> & H). exists rest. split; [done|].
    now replace (pos + S (length l))%nat with (S pos + length l)%nat by lia.
Qed.

Lemma match_text_fwd (t : string) (p : pattern) (pos : nat) (rest : str)
    (opens : list nat) (spans : list (nat * nat)) :
  match_here (text t ++ p) pos (py t ++ rest) opens spans
  = match_here p (pos + length (py t)) rest opens spans.
Proof. apply match_literal_fwd. Qed.

Lemma match_text_inv (t : string) (p : pattern) (pos : nat) (s : str)
    (opens : list nat) (spans : list (nat * nat)) r :
  match_here (text t ++ p) pos s opens spans = Some r ->
  exists rest, s = py t ++ rest
    /\ match_here p (pos + length (py t)) rest opens spans = Some r.
Proof. apply match_literal_inv. Qed.

(** [re.search] returns the match at the first index that has one. *)
Lemma search_from_first (p : pattern) (subject : str) (m : match_object) (n : nat) :
  forall pos more,
    (forall i, (i < n)%nat -> match_at p subject (pos + i) = None) ->
    match_at p subject (pos + n) = Some m -> (n <= more)%nat ->
    search_from p subject pos more = Some m.
Proof.
  induction n as [|n IH]; intros pos more Hnone Hm Hmore.
  - rewrite Nat.add_0_r in Hm. destruct more; cbn [search_from]; now rewrite Hm.
  - destruct more as [|more]; [lia|]. cbn [search_from].
    rewrite <- (Nat.add_0_r pos) at 1. rewrite (Hnone 0%nat) by lia.
    apply IH; [|now rewrite Nat.add_succ_comm | lia].
    intros i Hi. rewrite Nat.add_succ_comm. apply Hnone. lia.
Qed.

Lemma search_from_Some (p : pattern) (subject : str) (m : match_object) :
  forall pos more,
    search_from p subject pos more = Some m ->
    exists i, (i <= more)%nat /\ match_at p subject (pos + i) = Some m.
Proof.
  intros pos more. revert pos. induction more as [|more IH]; intros pos; cbn [search_from].
  - destruct (match_at p subject pos) eqn:Hm; [|done]. intros [= <-].
    exists 0%nat. now rewrite Nat.add_0_r.
  - destruct (match_at p subject pos) eqn:Hm.
    + intros [= <-]. exists 0%nat. rewrite Nat.add_0_r. split; [lia | done].
    + intros (i & Hi & H)%IH. exists (S i). split; [lia|].
      now rewrite <- Nat.add_succ_comm.
Qed.

(** A greedy repetition gives characters back down to the last point where
    the rest of the pattern matches. *)
Lemma greedy_fails {R} (ok : char -> bool) (k : nat -> str -> option R)
    (b rest : str) :
  Forall (fun c => ok c = true) b -> stops ok rest ->
  forall pos,
    (forall b1 b2, b = b1 ++ b2 -> k (pos + length b1)%nat (b2 ++ rest) = None) ->
    greedy ok k pos (b ++ rest) = None.
Proof.
  intros Hb Hstop. induction Hb as [|c b Hc _ IH]; intros pos Hk.
  - specialize (Hk [] [] eq_refl). cbn [app length] in *. rewrite Nat.add_0_r in Hk.
    destruct rest as [|c rest]; cbn [greedy]; [done|].
    cbn [stops] in Hstop. now rewrite Hstop.
  - cbn [app greedy]. rewrite Hc. rewrite IH.
    + specialize (Hk [] (c :: b) eq_refl). cbn [app length] in Hk.
      now rewrite Nat.add_0_r in Hk.
    + intros b1 b2 ->. specialize (Hk (c :: b1) b2 eq_refl).
      cbn [length] in Hk. now rewrite Nat.add_succ_comm.
Qed.

Lemma greedy_last {R} (ok : char -> bool) (k : nat -> str -> option R)
    (a b rest : str) (r : R) :
  Forall (fun c => ok c = true) a -> Forall (fun c => ok c = true) b ->
  stops ok rest ->
  forall pos,
    k (pos + length a)%nat (b ++ rest) = Some r ->
    (forall b1 b2, b = b1 ++ b2 -> b1 <> [] ->
       k (pos + length a + length b1)%nat (b2 ++ rest) = None) ->
    greedy ok k pos (a ++ b ++ rest) = Some r.
Proof.
  intros Ha Hb Hstop. induction Ha as [|c a Hc _ IH]; intros pos Hr Hnone.
  - cbn [app length] in *. rewrite Nat.add_0_r in Hr.
    destruct Hb as [|c b Hc Hb].
    + cbn [app] in *. destruct rest as [|c rest]; cbn [greedy]; [done|].
      cbn [stops] in Hstop. now rewrite Hstop.
    + cbn [app greedy]. rewrite Hc. rewrite (greedy_fails ok k b rest Hb Hstop); [done|].
      intros b1 b2 ->. specialize (Hnone (c :: b1) b2 eq_refl ltac:(done)).
      cbn [length] in Hnone. rewrite Nat.add_0_r in Hnone.
      now rewrite Nat.add_succ_comm.
  - cbn [app greedy]. rewrite Hc. rewrite (IH (S pos)); [done| |].
    + now rewrite <- Hr; cbn [length]; rewrite Nat.add_succ_comm.
    + intros b1 b2 Hb12 Hne. rewrite <- (Hnone b1 b2 Hb12 Hne).
      cbn [length]. f_equal. lia.
Qed.

End Patterns.

Section ImageExtraction.
Context {U : Unicode}.

Lemma image_pattern_items :
  ReleaseTools.image_pattern
  = text "docker pull " ++ [GroupOpen; StarOf image_chars; GroupClose].
Proof. reflexivity. Qed.

Lemma contrib_image_pattern_items :
  Contrib.image_pattern
  = text "`docker pull " ++ [GroupOpen; Star AnyChar; GroupClose; One (Chr (chr "`"))].
Proof. reflexivity. Qed.

(** Where the pattern of [src/release-tools] matches, and what its group
    holds there. *)
Lemma image_match_inv (subject : str) (pos : nat) (m : match_object) :
  (pos <= length subject)%nat ->
  match_at ReleaseTools.image_pattern subject pos = Some m ->
  exists image post,
    subject = take pos subject ++ py "docker pull " ++ image ++ post
    /\ Forall (fun c => accepts_any image_chars c = true) image
    /\ group m 1 = Ok image.
Proof.
  intros Hpos. unfold match_at. rewrite image_pattern_items.
  destruct (match_here _ pos (drop pos subject) [] []) as [[e spans]|] eqn:Hm; [|done].
  intros [= <-].
  apply match_text_inv in Hm as (rest & Hdrop & Hm).
  rewrite match_GroupOpen in Hm. cbn [match_here] in Hm.
  apply greedy_inv in Hm as (image & post & -> & Hall & Hm).
  injection Hm as <- <-.
  assert (Hsubject : subject = take pos subject ++ py "docker pull " ++ image ++ post).
  { rewrite <- Hdrop. symmetry. apply take_drop. }
  exists image, post. split; [done|]. split; [done|].
  unfold group, groups. cbn [m_spans m_string map lookup list_lookup app].
  f_equal. rewrite Hsubject at 1.
  replace (take pos subject ++ py "docker pull " ++ image ++ post)
    with ((take pos subject ++ py "docker pull ") ++ image ++ post)
    by now rewrite <- app_assoc.
  replace (pos + 12)%nat with (length (take pos subject ++ py "docker pull "))
    by (rewrite length_app, length_take; change (length (py "docker pull ")) with 12%nat; lia).
  apply slice_middle.
Qed.

Lemma image_match_fwd (pre image post : str) :
  Forall (fun c => accepts_any image_chars c = true) image ->
  stops (accepts_any image_chars) post ->
  exists m,
    match_at ReleaseTools.image_pattern
      (pre ++ py "docker pull " ++ image ++ post) (length pre) = Some m
    /\ group m 1 = Ok image.
Proof.
  intros Hall Hstop. unfold match_at. rewrite image_pattern_items.
  rewrite drop_app_length, match_text_fwd, match_GroupOpen. cbn [match_here].
  rewrite (greedy_run _ _ image post _
             ((length pre + length (py "docker pull ") + length image)%nat,
              [((length pre + length (py "docker pull "))%nat,
                (length pre + length (py "docker pull ") + length image)%nat)]));
    [|done|done|exact Hstop].
  eexists. split; [reflexivity|].
  unfold group, groups. cbn [m_spans m_string map lookup list_lookup].
  f_equal.
  replace (pre ++ py "docker pull " ++ image ++ post)
    with ((pre ++ py "docker pull ") ++ image ++ post) by now rewrite <- app_assoc.
  replace (length pre + length (py "docker pull "))%nat
    with (length (pre ++ py "docker pull ")) by now rewrite length_app.
  apply slice_middle.
Qed.

Lemma image_lookup_returns (w : world) (st : state) (repo version output : str) :
  check_output w [py "gh"; py "release"; py "-R"; repo; py "view"; version]
    = Ok output ->
  exists image,
    ReleaseTools.get_release_docker_image repo version w st
    = (st, Ok (version, image))
    /\ Forall (fun c => accepts_any image_chars c = true) image
    /\ (image = []
        \/ exists pre post, output = pre ++ py "docker pull " ++ image ++ post).
Proof.
  intros Hout. unfold ReleaseTools.get_release_docker_image, mbind, run_bind, lift.
  rewrite Hout.
  destruct (re_search ReleaseTools.image_pattern output) as [m|] eqn:Hm.
  - apply search_from_Some in Hm as (i & Hi & Hm). cbn [Nat.add] in Hm.
    destruct (image_match_inv output i m Hi Hm) as (image & post & Hsubject & Hall & ->).
    exists image. split; [done|]. split; [done|]. right. eauto.
  - exists []. split; [done|]. split; [constructor | now left].
Qed.

(** X12.  [get_release_docker_image] of [src/release-tools] raises nothing
    of its own: whatever the release page says, it returns the version it
    was given with an image name, and that name holds only characters of
    the set of the pattern (so no backquote, no blank, no [#]); it is empty
    or stands in the page right after a [docker pull ]. *)
Theorem image_name_is_clean (w : world) (st : state) (repo version output : str) :
  check_output w [py "gh"; py "release"; py "-R"; repo; py "view"; version]
    = Ok output ->
  exists image,
    ReleaseTools.get_release_docker_image repo version w st
    = (st, Ok (version, image))
    /\ Forall (fun c => accepts_any image_chars c = true) image
    /\ (image = []
        \/ exists pre post, output = pre ++ py "docker pull " ++ image ++ post).
Proof. exact (image_lookup_returns w st repo version output). Qed.

(** X13.  The image that [get_release_docker_image] of [src/release-tools]
    returns is the text after the first [docker pull ] of the release
    page, up to the first character that is not of the set of the
    pattern. *)
Theorem image_follows_first_pull (w : world) (st : state)
    (repo version pre image post : str) :
  check_output w [py "gh"; py "release"; py "-R"; repo; py "view"; version]
    = Ok (pre ++ py "docker pull " ++ image ++ post) ->
  absent_before (py "docker pull ")
    (pre ++ py "docker pull " ++ image ++ post) (length pre) ->
  Forall (fun c => accepts_any image_chars c = true) image ->
  stops (accepts_any image_chars) post ->
  ReleaseTools.get_release_docker_image repo version w st
  = (st, Ok (version, image)).
Proof.
  intros Hout Habsent Hall Hstop.
  unfold ReleaseTools.get_release_docker_image, mbind, run_bind, lift.
  rewrite Hout.
  destruct (image_match_fwd pre image post Hall Hstop) as (m & Hm & Hg).
  unfold re_search.
  rewrite (search_from_first _ _ m (length pre)); [now rewrite Hg| |exact Hm|].
  - intros i Hi. cbn [Nat.add]. unfold match_at. rewrite image_pattern_items.
    destruct (match_here _ i _ [] []) as [r|] eqn:Hr; [|done].
    apply match_text_inv in Hr as (rest & Hdrop & _).
    destruct (Habsent i Hi). rewrite Hdrop. now apply prefix_app_r.
  - rewrite length_app. lia.
Qed.

Lemma first_line_app (a b : str) :
  Forall (fun c => accepts AnyChar c = true) a ->
  first_line (a ++ b) = a ++ first_line b.
Proof.
  induction 1 as [|c a Hc _ IH]; [done|]. cbn [app first_line accepts] in *.
  destruct (c =? 10)%N; [done|]. now rewrite IH.
Qed.

(** Where the pattern of [src/contrib] matches, a backquote follows the
    [`docker pull ] on its line. *)
Lemma contrib_image_match_inv (subject : str) (pos : nat) (m : match_object) :
  match_at Contrib.image_pattern subject pos = Some m ->
  exists rest,
    drop pos subject = py "`docker pull " ++ rest
    /\ chr "`" ∈ first_line rest.
Proof.
  unfold match_at. rewrite contrib_image_pattern_items.
  destruct (match_here _ pos (drop pos subject) [] []) as [[e spans]|] eqn:Hm; [|done].
  intros _. apply match_text_inv in Hm as (rest & Hdrop & Hm).
  exists rest. split; [done|].
  rewrite match_GroupOpen in Hm. cbn [match_here] in Hm.
  apply greedy_inv in Hm as (image & post & -> & Hall & Hm).
  rewrite first_line_app by done. apply elem_of_app. right.
  destruct post as [|c post]; [done|]. cbn [match_here accepts] in Hm.
  destruct (N.eqb_spec c (chr "`")) as [->|]; [|done].
  cbn [first_line]. left.
Qed.

(** X14.  The image that [get_release_docker_image] of [src/contrib]
    returns is everything between the first [`docker pull ] of the release
    page that a backquote follows on its line, and the last backquote of
    that line: blanks, a comment and further backquotes in between are
    part of it, and a [`docker pull ] that no backquote closes is passed
    over. *)
Theorem contrib_image_runs_to_last_backquote (w : world) (st : state)
    (repo version pre image tail post : str) :
  check_output w [py "gh"; py "release"; py "-R"; repo; py "view"; version]
    = Ok (pre ++ py "`docker pull " ++ image ++ py "`" ++ tail ++ post) ->
  unclosed_before (py "`docker pull ")
    (pre ++ py "`docker pull " ++ image ++ py "`" ++ tail ++ post) (length pre) ->
  chr "010" ∉ image -> chr "010" ∉ tail -> chr "`" ∉ tail ->
  stops (fun c => negb (c =? chr "010")%N) post ->
  Contrib.get_release_docker_image repo version w st
  = (st, Ok (version, image)).
Proof.
  intros Hout Habsent Himage Htail Hquote Hstop.
  unfold Contrib.get_release_docker_image, mbind, run_bind, lift.
  rewrite Hout. set (subject := pre ++ _) in *.
  set (start := (length pre + length (py "`docker pull "))%nat).
  assert (Hline : forall s : str, chr "010" ∉ s ->
                    Forall (fun c => accepts AnyChar c = true) s).
  { intros s Hs. apply Forall_forall. intros c Hc. cbn [accepts].
    destruct (N.eqb_spec c 10); [|done]. subst c. done. }
  assert (Hm : match_at Contrib.image_pattern subject (length pre)
               = Some {| m_string := subject; m_start := length pre;
                         m_end := S (start + length image);
                         m_spans := [(start, (start + length image)%nat)] |}).
  { unfold match_at, subject. rewrite contrib_image_pattern_items.
    rewrite drop_app_length, match_text_fwd, match_GroupOpen. cbn [match_here].
    fold start.
    rewrite (greedy_last _ _ image (py "`" ++ tail) post
               (S (start + length image), [(start, (start + length image)%nat)])).
    - done.
    - now apply Hline.
    - apply Forall_app. split; [repeat constructor | now apply Hline].
    - exact Hstop.
    - cbn [app py map list_ascii_of_string match_here]. unfold chr.
      replace ((N_of_ascii "`" =? N_of_ascii "`")%N) with true
        by (symmetry; apply N.eqb_refl).
      reflexivity.
    - intros b1 b2 Hb Hne. destruct b1 as [|c b1]; [done|].
      injection Hb as _ Hb.
      destruct b2 as [|c2 b2]; cbn [app match_here].
      + destruct post as [|c3 post]; [done|]. cbn [stops] in Hstop.
        cbn [accepts]. destruct (N.eqb_spec c3 (chr "`")) as [->|]; [|done].
        now vm_compute in Hstop.
      + cbn [accepts]. destruct (N.eqb_spec c2 (chr "`")) as [->|]; [|done].
        destruct Hquote. rewrite Hb. apply elem_of_app. right. left. }
  unfold re_search.
  match type of Hm with
  | _ = Some ?m => rewrite (search_from_first _ _ m (length pre)); [| |exact Hm|]
  end.
  - unfold group, groups. cbn [m_spans m_string map lookup list_lookup].
    unfold subject, start.
    replace (pre ++ py "`docker pull " ++ image ++ py "`" ++ tail ++ post)
      with ((pre ++ py "`docker pull ") ++ image ++ py "`" ++ tail ++ post)
      by now rewrite <- app_assoc.
    replace (length pre + length (py "`docker pull "))%nat
      with (length (pre ++ py "`docker pull ")) by now rewrite length_app.
    now rewrite slice_middle.
  - intros i Hi. cbn [Nat.add].
    destruct (match_at Contrib.image_pattern subject i) as [m|] eqn:Hearlier; [|done].
    apply contrib_image_match_inv in Hearlier as (rest & Hdrop & Hclosed).
    now destruct (Habsent i rest Hi Hdrop).
  - unfold subject. rewrite length_app. lia.
Qed.

End ImageExtraction.

Lemma image_name_is_clean_witness :
  exists image,
    @ReleaseTools.get_release_docker_image ascii_only attacher (py "v4.3.0")
      sample_world initial = (initial, Ok (py "v4.3.0", image))
    /\ Forall (fun c => @accepts_any ascii_only image_chars c = true) image
    /\ (image = []
        \/ exists pre post,
             release_page = pre ++ py "docker pull " ++ image ++ post).
Proof.
  apply (@image_name_is_clean ascii_only sample_world initial attacher
           (py "v4.3.0") release_page).
  reflexivity.
Defined.

Lemma image_follows_first_pull_witness :
  @ReleaseTools.get_release_docker_image ascii_only attacher (py "v4.3.0")
    sample_world initial = (initial, Ok (py "v4.3.0", page_image)).
Proof.
  apply (@image_follows_first_pull ascii_only sample_world initial attacher
           (py "v4.3.0") (page_head ++ py "`") page_image
           (page_comment ++ py "`" ++ newline)).
  - reflexivity.
  - intros i Hi [k Hk]. vm_compute in Hi, Hk.
    do 14 (destruct i as [|i]; [discriminate Hk|]). lia.
  - vm_compute. repeat constructor.
  - reflexivity.
Defined.

Lemma contrib_image_runs_to_last_backquote_witness :
  @Contrib.get_release_docker_image ascii_only attacher (py "v4.3.0")
    sample_world initial
  = (initial, Ok (py "v4.3.0", page_image ++ page_comment)).
Proof.
  assert (Hnotin : forall (c : char) (s : str),
            forallb (fun c' => negb (c' =? c)%N) s = true -> c ∉ s).
  { intros c s Hs Hin. rewrite forallb_forall in Hs.
    apply list_elem_of_In, Hs in Hin. now rewrite N.eqb_refl in Hin. }
  apply (@contrib_image_runs_to_last_backquote ascii_only sample_world initial
           attacher (py "v4.3.0") page_head (page_image ++ page_comment) [] newline).
  - reflexivity.
  - intros i rest Hi Hdrop. vm_compute in Hi, Hdrop.
    do 13 (destruct i as [|i]; [discriminate Hdrop|]). lia.
  - apply Hnotin. reflexivity.
  - apply not_elem_of_nil.
  - apply not_elem_of_nil.
  - reflexivity.
Defined.

(** ** The driver *)

Lemma find_repo (o : str) :
  o ∈ [py "--repo"; py "-R"] ->
  find_argument ReleaseTools.parser o = Some ReleaseTools.repo_argument.
Proof.
  rewrite !elem_of_cons, elem_of_nil. intros [->|[->|[]]]; reflexivity.
Qed.

Lemma find_flag (o : str) :
  o ∈ [py "--display"; py "-d"; py "--doc"; py "-D"] ->
  (o ∈ [py "--doc"; py "-D"]
   /\ find_argument ReleaseTools.parser o = Some ReleaseTools.doc_argument)
  \/ ((o ∉ [py "--doc"; py "-D"])
      /\ find_argument ReleaseTools.parser o = Some ReleaseTools.display_argument).
Proof.
  assert (Hne : forall l : list str,
            forallb (fun x => negb (bool_decide (o = x))) l = true -> o ∉ l).
  { intros l Hl Hin. rewrite forallb_forall in Hl.
    apply list_elem_of_In, Hl in Hin. now rewrite bool_decide_eq_true_2 in Hin. }
  intros Ho. rewrite !elem_of_cons, elem_of_nil in Ho.
  destruct Ho as [->|[->|[->|[->|[]]]]].
  - right. split; [now apply Hne | reflexivity].
  - right. split; [now apply Hne | reflexivity].
  - left. split; [left | reflexivity].
  - left. split; [right; left | reflexivity].
Qed.

(** Reading a command line that uses the options as declared. *)
Lemma take_actions_well_used (line : list occurrence) (w : world) :
  Forall well_used line ->
  forall ns seen extras st,
    exists ns' seen',
      take_actions ReleaseTools.parser line ns seen extras w st
      = (st, Ok (ns', seen', extras))
      /\ listed (ns' !! "repos") = listed (ns !! "repos") ++ omap repo_of line
      /\ ("repos" ∈ seen' <-> "repos" ∈ seen \/ omap repo_of line <> [])
      /\ ns' !! "doc"
         = if existsb is_doc_flag line then Some (VBool true) else ns !! "doc".
Proof.
  induction 1 as [|occ line Hocc _ IH]; intros ns seen extras st.
  - exists ns, seen. cbn. rewrite app_nil_r. repeat split; tauto.
  - destruct occ as [o [r|]|s]; cbn [well_used] in Hocc; [| |done].
    + cbn [take_actions omap list_omap repo_of existsb is_doc_flag orb].
      rewrite (find_repo o Hocc), (bool_decide_eq_true_2 _ Hocc).
      cbn [act dest ReleaseTools.repo_argument].
      destruct (IH (<["repos" := append_item (ns !! "repos") r]> ns)
                  ("repos" :: seen) extras st) as (ns' & seen' & -> & Hl & Hs & Hd).
      exists ns', seen'. split; [done|]. split; [|split].
      * rewrite Hl, lookup_insert_eq.
        destruct (ns !! "repos") as [[]|]; cbn [append_item listed app];
          now rewrite <- ?app_assoc.
      * rewrite Hs, elem_of_cons. split; [intros _; right; done | intros _; left; left; done].
      * rewrite Hd. now rewrite lookup_insert_ne.
    + cbn [take_actions omap list_omap repo_of existsb is_doc_flag].
      destruct (find_flag o Hocc) as [[Hdoc ->]|[Hdoc ->]].
      * cbn [act dest ReleaseTools.doc_argument].
        rewrite (bool_decide_eq_true_2 _ Hdoc). cbn [orb].
        destruct (IH (<["doc" := VBool true]> ns) ("doc" :: seen) extras st)
          as (ns' & seen' & -> & Hl & Hs & Hd).
        exists ns', seen'. split; [done|]. split; [|split].
        -- now rewrite Hl, lookup_insert_ne.
        -- rewrite Hs, elem_of_cons. split; [intros [[?|?]|?]; [done|auto..] | tauto].
        -- rewrite Hd, lookup_insert_eq. now destruct (existsb is_doc_flag line).
      * cbn [act dest ReleaseTools.display_argument].
        rewrite (bool_decide_eq_false_2 _ Hdoc). cbn [orb].
        destruct (IH (<["display" := VBool true]> ns) ("display" :: seen) extras st)
          as (ns' & seen' & -> & Hl & Hs & Hd).
        exists ns', seen'. split; [done|]. split; [|split].
        -- now rewrite Hl, lookup_insert_ne.
        -- rewrite Hs, elem_of_cons. split; [intros [[?|?]|?]; [done|auto..] | tauto].
        -- rewrite Hd. now rewrite lookup_insert_ne.
Qed.

Section Driver.
Context {U : Unicode} {T : TimeFormat}.

Lemma check_gh_found (w : world) (st : state) :
  gh_on_path w = true -> ReleaseTools.check_gh_command w st = (st, Ok tt).
Proof.
  intros Hgh. unfold ReleaseTools.check_gh_command. cbv [mbind run_bind ask].
  now rewrite Hgh.
Qed.

(** X16.  On a command line that uses the options as they are declared,
    [args.repos] holds the repositories in the order of their [-R]
    options, [args.doc] tells whether the doc flag was given, and [main]
    goes through the repositories in that order; without any [-R] the
    parser ends the run with status 2, before [gh] is looked for. *)
Theorem repos_in_command_line_order (fuel : nat) (line : list occurrence)
    (w : world) (st : state) :
  Forall well_used line ->
  let repos := omap repo_of line in
  (repos = [] ->
   ReleaseTools.main fuel line w st = (st, Raise (SystemExit 2)))
  /\ (repos <> [] ->
      exists args,
        parse_args ReleaseTools.parser line w st = (st, Ok args)
        /\ getattr args "repos" = Ok (VList repos)
        /\ getattr args "display" = Ok (VBool true)
        /\ getattr args "doc" = Ok (VBool (existsb is_doc_flag line))
        /\ ReleaseTools.main fuel line w st
           = (ReleaseTools.check_gh_command;;
              for_each repos (ReleaseTools.process_repo fuel args)) w st).
Proof.
  intros Hline repos.
  destruct (take_actions_well_used line w Hline (defaults ReleaseTools.parser) [] [] st)
    as (ns & seen & Htake & Hl & Hs & Hd).
  fold repos in Hl, Hs.
  assert (Hparsed : parsed ns).
  { eapply take_actions_parsed; [apply parsed_defaults | exact Htake]. }
  assert (Hparse : parse_args ReleaseTools.parser line w st
                   = if bool_decide ("repos" ∈ seen) then (st, Ok ns)
                     else (st, Raise (SystemExit 2))).
  { unfold parse_args, mbind, run_bind. rewrite Htake, required_given.
    rewrite (bool_decide_eq_true_2 ([] = [])) by done. rewrite andb_true_r.
    now case_bool_decide. }
  split.
  - intros Hnone. unfold ReleaseTools.main. apply bind_raise.
    rewrite Hparse, bool_decide_eq_false_2; [done|].
    rewrite Hs, elem_of_nil. tauto.
  - intros Hsome. exists ns.
    rewrite bool_decide_eq_true_2 in Hparse by (apply Hs; auto).
    assert (Hrepos : ns !! "repos" = Some (VList repos)).
    { assert (Hdef : listed (defaults ReleaseTools.parser !! "repos") = [])
        by reflexivity.
      rewrite Hdef in Hl. cbn [app] in Hl.
      destruct Hparsed as (_ & _ & [Hr|[l Hr]] & _);
        rewrite Hr in Hl |- *; cbn [listed] in Hl; congruence. }
    split; [done|]. split; [unfold getattr; now rewrite Hrepos|].
    split; [unfold getattr; now rewrite (proj1 Hparsed)|]. split.
    + unfold getattr. rewrite Hd. now destruct (existsb is_doc_flag line).
    + unfold ReleaseTools.main. rewrite (bind_ok _ _ _ _ _ _ Hparse).
      apply bind_ext. intros [] st'. unfold getattr. rewrite Hrepos. reflexivity.
Qed.

(** X15.  The check for [gh] comes after the command line is parsed: a
    command line that the parser refuses ends the run as the parser ends
    it, with or without [gh]; on one that it accepts, a missing [gh] makes
    [main] print its two lines and exit with status 1, before any
    repository is looked at. *)
Theorem gh_missing_exits_1 (fuel : nat) (line : list occurrence)
    (w : world) (st st1 : state) :
  (forall e,
     parse_args ReleaseTools.parser line w st = (st1, Raise e) ->
     ReleaseTools.main fuel line w st = (st1, Raise e))
  /\ (forall args,
        parse_args ReleaseTools.parser line w st = (st1, Ok args) ->
        gh_on_path w = false ->
        ReleaseTools.main fuel line w st
        = ({| readings := readings st1;
              stdout := stdout st1 ++ gh_missing_message |},
           Raise (SystemExit 1))).
Proof.
  split.
  - intros e Hparse. unfold ReleaseTools.main. now apply bind_raise.
  - intros args Hparse Hgh. unfold ReleaseTools.main.
    rewrite (bind_ok _ _ _ _ _ _ Hparse). apply bind_raise.
    unfold ReleaseTools.check_gh_command. cbv [mbind run_bind ask print lift].
    rewrite Hgh. cbn [negb readings stdout]. now rewrite <- app_assoc.
Qed.

(** [for x in xs] runs the body on the items in order and stops at the
    first that raises. *)
Lemma for_each_stops {A} (before : list A) (x : A) (after : list A)
    (body : A -> run unit) (w : world) (st st1 st2 : state) (e : exn) :
  for_each before body w st = (st1, Ok tt) ->
  body x w st1 = (st2, Raise e) ->
  for_each (before ++ x :: after) body w st = (st2, Raise e).
Proof.
  revert st. induction before as [|y before IH]; intros st.
  - cbn [for_each app]. intros [= <-] Hx. now apply bind_raise.
  - cbn [for_each app]. unfold mbind, run_bind at 1 2.
    destruct (body y w st) as [st' [[]|e'|]]; try discriminate. apply IH.
Qed.

(** X17.  A repository whose listing fails ends the whole run: [main]
    raises what the call of [gh release list] raised, prints nothing for
    that repository and does not go on to the repositories after it; what
    the repositories before it printed stays printed. *)
Theorem listing_failure_ends_run (fuel : nat) (line : list occurrence)
    (w : world) (st st1 st2 : state) (args : gmap string value)
    (before : list str) (repo : str) (after : list str) (e : exn) :
  parse_args ReleaseTools.parser line w st = (st1, Ok args) ->
  gh_on_path w = true ->
  getattr args "repos" = Ok (VList (before ++ repo :: after)) ->
  for_each before (ReleaseTools.process_repo fuel args) w st1 = (st2, Ok tt) ->
  check_output w [py "gh"; py "release"; py "-R"; repo; py "list"] = Raise e ->
  ReleaseTools.main fuel line w st = (st2, Raise e).
Proof.
  intros Hparse Hgh Hrepos Hbefore Hfail. unfold ReleaseTools.main.
  rewrite (bind_ok _ _ _ _ _ _ Hparse).
  rewrite (bind_ok _ _ _ _ _ _ (check_gh_found w st1 Hgh)).
  assert (Hiter : lift (getattr args "repos" ≫= iterate) w st1
                  = (st1, Ok (before ++ repo :: after))).
  { unfold lift. now rewrite Hrepos. }
  rewrite (bind_ok _ _ _ _ _ _ Hiter).
  apply (for_each_stops before repo after _ w st1 st2 st2 e Hbefore).
  unfold ReleaseTools.process_repo. apply bind_raise.
  unfold ReleaseTools.get_versions_from_releases. cbv [mbind run_bind lift].
  now rewrite Hfail.
Qed.

End Driver.

Lemma repos_in_command_line_order_witness :
  exists args,
    parse_args ReleaseTools.parser doc_line sample_world initial = (initial, Ok args)
    /\ getattr args "repos" = Ok (VList [attacher])
    /\ getattr args "display" = Ok (VBool true)
    /\ getattr args "doc" = Ok (VBool true)
    /\ @ReleaseTools.main ascii_only iso_time_format 1 doc_line sample_world initial
       = (ReleaseTools.check_gh_command;;
          for_each [attacher]
            (@ReleaseTools.process_repo ascii_only iso_time_format 1 args))
           sample_world initial.
Proof.
  apply (proj2 (@repos_in_command_line_order ascii_only iso_time_format 1 doc_line
                  sample_world initial
                  ltac:(repeat constructor; apply list_elem_of_In; cbn; tauto))).
  discriminate.
Defined.

Lemma gh_missing_exits_1_witness :
  @ReleaseTools.main ascii_only iso_time_format 1 repo_line bare_world initial
  = ({| readings := 0; stdout := gh_missing_message |}, Raise (SystemExit 1)).
Proof.
  apply (proj2 (@gh_missing_exits_1 ascii_only iso_time_format 1 repo_line
                  bare_world initial initial) repo_args).
  - vm_compute. reflexivity.
  - reflexivity.
Defined.

Lemma listing_failure_ends_run_witness :
  @ReleaseTools.main ascii_only iso_time_format 1 repo_line failing_world initial
  = (initial, Raise CalledProcessError).
Proof.
  apply (@listing_failure_ends_run ascii_only iso_time_format 1 repo_line
           failing_world initial initial initial repo_args [] attacher []).
  - vm_compute. reflexivity.
  - reflexivity.
  - reflexivity.
  - reflexivity.
  - reflexivity.
Defined.

(** ** The report of one repository *)

Section Report.
Context {U : Unicode} {T : TimeFormat}.

(** The lines of the display section: for each supported release its tag,
    its date and its age at the moment the line is printed. *)
Lemma print_releases_lines (fuel : nat) (w : world)
    (supported : list ReleaseTools.release) :
  (forall n, valid_datetime (clock w n)) -> (1 <= fuel)%nat ->
  Forall (fun r => valid_datetime r.2) supported ->
  forall st, exists lines,
    Forall2 (fun r line =>
               exists n age,
                 ReleaseTools.duration_ago fuel (clock w n) r.2 = Ok age
                 /\ line = r.1 ++ tab ++ strftime r.2 "%Y-%m-%d" ++ tab ++ age)
      supported lines
    /\ for_each supported (ReleaseTools.print_release fuel) w st
       = ({| readings := readings st + length supported;
             stdout := stdout st ++ map Line lines |}, Ok tt).
Proof.
  intros Hclock Hfuel. induction 1 as [|r supported Hr _ IH]; intros st.
  - exists []. split; [constructor|]. cbn. rewrite Nat.add_0_r, app_nil_r. now destruct st.
  - destruct (duration_ago_total fuel (clock w (readings st)) r.2 (Hclock _) Hr Hfuel)
      as [age Hage].
    set (text := r.1 ++ tab ++ strftime r.2 "%Y-%m-%d" ++ tab ++ age).
    destruct (IH {| readings := S (readings st); stdout := stdout st ++ [Line text] |})
      as (lines & Hlines & Hrun).
    exists (text :: lines). split; [constructor; [|done]; eauto|].
    cbn [for_each]. rewrite (bind_ok _ _ _ _ _ _ (print_release_run _ _ _ _ _ Hage)).
    fold tab. fold text. rewrite Hrun.
    cbn [readings stdout length map]. f_equal. f_equal; [lia|].
    now rewrite <- app_assoc.
Qed.

(** The lines of the doc section: for each supported release its tag and
    the image that its release page names. *)
Lemma print_images (w : world) (repo : str)
    (supported : list ReleaseTools.release) :
  (forall version, exists page,
     check_output w [py "gh"; py "release"; py "-R"; repo; py "view"; version]
     = Ok page) ->
  forall st, exists images,
    Forall2 (fun r image =>
               ReleaseTools.get_release_docker_image repo r.1 w st
               = (st, Ok (r.1, image))
               /\ Forall (fun c => accepts_any image_chars c = true) image)
      supported images
    /\ for_each supported (ReleaseTools.print_image repo) w st
       = ({| readings := readings st;
             stdout := stdout st
                       ++ zip_with (fun r image => Line (r.1 ++ tab ++ image))
                            supported images |}, Ok tt).
Proof.
  intros Hview. induction supported as [|r supported IH]; intros st.
  - exists []. split; [constructor|]. cbn. rewrite app_nil_r. now destruct st.
  - destruct (Hview r.1) as [page Hpage].
    assert (Hany : forall st', exists image,
              ReleaseTools.get_release_docker_image repo r.1 w st'
              = (st', Ok (r.1, image))
              /\ Forall (fun c => accepts_any image_chars c = true) image).
    { intros st'. destruct (image_lookup_returns w st' repo r.1 page Hpage)
        as (image & Hrun & Hclean & _). eauto. }
    destruct (Hany st) as (image & Hlookup & Hclean).
    set (text := r.1 ++ tab ++ image).
    destruct (IH {| readings := readings st; stdout := stdout st ++ [Line text] |})
      as (images & Himages & Hrun).
    exists (image :: images). split.
    + constructor; [done|].
      clear -Himages. induction Himages as [|r' image' rs images' [Hr Hc] _ IH'];
        constructor; [|done]. split; [|done].
      revert Hr. unfold ReleaseTools.get_release_docker_image, mbind, run_bind, lift.
      destruct (check_output w _) as [page'| |]; try discriminate.
      destruct (match re_search _ page' with Some m => group m 1 | None => Ok [] end)
        as [g| |]; try discriminate.
      cbv [mret run_ret]. intros [= <-]. reflexivity.
    + assert (Hline : ReleaseTools.print_image repo r w st
                      = ({| readings := readings st;
                            stdout := stdout st ++ [Line text] |}, Ok tt)).
      { unfold ReleaseTools.print_image.
        rewrite (bind_ok _ _ _ _ _ _ Hlookup). reflexivity. }
      cbn [for_each]. rewrite (bind_ok _ _ _ _ _ _ Hline). rewrite Hrun.
      cbn [readings stdout zip_with]. f_equal. f_equal.
      now rewrite <- app_assoc.
Qed.


End Report.

